(** * neural-break-unity: the singleton-removal scripts, embedded and verified

    The repository's three maintenance scripts rewrite C# sources:
    - [fix_instances.py] rewrites [Symbol.Instance] references,
    - [remove_instance_props.py] deletes singleton boilerplate line by line,
    - [update_debug_logs.py] wraps logging calls and injects a using line.

    Each script is a pure function of the text it read, wrapped in file I/O.
    The embedding keeps that shape: a file is the text (or the list of lines)
    that [read]/[readlines] returned, and a transformation returns the text
    the file holds afterwards together with the Python return value.

    Text is a list of Unicode code points, as a Python [str] is.  The
    patterns are kept as regular-expression syntax trees and run by a small
    backtracking matcher that follows the priority order of Python's [re]
    (greedy repetition first, left alternative first).  [\s] is Python's
    table of whitespace; [\w] is ASCII letters, digits and the underscore,
    and, above U+007F, a table of the Unicode database that the development
    takes as a parameter.

    The file has three parts: the embedding (text, matcher, the three
    scripts, and the readings of the specification they are compared with),
    the theorems (the matcher against the language of a pattern, then one
    group of results per script), and evaluations on concrete files. *)

From Stdlib Require Import NArith List Bool Arith Lia.
From Stdlib Require Import Strings.String Strings.Ascii.
From stdpp Require Import base list.

Local Open Scope nat_scope.

(** ** Text *)

Definition char := N.
Definition str := list char.

(** A literal of the source, as code points. *)
Definition txt (s : string) : str := map N_of_ascii (list_ascii_of_string s).
Arguments txt s%_string.

Definition chr (a : ascii) : char := N_of_ascii a.
Arguments chr a%_char.

(** The line feed, [\n]. *)
Definition NL : str := [10%N].

(** A line of a file, as [readlines] returns it: the text and its line
    feed. *)
Definition line (s : string) : str := txt s ++ NL.
Arguments line s%_string.

Fixpoint str_eqb (a b : str) : bool :=
  match a, b with
  | [], [] => true
  | x :: a', y :: b' => N.eqb x y && str_eqb a' b'
  | _, _ => false
  end.

(** [s.startswith(p)] *)
Fixpoint startswith (p s : str) : bool :=
  match p, s with
  | [], _ => true
  | _ :: _, [] => false
  | a :: p', b :: s' => N.eqb a b && startswith p' s'
  end.

(** [needle in hay], Python's substring test on [str]. *)
Fixpoint contains (needle hay : str) : bool :=
  startswith needle hay ||
  match hay with
  | [] => false
  | _ :: hay' => contains needle hay'
  end.

(** ** Character classes of Python's [re] on [str] patterns *)

(** [\s]: the code points for which [str.isspace] holds. *)
Definition is_space (c : char) : bool :=
  ((9 <=? c) && (c <=? 13) || (28 <=? c) && (c <=? 32) ||
   (c =? 133) || (c =? 160) || (c =? 5760) ||
   (8192 <=? c) && (c <=? 8202) || (c =? 8232) || (c =? 8233) ||
   (c =? 8239) || (c =? 8287) || (c =? 12288))%N.

Definition ascii_alnum (c : char) : bool :=
  ((48 <=? c) && (c <=? 57) || (65 <=? c) && (c <=? 90) ||
   (97 <=? c) && (c <=? 122))%N.

Definition not_semicolon (c : char) : bool := negb (c =? chr ";")%N.
Definition cr_or_lf (c : char) : bool := ((c =? 13) || (c =? 10))%N.
Definition word_or_dot (w : char -> bool) (c : char) : bool :=
  w c || (c =? chr ".")%N.

(** ** Regular expressions *)

Inductive regex : Type :=
| Eps
| Chr (c : char)
| Cls (p : char -> bool)
| Seq (r1 r2 : regex)
| Alt (r1 r2 : regex)
| Star (r : regex)
| Plus (r : regex)
| Grp (r : regex)
| Bol
| Eol
| Wordb.

Declare Scope re_scope.
Delimit Scope re_scope with re.
Bind Scope re_scope with regex.
Infix "⋅" := Seq (at level 41, right associativity) : re_scope.

(** A run of literal characters (an escaped metacharacter of the source
    pattern, such as [\.] or [\(], is the literal character). *)
Definition LitS (s : str) : regex :=
  fold_right (fun c r => Seq (Chr c) r) Eps s.
Definition Lit (s : string) : regex := LitS (txt s).
Arguments Lit s%_string.

Abbreviation ws := (Cls is_space) (only parsing).

(** A matcher configuration: the character before the cursor ([None] at
    the start of the subject), the text from the cursor on, and the text of
    capture group 1 when it has taken part in the match. *)
Record cfg : Type := Cfg { prev : option char; rest : str; grp1 : option str }.

Definition consumed (c c' : cfg) : str :=
  take (length (rest c) - length (rest c')) (rest c).

(** Greedy repetition: one more round first, stopping second.  A round
    that consumes nothing is not repeated. *)
Fixpoint repeat_greedy (step : cfg -> list cfg) (fuel : nat) (c : cfg) : list cfg :=
  match fuel with
  | 0 => [c]
  | S n =>
      flat_map (fun c' => if length (rest c') <? length (rest c)
                          then repeat_greedy step n c' else [])
               (step c) ++ [c]
  end.

Section Matcher.

(** [str.isalnum] on the code points from U+0080 on: the Unicode character
    database, which is not part of the repository. *)
Variable isalnum_high : char -> bool.

(** [\w]: alphanumeric or underscore. *)
Definition is_word (c : char) : bool :=
  if (c <? 128)%N then ascii_alnum c || (c =? chr "_")%N else isalnum_high c.

Definition word_at (o : option char) : bool :=
  match o with Some c => is_word c | None => false end.

(** All the ways [r] matches at the cursor, in the order Python tries
    them; the head of the list is the match [re] reports. *)
Fixpoint run (r : regex) (c : cfg) : list cfg :=
  match r with
  | Eps => [c]
  | Chr a =>
      match rest c with
      | x :: s => if (x =? a)%N then [Cfg (Some x) s (grp1 c)] else []
      | [] => []
      end
  | Cls p =>
      match rest c with
      | x :: s => if p x then [Cfg (Some x) s (grp1 c)] else []
      | [] => []
      end
  | Seq r1 r2 => flat_map (run r2) (run r1 c)
  | Alt r1 r2 => run r1 c ++ run r2 c
  | Star r1 => repeat_greedy (run r1) (length (rest c)) c
  | Plus r1 => flat_map (fun c' => repeat_greedy (run r1) (length (rest c')) c') (run r1 c)
  | Grp r1 => map (fun c' => Cfg (prev c') (rest c') (Some (consumed c c'))) (run r1 c)
  | Bol => match prev c with None => [c] | Some _ => [] end
  | Eol => match rest c with
           | [] => [c]
           | [x] => if (x =? 10)%N then [c] else []
           | _ => []
           end
  | Wordb => if xorb (word_at (prev c)) (word_at (head (rest c))) then [c] else []
  end.

(** One attempt at the cursor, as [pattern.match(s, pos)] makes it. *)
Definition match_at (r : regex) (p : option char) (s : str) : option cfg :=
  head (run r (Cfg p s None)).

(** [re.search]: the first cursor position with a match; the result is the
    text before the match and the configuration after it. *)
Fixpoint search_from (r : regex) (p : option char) (s : str) : option (str * cfg) :=
  match match_at r p s with
  | Some c' => Some ([], c')
  | None =>
      match s with
      | [] => None
      | x :: s' =>
          match search_from r (Some x) s' with
          | Some (pre, c') => Some (x :: pre, c')
          | None => None
          end
      end
  end.

Definition re_search (r : regex) (s : str) : option (str * cfg) :=
  search_from r None s.

(** Truth value of [re.search(r, s)] in an [if]. *)
Definition re_found (r : regex) (s : str) : bool :=
  match re_search r s with Some _ => true | None => false end.

(** A replacement template: literal text and [\1]. *)
Inductive repl_item : Type :=
| RText (s : str)
| RGroup1.

Definition expand (t : list repl_item) (c' : cfg) : str :=
  flat_map (fun i => match i with
                     | RText s => s
                     | RGroup1 => default [] (grp1 c')
                     end) t.

(** [pattern.sub(template, s)]: non-overlapping matches from left to
    right, each replaced by the expanded template.  The patterns of the
    scripts never match the empty string; an empty match is replaced and
    the scan moves one character on. *)
Fixpoint sub_loop (fuel : nat) (r : regex) (t : list repl_item)
    (p : option char) (s : str) : str :=
  match fuel with
  | 0 => s
  | S n =>
      match match_at r p s with
      | Some c' =>
          if length (rest c') <? length s
          then expand t c' ++ sub_loop n r t (prev c') (rest c')
          else expand t c' ++
               match s with
               | [] => []
               | x :: s' => x :: sub_loop n r t (Some x) s'
               end
      | None =>
          match s with
          | [] => []
          | x :: s' => x :: sub_loop n r t (Some x) s'
          end
      end
  end.

Definition re_sub (r : regex) (t : list repl_item) (s : str) : str :=
  sub_loop (S (length s)) r t None s.

(** [pattern.finditer(s)]: the spans [(start, end)] of the matches. *)
Fixpoint finditer_loop (fuel : nat) (r : regex) (pos : nat)
    (p : option char) (s : str) : list (nat * nat) :=
  match fuel with
  | 0 => []
  | S n =>
      match match_at r p s with
      | Some c' =>
          let k := length s - length (rest c') in
          if 0 <? k
          then (pos, pos + k) :: finditer_loop n r (pos + k) (prev c') (rest c')
          else (pos, pos) ::
               match s with
               | [] => []
               | x :: s' => finditer_loop n r (S pos) (Some x) s'
               end
      | None =>
          match s with
          | [] => []
          | x :: s' => finditer_loop n r (S pos) (Some x) s'
          end
      end
  end.

Definition re_finditer (r : regex) (s : str) : list (nat * nat) :=
  finditer_loop (S (length s)) r 0 None s.

End Matcher.

(** A character database in which no code point from U+0080 on is
    alphanumeric.  The examples below are ASCII text, on which the choice of
    the database has no effect. *)
Definition ascii_only (c : char) : bool := false.

(** *** Auxiliary notions for reasoning about matches *)

(** The language of a pattern without anchors: the texts it can match,
    whatever surrounds them.  Repetition is by non-empty rounds, as the
    matcher makes them. *)
Fixpoint lang (r : regex) (a : str) : Prop :=
  match r with
  | Eps => a = []
  | Chr x => a = [x]
  | Cls p => exists x, a = [x] /\ p x = true
  | Seq r1 r2 => exists a1 a2, a = a1 ++ a2 /\ lang r1 a1 /\ lang r2 a2
  | Alt r1 r2 => lang r1 a \/ lang r2 a
  | Star r1 =>
      exists rounds, a = concat rounds /\
        Forall (fun x => x <> [] /\ lang r1 x) rounds
  | Plus r1 =>
      exists a1 rounds, a = a1 ++ concat rounds /\ lang r1 a1 /\
        Forall (fun x => x <> [] /\ lang r1 x) rounds
  | Grp r1 => lang r1 a
  | Bol | Eol | Wordb => False
  end.

Fixpoint anchor_free (r : regex) : bool :=
  match r with
  | Bol | Eol | Wordb => false
  | Seq r1 r2 | Alt r1 r2 => anchor_free r1 && anchor_free r2
  | Star r1 | Plus r1 | Grp r1 => anchor_free r1
  | Eps | Chr _ | Cls _ => true
  end.

(** Length of the longest prefix of [s] whose characters satisfy [p]. *)
Fixpoint run_length (p : char -> bool) (s : str) : nat :=
  match s with
  | x :: s' => if p x then S (run_length p s') else 0
  | [] => 0
  end.

(** [k; k-1; ...; 1]: the lengths a greedy repetition tries, longest first. *)
Fixpoint countdown (k : nat) : list nat :=
  match k with
  | 0 => []
  | S k' => k :: countdown k'
  end.

(** The configuration [i] characters further on. *)
Definition adv (c : cfg) (i : nat) : cfg :=
  Cfg (match last (take i (rest c)) with Some x => Some x | None => prev c end)
      (drop i (rest c)) (grp1 c).

(** The shape of the two logging patterns: [(\s+)] and a literal. *)
Definition space_prefixed (name : str) : regex := (Grp (Plus ws) ⋅ LitS name)%re.

(** Where such a pattern matches at the start of [s]: after the whole run
    of spaces that [s] starts with, when the literal follows it.  The
    result is the length of the run. *)
Definition space_prefixed_at (name s : str) : option nat :=
  let k := run_length is_space s in
  if (0 <? k) && startswith name (drop k s) then Some k else None.

(** The number of places at which [needle] occurs in [hay]. *)
Fixpoint occurrences (needle hay : str) : nat :=
  (if startswith needle hay then 1 else 0) +
  match hay with
  | [] => 0
  | _ :: hay' => occurrences needle hay'
  end.

(** No occurrence of [name] begins before [b] and ends inside it: no
    proper, non-empty suffix of [name] starts [b]. *)
Definition no_straddle (name b : str) : bool :=
  forallb (fun j => negb (startswith (drop j name) b))
          (seq 1 (length name - 1)).

(** The last character of [a] is not a space (or [a] is empty); the first
    character of [b] is not a space (or [b] is empty). *)
Definition ends_nonspace (a : str) : bool :=
  match last a with Some z => negb (is_space z) | None => true end.
Definition starts_nonspace (b : str) : bool :=
  match b with y :: _ => negb (is_space y) | [] => true end.


(** ** remove_instance_props.py *)

Module RemoveInstanceProps.

Definition REMOVED_SINGLETONS : list str :=
  [ txt "AchievementSystem"; txt "ArenaManager"; txt "GamepadRumble";
    txt "MusicManager"; txt "EnvironmentParticles"; txt "FeedbackManager";
    txt "PostProcessManager"; txt "ShipCustomization"; txt "DamageNumberPopup";
    txt "Minimap"; txt "StarfieldController"; txt "UIManager" ].

(** The two substring tests of the Awake check. *)
Definition AWAKE_CHECK_FULL : str := txt "if (Instance != null && Instance != this)".
Definition AWAKE_CHECK : str := txt "if (Instance != null".
Definition CLOSING_BRACE : str := txt "}".

(** [^\s+Instance\s*=\s*(this|null);] *)
Definition ASSIGN_RE : regex :=
  (Bol ⋅ Plus ws ⋅ Lit "Instance" ⋅ Star ws ⋅ Chr (chr "=") ⋅ Star ws ⋅
   Grp (Alt (Lit "this") (Lit "null")) ⋅ Chr (chr ";"))%re.

(** [if\s*\(\s*Instance\s*==\s*this\s*\)] *)
Definition ON_DESTROY_RE : regex :=
  (Lit "if" ⋅ Star ws ⋅ Chr (chr "(") ⋅ Star ws ⋅ Lit "Instance" ⋅ Star ws ⋅
   Lit "==" ⋅ Star ws ⋅ Lit "this" ⋅ Star ws ⋅ Chr (chr ")"))%re.

(** The texts [^\s+Instance\s*=\s*(this|null);] matches: at least one space,
    the name, the sign and the value with any spaces around the sign, and
    the terminator. *)
Definition assignment_shape (a : str) : Prop :=
  exists w sp1 sp2 v,
    a = w ++ txt "Instance" ++ sp1 ++ [chr "="] ++ sp2 ++ v ++ [chr ";"] /\
    w <> [] /\ Forall (fun x => is_space x = true) w /\
    Forall (fun x => is_space x = true) sp1 /\
    Forall (fun x => is_space x = true) sp2 /\
    (v = txt "this" \/ v = txt "null").

(** ['}' in line] *)
Definition has_brace (line : str) : bool := contains CLOSING_BRACE line.

(** [while i < len(lines) and '}' not in lines[i]: i += 1], on the lines
    from [i] on. *)
Fixpoint skip_to_brace (lines : list str) : list str :=
  match lines with
  | [] => []
  | l :: ls => if contains CLOSING_BRACE l then lines else skip_to_brace ls
  end.

Section Remover.

Variable isalnum_high : char -> bool.

Abbreviation wd := (Cls (is_word isalnum_high)) (only parsing).

(** [public\s+static\s+\w+\s+Instance\s*{] *)
Definition PROPERTY_RE : regex :=
  (Lit "public" ⋅ Plus ws ⋅ Lit "static" ⋅ Plus ws ⋅ Plus wd ⋅ Plus ws ⋅
   Lit "Instance" ⋅ Star ws ⋅ Chr (chr "{"))%re.

(** The four tests of the loop body, in the order the loop makes them. *)
Definition is_property (line : str) : bool :=
  re_found isalnum_high PROPERTY_RE line.
Definition is_awake_check (line : str) : bool :=
  contains AWAKE_CHECK_FULL line || contains AWAKE_CHECK line.
Definition is_assignment (line : str) : bool :=
  re_found isalnum_high ASSIGN_RE line.
Definition is_destroy_check (line : str) : bool :=
  re_found isalnum_high ON_DESTROY_RE line.

(** The [while i < len(lines)] loop on the lines from [i] on.  The result
    is what the loop appends to [new_lines] from here on, and whether it
    sets [removed_something].  Every round moves [i] forward, so one unit
    of fuel per line is enough. *)
Fixpoint scan (fuel : nat) (lines : list str) (skip_until : option str)
    : list str * bool :=
  match fuel, lines with
  | 0, _ => ([], false)
  | _, [] => ([], false)
  | S n, line :: rest =>
      if is_property line then
        (* skip_until = '}'; removed_something = True; i += 1 *)
        ((scan n rest (Some CLOSING_BRACE)).1, true)
      else if is_awake_check line then
        (* inner while, then i += 1 *)
        ((scan n (drop 1 (skip_to_brace lines)) skip_until).1, true)
      else if is_assignment line then
        ((scan n rest skip_until).1, true)
      else if is_destroy_check line then
        ((scan n (drop 1 (skip_to_brace lines)) skip_until).1, true)
      else
        match skip_until with
        | Some ((_ :: _) as mark) =>
            (* if skip_until in line: skip_until = None *)
            scan n rest (if contains mark line then None else skip_until)
        | _ =>
            let '(new_lines, removed) := scan n rest skip_until in
            (line :: new_lines, removed)
        end
  end.

(** The loop started with exactly the fuel its lines need. *)
Definition scan_all (lines : list str) (skip_until : option str)
    : list str * bool :=
  scan (length lines) lines skip_until.

(** [remove_singleton_code(filepath, classname)]: the file is the list of
    lines [readlines] returned; the result is the lines the file holds
    afterwards and the returned flag.  The file is rewritten only when
    something was removed, and [classname] is not consulted. *)
Definition remove_singleton_code (file : list str) (classname : str)
    : list str * bool :=
  let '(new_lines, removed_something) := scan_all file None in
  if removed_something then (new_lines, true) else (file, false).

(** The loop is at a guard line: rule 2 fires, or rule 4 does. *)
Definition guard_fires (line : str) : Prop :=
  is_property line = false /\
  (is_awake_check line = true \/
   (is_awake_check line = false /\ is_assignment line = false /\
    is_destroy_check line = true)).

(** *** The specification's reading of the rules

    The following definitions follow the words of the specification, not
    the code; the theorems compare them with [scan]. *)

(** The specification's single-assignment pattern,
    [^\s*Instance\s*=\s*(this|null);$]. *)
Definition SPEC_ASSIGN_RE : regex :=
  (Bol ⋅ Star ws ⋅ Lit "Instance" ⋅ Star ws ⋅ Chr (chr "=") ⋅ Star ws ⋅
   Grp (Alt (Lit "this") (Lit "null")) ⋅ Chr (chr ";") ⋅ Eol)%re.

Definition spec_is_assignment (line : str) : bool :=
  re_found isalnum_high SPEC_ASSIGN_RE line.

(** A line on which none of the four rules fires. *)
Definition quiet (line : str) : bool :=
  negb (is_property line) && negb (is_awake_check line) &&
  negb (is_assignment line) && negb (is_destroy_check line).

(** Where the specification's scan stands: outside any span, inside the
    span of a property block, or inside the span of a guard block. *)
Inductive position : Type := Outside | InProperty | InGuard.

Definition after_line (w : position) (line : str) : position :=
  if contains CLOSING_BRACE line then Outside else w.

(** The specification's scan: a match of rule 1, 2 or 4 opens a span, and
    inside a span only the closing marker is looked for.  The span of a
    property block closes on the first line after the opening line that
    contains the marker; the span of a guard block may close on the guard
    line itself. *)
Fixpoint reference_scan (w : position) (lines : list str) : list str * bool :=
  match lines with
  | [] => ([], false)
  | line :: rest =>
      match w with
      | InProperty | InGuard => reference_scan (after_line w line) rest
      | Outside =>
          if is_property line then
            ((reference_scan InProperty rest).1, true)
          else if is_awake_check line then
            ((reference_scan (after_line InGuard line) rest).1, true)
          else if is_assignment line then
            ((reference_scan Outside rest).1, true)
          else if is_destroy_check line then
            ((reference_scan (after_line InGuard line) rest).1, true)
          else
            (line :: (reference_scan Outside rest).1,
             (reference_scan Outside rest).2)
      end
  end.

Definition reference_remove (file : list str) : list str * bool :=
  let '(new_lines, removed_something) := reference_scan Outside file in
  if removed_something then (new_lines, true) else (file, false).

(** The lines inside the property spans of the specification's scan: after
    each opening line, through the closing line. *)
Fixpoint property_span_lines (w : position) (lines : list str) : list str :=
  match lines with
  | [] => []
  | line :: rest =>
      match w with
      | InProperty => line :: property_span_lines (after_line w line) rest
      | InGuard => property_span_lines (after_line w line) rest
      | Outside =>
          if is_property line then property_span_lines InProperty rest
          else if is_awake_check line then
            property_span_lines (after_line InGuard line) rest
          else if is_assignment line then property_span_lines Outside rest
          else if is_destroy_check line then
            property_span_lines (after_line InGuard line) rest
          else property_span_lines Outside rest
      end
  end.

(** Every guard line of [pre] has its closing marker within [pre]. *)
Fixpoint guards_closed (pre : list str) : bool :=
  match pre with
  | [] => true
  | line :: rest =>
      (negb (is_awake_check line || is_destroy_check line) ||
       existsb (contains CLOSING_BRACE) pre) && guards_closed rest
  end.

End Remover.

End RemoveInstanceProps.

(** ** fix_instances.py *)

Module FixInstances.

Definition REMOVED_SINGLETONS : list str :=
  [ txt "AchievementSystem"; txt "ArenaManager"; txt "PlayerLevelSystem";
    txt "WeaponUpgradeManager"; txt "GamepadRumble"; txt "MusicManager";
    txt "UIFeedbacks"; txt "ScreenFlash"; txt "VFXManager";
    txt "EnemyDeathVFX"; txt "StarfieldController"; txt "EnvironmentParticles";
    txt "FeedbackManager"; txt "PostProcessManager"; txt "HighScoreManager";
    txt "ShipCustomization"; txt "WaveAnnouncement"; txt "ControlsOverlay";
    txt "DamageNumberPopup"; txt "Minimap"; txt "FeedbackSetup";
    txt "UIManager" ].

Definition KEPT_SINGLETONS : list str :=
  [ txt "GameManager"; txt "LevelManager"; txt "InputManager";
    txt "AudioManager"; txt "SaveSystem"; txt "AccessibilityManager";
    txt "EnemyProjectilePool" ].

(** [rf'\b{singleton}\.Instance\b']: the name is spliced into the pattern
    text; the names of the list are made of word characters only, so each
    reads as a literal. *)
Definition instance_pattern (singleton : str) : regex :=
  (Wordb ⋅ LitS singleton ⋅ Lit ".Instance" ⋅ Wordb)%re.

(** [f'FindObjectOfType<{singleton}>()'] *)
Definition replacement (singleton : str) : list repl_item :=
  [RText (txt "FindObjectOfType<" ++ singleton ++ txt ">()")].

Section Rewriter.

Variable isalnum_high : char -> bool.

(** One round of [for singleton in REMOVED_SINGLETONS], on the pair
    [(content, changes)]. *)
Definition fix_step (acc : str * list str) (singleton : str) : str * list str :=
  let '(content, changes) := acc in
  let pattern := instance_pattern singleton in
  if re_found isalnum_high pattern content
  then (re_sub isalnum_high pattern (replacement singleton) content,
        changes ++ [singleton])
  else (content, changes).

(** The loop over a list of names; [fix_file] runs it on
    [REMOVED_SINGLETONS]. *)
Definition fix_with (singletons : list str) (original : str)
    : str * option (list str) :=
  let '(content, changes) := fold_left fix_step singletons (original, []) in
  if negb (str_eqb content original)
  then (content, Some changes)
  else (original, None).

(** [fix_file(filepath)]: the text the file holds afterwards, and the
    returned list of changes ([None] when the file is left alone). *)
Definition fix_file (original_content : str) : str * option (list str) :=
  fix_with REMOVED_SINGLETONS original_content.

(** The loop of [main] over the files [rglob('*.cs')] yields, each a name
    and the text it holds, with the two totals.  [if changes:] is the
    truth test of Python: [None] and the empty list both fail it. *)
Fixpoint main_loop (files : list (str * str)) (total_files total_changes : nat)
    : list (str * str) * (nat * nat) :=
  match files with
  | [] => ([], (total_files, total_changes))
  | (cs_file, content) :: rest =>
      let '(content', changes) := fix_file content in
      let '(files', totals) :=
        match changes with
        | Some ((_ :: _) as changes) =>
            main_loop rest (total_files + 1) (total_changes + length changes)
        | _ => main_loop rest total_files total_changes
        end in
      ((cs_file, content') :: files', totals)
  end.

Definition main (files : list (str * str)) : list (str * str) * (nat * nat) :=
  main_loop files 0 0.

End Rewriter.

End FixInstances.

(** ** update_debug_logs.py *)

Module UpdateDebugLogs.

Definition USING_STATEMENT : str := txt "using NeuralBreak.Utils;".

(** [(\s+)Debug\.Log\(] *)
Definition DEBUG_LOG_PATTERN : regex :=
  (Grp (Plus ws) ⋅ Lit "Debug.Log(")%re.

(** [(\s+)Debug\.LogWarning\(] *)
Definition DEBUG_LOG_WARNING_PATTERN : regex :=
  (Grp (Plus ws) ⋅ Lit "Debug.LogWarning(")%re.

(** [(using [^;]+;[\r\n]+)+]; the MULTILINE flag changes [^] and [$] only,
    which the pattern does not use. *)
Definition USING_SECTION_PATTERN : regex :=
  Plus (Grp (Lit "using " ⋅ Plus (Cls not_semicolon) ⋅ Chr (chr ";") ⋅
             Plus (Cls cr_or_lf)))%re.

Section Logs.

Variable isalnum_high : char -> bool.

(** [namespace\s+[\w\.]+\s*\{] *)
Definition NAMESPACE_RE : regex :=
  (Lit "namespace" ⋅ Plus ws ⋅ Plus (Cls (word_or_dot (is_word isalnum_high))) ⋅
   Star ws ⋅ Chr (chr "{"))%re.

(** The texts [namespace\s+[\w\.]+\s*\{] matches: the keyword, at least one
    space, a name of word characters and dots, any spaces, and the opening
    brace. *)
Definition namespace_shape (a : str) : Prop :=
  exists sp ident sp',
    a = txt "namespace" ++ sp ++ ident ++ sp' ++ [chr "{"] /\
    sp <> [] /\ Forall (fun x => is_space x = true) sp /\
    ident <> [] /\
    Forall (fun x => word_or_dot (is_word isalnum_high) x = true) ident /\
    Forall (fun x => is_space x = true) sp'.

(** A namespace declaration starts at position [k] of the content. *)
Definition namespace_at (k : nat) (content : str) : Prop :=
  exists a t, drop k content = a ++ t /\ namespace_shape a.

(** [add_using_statement(content)] *)
Definition add_using_statement (content : str) : str :=
  if contains USING_STATEMENT content then content
  else
    match last (re_finditer isalnum_high USING_SECTION_PATTERN content) with
    | Some (_, insert_pos) =>
        take insert_pos content ++ USING_STATEMENT ++ NL ++
        drop insert_pos content
    | None =>
        match re_search isalnum_high NAMESPACE_RE content with
        | Some (before, _) =>
            let insert_pos := length before in
            take insert_pos content ++ USING_STATEMENT ++ NL ++ NL ++
            drop insert_pos content
        | None => USING_STATEMENT ++ NL ++ NL ++ content
        end
    end.

(** [replace_debug_calls(content)] *)
Definition replace_debug_calls (content : str) : str :=
  let content :=
    re_sub isalnum_high DEBUG_LOG_PATTERN
      [RGroup1; RText (txt "LogHelper.Log(")] content in
  let content :=
    re_sub isalnum_high DEBUG_LOG_WARNING_PATTERN
      [RGroup1; RText (txt "LogHelper.LogWarning(")] content in
  content.

(** [should_process_file(filepath)], on the text [str(filepath)]. *)
Definition should_process_file (filepath : str) : bool :=
  if contains (txt "Editor") filepath then false
  else if contains (txt "Debug") filepath then false
  else true.

(** [process_file(filepath)], on the text the file holds: the text it holds
    afterwards, and the returned flag.  The file is taken to be readable
    and writable as UTF-8; the [except] branch, which returns [False], is
    the other case. *)
Definition process_file (content : str) : str * bool :=
  if negb (contains (txt "Debug.Log(") content) &&
     negb (contains (txt "Debug.LogWarning(") content)
  then (content, false)
  else
    let original_content := content in
    let content := add_using_statement content in
    let content := replace_debug_calls content in
    if negb (str_eqb content original_content) then (content, true)
    else (original_content, false).

(** The loop of [main] over the files [rglob('*.cs')] yields, each a path
    and the text it holds, with the two counters.  The result is the files
    afterwards and the counters the summary prints. *)
Fixpoint main_loop (files : list (str * str))
    (processed_count skipped_count : nat) : list (str * str) * (nat * nat) :=
  match files with
  | [] => ([], (processed_count, skipped_count))
  | (filepath, content) :: rest =>
      if should_process_file filepath then
        let '(content', updated) := process_file content in
        let '(files', counts) :=
          main_loop rest
            (if updated then processed_count + 1 else processed_count)
            skipped_count in
        ((filepath, content') :: files', counts)
      else
        let '(files', counts) :=
          main_loop rest processed_count (skipped_count + 1) in
        ((filepath, content) :: files', counts)
  end.

Definition main (files : list (str * str)) : list (str * str) * (nat * nat) :=
  main_loop files 0 0.

End Logs.

End UpdateDebugLogs.

(** *** Auxiliary notions: what [USING_SECTION_PATTERN] matches *)

(** One round of the pattern's group up to its terminator: [using ], the
    longest run of characters other than the semicolon (at least one), and
    the semicolon.  The result is the text after the semicolon. *)
Definition using_item (s : str) : option str :=
  if startswith (txt "using ") s then
    let s1 := drop 6 s in
    let b := run_length not_semicolon s1 in
    if 0 <? b then
      match drop b s1 with
      | _ :: s2 => Some s2
      | [] => None
      end
    else None
  else None.

(** One round of the group: an item and the longest run of line ends after
    it (at least one).  The result is the text after the line ends. *)
Definition using_line (s : str) : option str :=
  match using_item s with
  | Some s2 =>
      let j := run_length cr_or_lf s2 in
      if 0 <? j then Some (drop j s2) else None
  | None => None
  end.

(** The text after as many rounds as follow one another. *)
Fixpoint using_lines (fuel : nat) (s : str) : str :=
  match fuel with
  | 0 => s
  | S n =>
      match using_line s with
      | Some s' => using_lines n s'
      | None => s
      end
  end.

(** The text after the match of the whole pattern at the start of [s]. *)
Definition using_run (s : str) : option str :=
  match using_line s with
  | Some s1 => Some (using_lines (length s1) s1)
  | None => None
  end.

(** *** Auxiliary notions: where [\bName\.Instance\b] matches *)

Section InstanceAt.

Variable isalnum_high : char -> bool.

(** The pattern matches at the cursor: no word character before it, the
    text [Name.Instance] at it, no word character after that. *)
Definition instance_at (name : str) (p : option char) (s : str) : bool :=
  negb (word_at isalnum_high p) &&
  startswith (name ++ txt ".Instance") s &&
  negb (word_at isalnum_high (head (drop (length name + 9) s))).

(** It matches at the cursor or further on. *)
Fixpoint instance_in (name : str) (p : option char) (s : str) : bool :=
  instance_at name p s ||
  match s with
  | [] => false
  | x :: s' => instance_in name (Some x) s'
  end.

(** The pattern for [other] matches at a place, at the cursor or further
    on, at which the pattern for [name] does not. *)
Fixpoint instance_free (name other : str) (p : option char) (s : str) : bool :=
  (instance_at other p s && negb (instance_at name p s)) ||
  match s with
  | [] => false
  | x :: s' => instance_free name other (Some x) s'
  end.

End InstanceAt.

(** The character before the cursor once [a] has been read. *)
Definition prev_after (p : option char) (a : str) : option char :=
  match last a with Some z => Some z | None => p end.

(** * Theorems *)

(** ** The matcher *)

Section MatcherFacts.

Variable tbl : char -> bool.


Lemma startswith_app p t : startswith p (p ++ t) = true.
Proof. induction p as [|a p IH]; [done|]. simpl. by rewrite N.eqb_refl. Qed.

Lemma startswith_prefix p s : startswith p s = true -> s = p ++ drop (length p) s.
Proof.
  revert s. induction p as [|a p IH]; intros [|b s]; simpl; try done.
  intros [->%N.eqb_eq H]%andb_true_iff. f_equal. by apply IH.
Qed.

Lemma startswith_iff p s : startswith p s = true <-> exists t, s = p ++ t.
Proof.
  split; [intros H; eexists; by apply startswith_prefix|].
  intros [t ->]. apply startswith_app.
Qed.

Lemma contains_startswith needle hay :
  startswith needle hay = true -> contains needle hay = true.
Proof. intros H. destruct hay; simpl; by rewrite H. Qed.

Lemma contains_app a needle b : contains needle (a ++ needle ++ b) = true.
Proof.
  induction a as [|x a IH].
  - rewrite app_nil_l. apply contains_startswith, startswith_app.
  - simpl. rewrite IH. apply orb_true_r.
Qed.

Lemma contains_iff needle hay :
  contains needle hay = true <-> exists a b, hay = a ++ needle ++ b.
Proof.
  split.
  - induction hay as [|x hay IH]; simpl.
    + rewrite orb_false_r. intros [t ->]%startswith_iff. by exists [], t.
    + intros [[t ->]%startswith_iff|H]%orb_true_iff; [by exists [], t|].
      destruct (IH H) as (a & b & ->). by exists (x :: a), b.
  - intros (a & b & ->). apply contains_app.
Qed.

Lemma str_eqb_eq a b : str_eqb a b = true <-> a = b.
Proof.
  revert b. induction a as [|x a IH]; intros [|y b]; simpl; try done.
  rewrite andb_true_iff, N.eqb_eq, IH. split; [by intros [-> ->]|].
  by intros [= -> ->].
Qed.

Lemma countdown_snoc k : countdown (S k) = map S (countdown k) ++ [1].
Proof.
  induction k as [|k IH]; [done|].
  change (countdown (S (S k))) with (S (S k) :: countdown (S k)).
  rewrite IH at 1. done.
Qed.

Lemma elem_of_countdown i k : i ∈ countdown k <-> 1 <= i <= k.
Proof.
  induction k as [|k IH]; simpl.
  - rewrite elem_of_nil. lia.
  - rewrite elem_of_cons, IH. lia.
Qed.

Lemma run_length_le p s : run_length p s <= length s.
Proof. induction s as [|x s IH]; simpl; [lia|]. destruct (p x); simpl; lia. Qed.

Lemma run_length_take p s : Forall (fun x => p x = true) (take (run_length p s) s).
Proof.
  induction s as [|x s IH]; simpl; [constructor|].
  destruct (p x) eqn:E; simpl; by constructor.
Qed.

Lemma run_length_stop p s x t :
  drop (run_length p s) s = x :: t -> p x = false.
Proof.
  induction s as [|y s IH]; simpl; [done|].
  destruct (p y) eqn:E; simpl; [done|]. by intros [= -> _].
Qed.

Lemma run_length_inside p s i :
  i < run_length p s -> exists x t, drop i s = x :: t /\ p x = true.
Proof.
  revert i. induction s as [|y s IH]; intros i; simpl; [lia|].
  destruct (p y) eqn:E; [|lia]. destruct i as [|i]; [by eauto|].
  intros H. apply IH. lia.
Qed.

Lemma run_length_all p a b :
  Forall (fun x => p x = true) a -> run_length p (a ++ b) = length a + run_length p b.
Proof. induction 1 as [|x a Hx _ IH]; simpl; [done|]. by rewrite Hx, IH. Qed.

Lemma run_length_app_stop p a y b :
  p y = false -> run_length p (a ++ y :: b) = run_length p a.
Proof.
  intros Hy. induction a as [|x a IH]; simpl; [by rewrite Hy|].
  destruct (p x); by rewrite ?IH.
Qed.

Lemma adv_0 c : adv c 0 = c.
Proof. by destruct c. Qed.

Lemma adv_S c x s i :
  rest c = x :: s -> adv c (S i) = adv (Cfg (Some x) s (grp1 c)) i.
Proof.
  intros E. unfold adv. rewrite E. simpl. rewrite last_cons.
  by destruct (last (take i s)).
Qed.

Lemma rest_adv c i : rest (adv c i) = drop i (rest c).
Proof. done. Qed.

(** The equations of [run]. *)
Lemma run_Chr a c :
  run tbl (Chr a) c =
    match rest c with
    | x :: s => if (x =? a)%N then [Cfg (Some x) s (grp1 c)] else []
    | [] => []
    end.
Proof. done. Qed.

Lemma run_Cls p c :
  run tbl (Cls p) c =
    match rest c with
    | x :: s => if p x then [Cfg (Some x) s (grp1 c)] else []
    | [] => []
    end.
Proof. done. Qed.

Lemma run_Seq r1 r2 c :
  run tbl (Seq r1 r2) c = flat_map (run tbl r2) (run tbl r1 c).
Proof. done. Qed.

Lemma run_Alt r1 r2 c : run tbl (Alt r1 r2) c = run tbl r1 c ++ run tbl r2 c.
Proof. done. Qed.

Lemma run_Star r c :
  run tbl (Star r) c = repeat_greedy (run tbl r) (length (rest c)) c.
Proof. done. Qed.

Lemma run_Plus r c :
  run tbl (Plus r) c =
    flat_map (fun c' => repeat_greedy (run tbl r) (length (rest c')) c')
             (run tbl r c).
Proof. done. Qed.

Lemma run_Grp r c :
  run tbl (Grp r) c =
    map (fun c' => Cfg (prev c') (rest c') (Some (consumed c c'))) (run tbl r c).
Proof. done. Qed.

Lemma run_Bol c :
  run tbl Bol c = match prev c with None => [c] | Some _ => [] end.
Proof. done. Qed.

Lemma run_Wordb c :
  run tbl Wordb c =
    if xorb (word_at tbl (prev c)) (word_at tbl (head (rest c))) then [c] else [].
Proof. done. Qed.

Lemma repeat_greedy_S step n c :
  repeat_greedy step (S n) c =
    flat_map (fun c' => if length (rest c') <? length (rest c)
                        then repeat_greedy step n c' else [])
             (step c) ++ [c].
Proof. done. Qed.

(** A literal matches in one way, on the text that starts with it. *)
Lemma run_LitS l c :
  run tbl (LitS l) c = if startswith l (rest c) then [adv c (length l)] else [].
Proof.
  revert c. induction l as [|a l IH]; intros c.
  - simpl. by rewrite adv_0.
  - change (LitS (a :: l)) with (Seq (Chr a) (LitS l)).
    rewrite run_Seq, run_Chr. destruct (rest c) as [|x s] eqn:E; [done|].
    cbn [startswith]. rewrite (N.eqb_sym a x).
    destruct (x =? a)%N; [|done]. cbn [flat_map andb].
    rewrite IH, app_nil_r. cbn [rest].
    destruct (startswith l s); [|done].
    cbn [length]. by rewrite (adv_S c x s (length l) E).
Qed.

(** Greedy repetition of a character class: every length from the longest
    run down, then none. *)
Lemma repeat_greedy_cls p n c :
  length (rest c) <= n ->
  repeat_greedy (run tbl (Cls p)) n c
  = map (adv c) (countdown (run_length p (rest c))) ++ [c].
Proof.
  revert c. induction n as [|n IH]; intros c Hn.
  - destruct (rest c) eqn:E; [|simpl in Hn; lia]. done.
  - rewrite repeat_greedy_S, run_Cls.
    destruct (rest c) as [|x s] eqn:E; [done|].
    cbn [run_length]. destruct (p x); [|done].
    cbn [flat_map rest length]. rewrite app_nil_r.
    replace (length s <? S (length s)) with true
      by (symmetry; apply Nat.ltb_lt; lia).
    rewrite IH by (simpl in *; lia). cbn [rest grp1].
    rewrite countdown_snoc, map_app, map_map. cbn [map].
    rewrite <- !app_assoc. f_equal.
    + apply map_ext. intros i. symmetry. by apply adv_S.
    + cbn [app]. f_equal. rewrite (adv_S c x s 0 E). by rewrite adv_0.
Qed.

Lemma run_star_cls p c :
  run tbl (Star (Cls p)) c = map (adv c) (countdown (run_length p (rest c))) ++ [c].
Proof. rewrite run_Star. by apply repeat_greedy_cls. Qed.

Lemma run_plus_cls p c :
  run tbl (Plus (Cls p)) c = map (adv c) (countdown (run_length p (rest c))).
Proof.
  rewrite run_Plus, run_Cls. destruct (rest c) as [|x s] eqn:E; [done|].
  cbn [run_length]. destruct (p x); [|done].
  cbn [flat_map]. rewrite app_nil_r, repeat_greedy_cls by done.
  cbn [rest]. rewrite countdown_snoc, map_app, map_map. cbn [map]. f_equal.
  + apply map_ext. intros i. symmetry. by apply adv_S.
  + rewrite (adv_S c x s 0 E). by rewrite adv_0.
Qed.

Lemma flat_map_nil {A B} (f : A -> list B) l :
  (forall x, x ∈ l -> f x = []) -> flat_map f l = [].
Proof.
  induction l as [|x l IH]; [done|]. intros H. simpl.
  rewrite (H x) by left. apply IH. intros y Hy. apply H. by right.
Qed.

(** *** The matcher and the language of a pattern *)

Lemma repeat_greedy_fuel step n m c :
  length (rest c) <= n -> length (rest c) <= m ->
  repeat_greedy step n c = repeat_greedy step m c.
Proof.
  revert m c. induction n as [|n IH]; intros [|m] c Hn Hm.
  - done.
  - rewrite repeat_greedy_S. cbn [repeat_greedy].
    rewrite flat_map_nil; [done|]. intros c1 _.
    destruct (Nat.ltb_spec (length (rest c1)) (length (rest c))); [lia|done].
  - rewrite repeat_greedy_S. cbn [repeat_greedy].
    rewrite flat_map_nil; [done|]. intros c1 _.
    destruct (Nat.ltb_spec (length (rest c1)) (length (rest c))); [lia|done].
  - rewrite !repeat_greedy_S. f_equal. apply flat_map_ext. intros c1.
    destruct (Nat.ltb_spec (length (rest c1)) (length (rest c))); [|done].
    apply IH; lia.
Qed.

(** Every match of a pattern without anchors consumes a text of its
    language. *)
Lemma run_sound r c c' :
  anchor_free r = true -> In c' (run tbl r c) ->
  exists a, lang r a /\ rest c = a ++ rest c'.
Proof.
  revert c c'. induction r as [|x|p|r1 IH1 r2 IH2|r1 IH1 r2 IH2|r IH|r IH|r IH| | |];
    intros c c' Hfree; try done.
  - intros [<-|[]]. by exists [].
  - rewrite run_Chr. destruct (rest c) as [|y s] eqn:E; [done|].
    destruct (N.eqb_spec y x) as [->|]; [|done]. intros [<-|[]]. by exists [x].
  - rewrite run_Cls. destruct (rest c) as [|y s] eqn:E; [done|].
    destruct (p y) eqn:Hp; [|done]. intros [<-|[]]. exists [y].
    split; [by exists y|done].
  - cbn in Hfree. apply andb_true_iff in Hfree as [H1 H2].
    rewrite run_Seq, in_flat_map. intros (c1 & Hc1 & Hc').
    destruct (IH1 _ _ H1 Hc1) as (a1 & La1 & E1).
    destruct (IH2 _ _ H2 Hc') as (a2 & La2 & E2).
    exists (a1 ++ a2). split; [by exists a1, a2|].
    by rewrite E1, E2, app_assoc.
  - cbn in Hfree. apply andb_true_iff in Hfree as [H1 H2].
    rewrite run_Alt, in_app_iff. intros [H|H].
    + destruct (IH1 _ _ H1 H) as (a & La & E). exists a. split; [by left|done].
    + destruct (IH2 _ _ H2 H) as (a & La & E). exists a. split; [by right|done].
  - cbn in Hfree. rewrite run_Star. generalize (length (rest c)) as n.
    intros n. revert c. induction n as [|n IHn]; intros c.
    + intros [<-|[]]. exists []. split; [by exists []|done].
    + rewrite repeat_greedy_S, in_app_iff, in_flat_map.
      intros [(c1 & Hc1 & Hc')|[<-|[]]].
      * destruct (Nat.ltb_spec (length (rest c1)) (length (rest c))) as [Hlt|];
          [|done].
        destruct (IH _ _ Hfree Hc1) as (a1 & La1 & E1).
        destruct (IHn _ Hc') as (a2 & (rounds & -> & Hr) & E2).
        exists (a1 ++ concat rounds). split; [|by rewrite E1, E2, app_assoc].
        exists (a1 :: rounds). split; [done|]. constructor; [|done].
        split; [|done]. intros ->. rewrite E1 in Hlt. simpl in Hlt. lia.
      * exists []. split; [by exists []|done].
  - cbn in Hfree. rewrite run_Plus, in_flat_map. intros (c1 & Hc1 & Hc').
    destruct (IH _ _ Hfree Hc1) as (a1 & La1 & E1).
    assert (exists a2, lang (Star r) a2 /\ rest c1 = a2 ++ rest c')
      as (a2 & (rounds & -> & Hr) & E2).
    { revert Hc'. generalize (length (rest c1)) as n. clear Hc1 E1.
      intros n. revert c1. induction n as [|n IHn]; intros c1.
      - intros [<-|[]]. exists []. split; [by exists []|done].
      - rewrite repeat_greedy_S, in_app_iff, in_flat_map.
        intros [(c2 & Hc2 & Hc')|[<-|[]]].
        + destruct (Nat.ltb_spec (length (rest c2)) (length (rest c1))) as [Hlt|];
            [|done].
          destruct (IH _ _ Hfree Hc2) as (b1 & Lb1 & E1).
          destruct (IHn _ Hc') as (b2 & (rounds & -> & Hr) & E2).
          exists (b1 ++ concat rounds). split; [|by rewrite E1, E2, app_assoc].
          exists (b1 :: rounds). split; [done|]. constructor; [|done].
          split; [|done]. intros ->. rewrite E1 in Hlt. simpl in Hlt. lia.
        + exists []. split; [by exists []|done]. }
    exists (a1 ++ concat rounds). split; [by exists a1, rounds|].
    by rewrite E1, E2, app_assoc.
  - cbn in Hfree. rewrite run_Grp, in_map_iff. intros (c1 & <- & Hc1).
    destruct (IH _ _ Hfree Hc1) as (a & La & E). by exists a.
Qed.

(** Every text of the language that starts the subject is matched. *)
Lemma run_rounds r c rounds t :
  (forall a, lang r a -> forall c t, rest c = a ++ t ->
             exists c', In c' (run tbl r c) /\ rest c' = t) ->
  Forall (fun x => x <> [] /\ lang r x) rounds ->
  rest c = concat rounds ++ t ->
  exists c', In c' (repeat_greedy (run tbl r) (length (rest c)) c) /\ rest c' = t.
Proof.
  intros IH Hr. revert c. induction Hr as [|a rounds [Ha La] _ IHr]; intros c E.
  - exists c. split; [|done]. destruct (length (rest c)); [by left|].
    rewrite repeat_greedy_S, in_app_iff. right. by left.
  - cbn [concat] in E. rewrite <- app_assoc in E.
    destruct (IH _ La _ _ E) as (c1 & Hc1 & E1).
    destruct (IHr _ E1) as (c' & Hc' & E').
    exists c'. split; [|done].
    assert (length (rest c1) < length (rest c)) as Hlt.
    { rewrite E, E1, !length_app. destruct a; [done|]. simpl. lia. }
    destruct (length (rest c)) as [|n] eqn:En; [lia|].
    rewrite repeat_greedy_S, in_app_iff, in_flat_map. left.
    exists c1. split; [done|].
    destruct (Nat.ltb_spec (length (rest c1)) (length (rest c))); [|lia].
    by rewrite (repeat_greedy_fuel _ n (length (rest c1))) by lia.
Qed.

Lemma run_complete r a :
  lang r a -> forall c t, rest c = a ++ t ->
  exists c', In c' (run tbl r c) /\ rest c' = t.
Proof.
  revert a. induction r as [|x|p|r1 IH1 r2 IH2|r1 IH1 r2 IH2|r IH|r IH|r IH| | |];
    intros a La c t E; try done.
  - cbn in La. subst a. exists c. split; [by left|done].
  - cbn in La. subst a. rewrite run_Chr, E. cbn [app].
    rewrite N.eqb_refl. eexists. split; [by left|done].
  - destruct La as (x & -> & Hx). rewrite run_Cls, E. cbn [app].
    rewrite Hx. eexists. split; [by left|done].
  - destruct La as (a1 & a2 & -> & L1 & L2). rewrite <- app_assoc in E.
    destruct (IH1 _ L1 _ _ E) as (c1 & Hc1 & E1).
    destruct (IH2 _ L2 _ _ E1) as (c' & Hc' & E').
    exists c'. split; [|done]. rewrite run_Seq, in_flat_map. by exists c1.
  - rewrite run_Alt. destruct La as [L|L].
    + destruct (IH1 _ L _ _ E) as (c' & Hc' & E'). exists c'.
      split; [|done]. apply in_app_iff. by left.
    + destruct (IH2 _ L _ _ E) as (c' & Hc' & E'). exists c'.
      split; [|done]. apply in_app_iff. by right.
  - destruct La as (rounds & -> & Hr). rewrite run_Star.
    by apply (run_rounds r c rounds t IH).
  - destruct La as (a1 & rounds & -> & L1 & Hr). rewrite <- app_assoc in E.
    destruct (IH _ L1 _ _ E) as (c1 & Hc1 & E1).
    destruct (run_rounds r c1 rounds t IH Hr E1) as (c' & Hc' & E').
    exists c'. split; [|done]. rewrite run_Plus, in_flat_map. by exists c1.
  - cbn in La. destruct (IH _ La _ _ E) as (c1 & Hc1 & E1).
    eexists. split; [rewrite run_Grp; apply in_map_iff; by eexists|done].
Qed.

(** A pattern without anchors matches at the cursor exactly when a text
    of its language starts there. *)
Lemma match_at_lang r p s :
  anchor_free r = true ->
  (exists c', match_at tbl r p s = Some c') <->
  (exists a t, s = a ++ t /\ lang r a).
Proof.
  intros Hfree. unfold match_at. split.
  - intros [c' Hc']. destruct (run tbl r _) as [|c1 l] eqn:E; [done|].
    injection Hc' as ->.
    destruct (run_sound r (Cfg p s None) c' Hfree) as (a & La & Ea).
    { rewrite E. by left. }
    by exists a, (rest c').
  - intros (a & t & -> & La).
    destruct (run_complete r a La (Cfg p (a ++ t) None) t eq_refl)
      as (c' & Hc' & _).
    destruct (run tbl r _) as [|c1 l]; [done|]. by exists c1.
Qed.

(** A pattern that starts with [^] matches at the start of the subject
    only. *)
Lemma search_from_Bol_later body x s :
  search_from tbl (Seq Bol body) (Some x) s = None.
Proof.
  revert x. induction s as [|y s IH]; intros x; cbn [search_from];
    unfold match_at; rewrite run_Seq, run_Bol; cbn [prev flat_map head]; [done|].
  by rewrite IH.
Qed.

Lemma re_found_Bol body line :
  anchor_free body = true ->
  re_found tbl (Seq Bol body) line = true <->
  (exists a t, line = a ++ t /\ lang body a).
Proof.
  intros Hfree. rewrite <- (match_at_lang body None line Hfree).
  unfold re_found, re_search.
  assert (match_at tbl (Seq Bol body) None line = match_at tbl body None line)
    as Hstart.
  { unfold match_at. rewrite run_Seq, run_Bol. cbn [prev flat_map].
    by rewrite app_nil_r. }
  destruct line as [|x line]; cbn [search_from]; rewrite Hstart;
    destruct (match_at tbl body None _) as [c'|]; try rewrite search_from_Bol_later;
    split; try done; try (by intros [? [=]]); by eauto.
Qed.

(** The languages of the pieces the patterns are made of. *)
Lemma lang_LitS l a : lang (LitS l) a <-> a = l.
Proof.
  revert a. induction l as [|x l IH]; intros a; [done|].
  change (LitS (x :: l)) with (Seq (Chr x) (LitS l)). cbn [lang]. split.
  - intros (a1 & a2 & -> & -> & ->%IH). done.
  - intros ->. exists [x], l. by rewrite IH.
Qed.

Lemma lang_rounds_cls p rounds :
  Forall (fun x => x <> [] /\ lang (Cls p) x) rounds ->
  Forall (fun x => p x = true) (concat rounds).
Proof.
  induction 1 as [|a rounds [_ (x & -> & Hx)] _ IH]; [constructor|].
  by constructor.
Qed.

Lemma lang_cls_rounds p a :
  Forall (fun x => p x = true) a ->
  exists rounds, a = concat rounds /\
    Forall (fun x => x <> [] /\ lang (Cls p) x) rounds.
Proof.
  induction 1 as [|x a Hx _ (rounds & -> & Hr)]; [by exists []|].
  exists ([x] :: rounds). split; [done|]. constructor; [|done].
  split; [done|]. by exists x.
Qed.

Lemma lang_Star_Cls p a : lang (Star (Cls p)) a <-> Forall (fun x => p x = true) a.
Proof.
  cbn [lang]. split.
  - intros (rounds & -> & Hr). by apply lang_rounds_cls.
  - apply lang_cls_rounds.
Qed.

Lemma lang_Plus_Cls p a :
  lang (Plus (Cls p)) a <-> a <> [] /\ Forall (fun x => p x = true) a.
Proof.
  cbn [lang]. split.
  - intros (a1 & rounds & -> & (x & -> & Hx) & Hr). split; [done|].
    constructor; [done|]. by apply lang_rounds_cls.
  - intros [Ha Hall]. destruct Hall as [|x a Hx Hall]; [done|].
    destruct (lang_cls_rounds p a Hall) as (rounds & -> & Hr).
    exists [x], rounds. repeat split; [|done]. by exists x.
Qed.

Lemma consumed_adv c i : i <= length (rest c) -> consumed c (adv c i) = take i (rest c).
Proof.
  intros Hi. unfold consumed. rewrite rest_adv, length_drop.
  f_equal. lia.
Qed.

End MatcherFacts.

(** ** The call wrapper *)

Section SpacePrefixed.

Variable tbl : char -> bool.

(** The literal of the pattern and the text put in its place. *)
Variables (name new : str).
Hypothesis name_nospace : Forall (fun x => is_space x = false) name.
Hypothesis name_nonempty : name <> [].

Lemma name_nonspace : starts_nonspace name = true.
Proof.
  destruct name_nospace as [|a nm Ha _]; [done|]. simpl. by rewrite Ha.
Qed.

Local Abbreviation R := (space_prefixed name).
Local Abbreviation T := [RGroup1; RText new].

Lemma space_prefixed_at_Some s k :
  space_prefixed_at name s = Some k ->
  k = run_length is_space s /\ 0 < k /\ startswith name (drop k s) = true /\
  k + length name <= length s.
Proof.
  unfold space_prefixed_at.
  destruct (0 <? run_length is_space s) eqn:Hk; [|done].
  destruct (startswith name (drop (run_length is_space s) s)) eqn:Hs; [|done].
  intros [= <-]. apply Nat.ltb_lt in Hk. repeat split; try done.
  apply startswith_prefix in Hs. apply (f_equal length) in Hs.
  pose proof (run_length_le is_space s).
  rewrite length_app, !length_drop in Hs. lia.
Qed.

(** The pattern matches in at most the one way [space_prefixed_at] says,
    whatever precedes the cursor. *)
Lemma match_at_space_prefixed p s :
  match_at tbl R p s =
    match space_prefixed_at name s with
    | Some k =>
        Some (Cfg (prev (adv (adv (Cfg p s None) k) (length name)))
                  (drop (k + length name) s) (Some (take k s)))
    | None => None
    end.
Proof.
  unfold match_at, space_prefixed, space_prefixed_at.
  rewrite run_Seq, run_Grp, run_plus_cls. cbn [rest].
  pose proof (run_length_le is_space s) as Hle.
  destruct (run_length is_space s) as [|k] eqn:Hk; [done|].
  cbn [countdown map flat_map].
  rewrite (flat_map_nil (run tbl (LitS name))).
  - rewrite app_nil_r, run_LitS. cbn [rest adv Nat.ltb Nat.leb andb].
    destruct (startswith name (drop (S k) s)); [|done]. cbn [head].
    rewrite consumed_adv by (cbn [rest]; lia). cbn [rest].
    unfold adv. cbn [rest prev grp1]. by rewrite drop_drop.
  - intros c' (c1 & -> & (i & -> & Hi%elem_of_countdown)%list_elem_of_fmap)%list_elem_of_fmap.
    rewrite run_LitS. cbn [rest adv].
    destruct (run_length_inside is_space s i) as (x & t & -> & Hx); [lia|].
    pose proof name_nonspace as Hns.
    destruct name as [|a name']; [done|]. cbn [starts_nonspace] in Hns.
    cbn [startswith]. destruct (N.eqb_spec a x) as [->|]; [|done].
    by rewrite Hx in Hns.
Qed.

Lemma sub_loop_space_prefixed n n' p p' s :
  length s < n -> length s < n' ->
  sub_loop tbl n R T p s = sub_loop tbl n' R T p' s.
Proof.
  revert n' p p' s. induction n as [|n IH]; intros [|n'] p p' s Hn Hn'; try lia.
  cbn [sub_loop]. rewrite !match_at_space_prefixed.
  destruct (space_prefixed_at name s) as [k|] eqn:Hm.
  - apply space_prefixed_at_Some in Hm as (_ & Hk & _ & Hlen).
    cbn [rest prev]. rewrite length_drop.
    replace (length s - (k + length name) <? length s) with true
      by (symmetry; apply Nat.ltb_lt; lia).
    f_equal. apply IH; rewrite length_drop; lia.
  - destruct s as [|x s]; [done|]. f_equal. apply IH; simpl in *; lia.
Qed.

(** The substitution, one step at a time. *)
Lemma re_sub_space_prefixed s :
  re_sub tbl R T s =
    match space_prefixed_at name s with
    | Some k => take k s ++ new ++ re_sub tbl R T (drop (k + length name) s)
    | None =>
        match s with
        | [] => []
        | x :: s' => x :: re_sub tbl R T s'
        end
    end.
Proof.
  unfold re_sub at 1. cbn [sub_loop]. rewrite match_at_space_prefixed.
  destruct (space_prefixed_at name s) as [k|] eqn:Hm.
  - apply space_prefixed_at_Some in Hm as (_ & Hk & _ & Hlen).
    cbn [rest prev grp1]. rewrite length_drop.
    replace (length s - (k + length name) <? length s) with true
      by (symmetry; apply Nat.ltb_lt; lia).
    unfold expand. cbn [flat_map grp1 default]. rewrite app_nil_r, <- app_assoc.
    do 2 f_equal. apply sub_loop_space_prefixed; rewrite length_drop; lia.
  - by destruct s as [|x s].
Qed.

Local Abbreviation wrap := (re_sub tbl R T).

Lemma startswith_app_l p c b : startswith p c = true -> startswith p (c ++ b) = true.
Proof. intros [t ->]%startswith_iff. rewrite <- app_assoc. apply startswith_app. Qed.

Lemma startswith_app_inv p c b :
  startswith p (c ++ b) = true ->
  startswith p c = true \/
  (length c < length p /\ startswith (drop (length c) p) b = true).
Proof.
  revert c. induction p as [|a p IH]; intros c; [by left|].
  destruct c as [|x c]; [intros H; right; simpl; split; [lia|done]|].
  cbn [app startswith]. intros [Hax H]%andb_true_iff. rewrite Hax.
  destruct (IH c H) as [Hl|[Hlen Hr]]; [by left|right].
  simpl. split; [lia|done].
Qed.

Lemma no_straddle_spec b j :
  no_straddle name b = true -> 1 <= j < length name ->
  startswith (drop j name) b = false.
Proof.
  unfold no_straddle. rewrite forallb_forall. intros H Hj.
  apply negb_true_iff, H, in_seq. lia.
Qed.

Lemma ends_nonspace_drop a i :
  ends_nonspace a = true -> ends_nonspace (drop i a) = true.
Proof.
  unfold ends_nonspace. destruct (decide (i < length a)) as [Hi|Hi].
  - rewrite !last_lookup, lookup_drop, length_drop.
    by replace (i + Nat.pred (length a - i)) with (Nat.pred (length a)) by lia.
  - by rewrite drop_ge by lia.
Qed.

Lemma ends_nonspace_all_space a :
  a <> [] -> Forall (fun x => is_space x = true) a -> ends_nonspace a = false.
Proof.
  intros Ha Hall. unfold ends_nonspace.
  destruct (last a) as [z|] eqn:Hl; [|by apply last_None in Hl].
  apply last_Some in Hl as [a' ->]. apply Forall_app in Hall as [_ Hz].
  apply Forall_cons in Hz as [Hz _]. by rewrite Hz.
Qed.

Lemma starts_nonspace_run b : starts_nonspace b = true -> run_length is_space b = 0.
Proof. destruct b as [|y b]; [done|]. simpl. by destruct (is_space y). Qed.

(** A cut between [a] and [b] that no match crosses: the matches found in
    [a ++ b] from inside [a] are those found in [a] alone. *)
Lemma space_prefixed_at_cut a b :
  a <> [] ->
  no_straddle name b = true ->
  ends_nonspace a = true \/ startswith name b = false ->
  starts_nonspace b = true \/ ends_nonspace a = true ->
  space_prefixed_at name (a ++ b) = space_prefixed_at name a.
Proof.
  intros Ha HA HB HC. unfold space_prefixed_at.
  pose proof (run_length_le is_space a) as Hle.
  pose proof (run_length_take is_space a) as Hall.
  destruct (decide (run_length is_space a = length a)) as [Hk|Hk].
  - rewrite Hk, firstn_all in Hall.
    pose proof (ends_nonspace_all_space a Ha Hall) as He.
    destruct HB as [HB|HB]; [congruence|].
    destruct HC as [HC|HC]; [|congruence].
    rewrite run_length_all, starts_nonspace_run, Nat.add_0_r by done.
    rewrite Hk, drop_app_length, HB, drop_all.
    destruct name; [done|]. by rewrite !andb_false_r.
  - set (k := run_length is_space a) in *.
    destruct (drop k a) as [|x t] eqn:Hd.
    { apply (f_equal length) in Hd. rewrite length_drop in Hd. simpl in Hd. lia. }
    pose proof (run_length_stop _ _ _ _ Hd) as Hx.
    assert (run_length is_space (a ++ b) = k) as ->.
    { rewrite <- (take_drop k a) at 1. rewrite Hd, <- app_assoc.
      rewrite run_length_all by done. cbn [app run_length]. rewrite Hx.
      rewrite length_take. lia. }
    rewrite drop_app_le by lia. rewrite Hd. f_equal.
    destruct (0 <? k); [|done]. cbn [andb].
    destruct (startswith name ((x :: t) ++ b)) eqn:E1.
    + apply startswith_app_inv in E1 as [->|[Hlen E1]]; [done|].
      rewrite no_straddle_spec in E1; [done..|]. simpl in *. lia.
    + destruct (startswith name (x :: t)) eqn:E2; [|done].
      by rewrite (startswith_app_l _ _ b E2) in E1.
Qed.

Lemma wrap_cut a b :
  no_straddle name b = true ->
  ends_nonspace a = true \/ startswith name b = false ->
  starts_nonspace b = true \/ ends_nonspace a = true ->
  wrap (a ++ b) = wrap a ++ wrap b.
Proof.
  intros HA HB HC.
  remember (length a) as n eqn:Hn. revert a Hn HB HC.
  induction (lt_wf n) as [n _ IH]. intros a -> HB HC.
  destruct a as [|x a]; [done|].
  assert (forall i, 0 < i -> wrap (drop i (x :: a) ++ b)
                             = wrap (drop i (x :: a)) ++ wrap b) as Hnext.
  { intros i Hi. eapply IH; [|done| |].
    - rewrite length_drop. simpl. lia.
    - destruct HB as [HB|HB]; [left; by apply ends_nonspace_drop|by right].
    - destruct HC as [HC|HC]; [by left|right; by apply ends_nonspace_drop]. }
  rewrite (re_sub_space_prefixed ((x :: a) ++ b)).
  rewrite (re_sub_space_prefixed (x :: a)).
  rewrite space_prefixed_at_cut by done.
  destruct (space_prefixed_at name (x :: a)) as [k|] eqn:Hm.
  - apply space_prefixed_at_Some in Hm as (_ & Hk & _ & Hlen).
    rewrite take_app_le, drop_app_le by lia.
    rewrite Hnext by lia. by rewrite <- !app_assoc.
  - cbn [app]. f_equal. apply (Hnext 1). lia.
Qed.


Lemma wrap_nonspace x s : is_space x = false -> wrap (x :: s) = x :: wrap s.
Proof.
  intros Hx. rewrite (re_sub_space_prefixed (x :: s)).
  unfold space_prefixed_at. cbn [run_length]. by rewrite Hx.
Qed.

(** Text without spaces is copied. *)
Lemma wrap_nonspaces a b :
  Forall (fun x => is_space x = false) a -> wrap (a ++ b) = a ++ wrap b.
Proof.
  induction 1 as [|x a Hx _ IH]; [done|].
  cbn [app]. by rewrite wrap_nonspace, IH.
Qed.

(** A run of spaces before the literal is kept, and the literal replaced. *)
Lemma wrap_spaces_name r post :
  r <> [] -> Forall (fun x => is_space x = true) r ->
  wrap (r ++ name ++ post) = r ++ new ++ wrap post.
Proof.
  intros Hr Hall.
  rewrite (re_sub_space_prefixed (r ++ name ++ post)).
  unfold space_prefixed_at.
  rewrite run_length_all by done.
  assert (run_length is_space (name ++ post) = 0) as ->.
  { pose proof name_nonspace as Hns.
    destruct name as [|a nm]; [done|]. cbn in Hns |- *.
    by destruct (is_space a). }
  rewrite Nat.add_0_r, drop_app_length, startswith_app.
  destruct r as [|x r]; [done|]. cbn [length Nat.ltb Nat.leb andb].
  change (S (length r)) with (length (x :: r)).
  rewrite take_app_length.
  rewrite <- drop_drop, drop_app_length, drop_app_length. done.
Qed.

(** Spaces at the end of the text are copied. *)
Lemma wrap_spaces r : Forall (fun x => is_space x = true) r -> wrap r = r.
Proof.
  induction 1 as [|x r Hx Hall IH]; [done|].
  rewrite (re_sub_space_prefixed (x :: r)).
  unfold space_prefixed_at.
  assert (run_length is_space (x :: r) = length (x :: r)) as ->.
  { rewrite <- (app_nil_r (x :: r)) at 1.
    rewrite run_length_all by by constructor. simpl. lia. }
  rewrite drop_all.
  destruct name; [done|]. cbn [startswith]. rewrite andb_false_r.
  by rewrite IH.
Qed.

(** Every text is a part that does not end in a space, followed by a run
    of spaces. *)
Lemma trailing_spaces (l : str) :
  exists a r, l = a ++ r /\ ends_nonspace a = true /\
              Forall (fun x => is_space x = true) r.
Proof.
  induction l as [|z l IH] using rev_ind; [by exists [], []|].
  destruct (is_space z) eqn:Hz.
  - destruct IH as (a & r & -> & Ha & Hr). exists a, (r ++ [z]).
    rewrite app_assoc. repeat split; [done|].
    apply Forall_app. split; [done|]. by constructor.
  - exists (l ++ [z]), []. rewrite app_nil_r. repeat split; [|done].
    unfold ends_nonspace. by rewrite last_snoc, Hz.
Qed.

Lemma no_straddle_space w b :
  is_space w = true -> no_straddle name (w :: b) = true.
Proof.
  intros Hw. unfold no_straddle. apply forallb_forall. intros j Hj%in_seq.
  apply negb_true_iff.
  destruct (drop j name) as [|c t] eqn:Hd.
  { apply (f_equal length) in Hd. rewrite length_drop in Hd. simpl in Hd. lia. }
  cbn [startswith]. destruct (N.eqb_spec c w) as [->|]; [|done].
  assert (w ∈ name) as Hin.
  { rewrite <- (take_drop j name), Hd. apply elem_of_app. right. by left. }
  rewrite Forall_forall in name_nospace. apply name_nospace in Hin. congruence.
Qed.



(** A cut before text that starts no match and completes none. *)
Lemma wrap_inert a b :
  no_straddle name b = true -> startswith name b = false ->
  starts_nonspace b = true ->
  wrap (a ++ b) = wrap a ++ wrap b.
Proof. intros. apply wrap_cut; [done|by right|by left]. Qed.

(** A cut after text that does not end in a space. *)
Lemma wrap_after_nonspace a b :
  ends_nonspace a = true -> no_straddle name b = true ->
  wrap (a ++ b) = wrap a ++ wrap b.
Proof. intros. apply wrap_cut; [done|by left|by right]. Qed.


(** An occurrence of the literal right after a space is replaced, and the
    space before it kept. *)
Lemma wrap_after_space pre w post :
  is_space w = true ->
  wrap (pre ++ [w] ++ name ++ post) = wrap pre ++ [w] ++ new ++ wrap post.
Proof.
  intros Hw. destruct (trailing_spaces pre) as (a & r & -> & Ha & Hr).
  assert (Forall (fun x => is_space x = true) (r ++ [w])) as Hrw.
  { apply Forall_app. split; [done|]. by constructor. }
  replace ((a ++ r) ++ [w] ++ name ++ post)
    with (a ++ (r ++ [w]) ++ name ++ post) by by rewrite <- !app_assoc.
  rewrite (wrap_after_nonspace a); [|done|].
  - rewrite wrap_spaces_name by (done || by destruct r).
    destruct r as [|x r]; [by rewrite !app_nil_r|].
    rewrite (wrap_after_nonspace a (x :: r)), (wrap_spaces _ Hr);
      [by rewrite <- !app_assoc|done|].
    apply no_straddle_space. by apply Forall_cons in Hr as [? _].
  - destruct r as [|x r]; [by apply no_straddle_space|].
    apply no_straddle_space. by apply Forall_cons in Hr as [? _].
Qed.



End SpacePrefixed.

(** ** The block remover *)

Section RemoverFacts.

Import RemoveInstanceProps.

Variable tbl : char -> bool.

Local Abbreviation is_property := (is_property tbl).
Local Abbreviation is_assignment := (is_assignment tbl).
Local Abbreviation is_destroy_check := (is_destroy_check tbl).
Local Abbreviation quiet := (quiet tbl).
Local Abbreviation guard_fires := (guard_fires tbl).
Local Abbreviation scan := (scan tbl).
Local Abbreviation scan_all := (scan_all tbl).
Local Abbreviation remove_singleton_code := (remove_singleton_code tbl).
Local Abbreviation reference_scan := (reference_scan tbl).
Local Abbreviation reference_remove := (reference_remove tbl).
Local Abbreviation property_span_lines := (property_span_lines tbl).
Local Abbreviation guards_closed := (guards_closed tbl).

Lemma suffix_is_sublist {A} (l1 l2 : list A) :
  l1 `suffix_of` l2 -> l1 `sublist_of` l2.
Proof. intros [k ->]. by apply sublist_inserts_l. Qed.

(** *** The loop terminates within its fuel *)

Lemma skip_to_brace_suffix lines : skip_to_brace lines `suffix_of` lines.
Proof.
  induction lines as [|l ls IH]; simpl; [done|].
  destruct (contains CLOSING_BRACE l); [done|]. by apply suffix_cons_r.
Qed.

Lemma skip_to_brace_length lines : length (skip_to_brace lines) <= length lines.
Proof. apply suffix_length, skip_to_brace_suffix. Qed.

Lemma after_brace_length l ls :
  length (drop 1 (skip_to_brace (l :: ls))) <= length ls.
Proof.
  pose proof (skip_to_brace_length (l :: ls)) as H.
  rewrite length_drop. simpl in *. lia.
Qed.

Lemma scan_fuel n m lines s :
  length lines <= n -> length lines <= m -> scan n lines s = scan m lines s.
Proof.
  revert m lines s.
  induction n as [|n IH]; intros [|m] [|line rest] s Hn Hm;
    simpl in Hn, Hm; try lia; try reflexivity.
  pose proof (after_brace_length line rest) as Hb.
  cbn [RemoveInstanceProps.scan].
  rewrite (IH m rest (Some CLOSING_BRACE)) by lia.
  rewrite (IH m (drop 1 (skip_to_brace (line :: rest))) s) by lia.
  rewrite (IH m rest s) by lia.
  destruct (is_property line); [done|].
  destruct (is_awake_check line); [done|].
  destruct (is_assignment line); [done|].
  destruct (is_destroy_check line); [done|].
  destruct s as [[|c mark]|]; [done| |done].
  by rewrite (IH m rest _) by lia.
Qed.

(** One round of the loop, free of fuel. *)
Lemma scan_all_nil s : scan_all [] s = ([], false).
Proof. reflexivity. Qed.

Lemma scan_all_cons line rest s :
  scan_all (line :: rest) s =
    if is_property line then ((scan_all rest (Some CLOSING_BRACE)).1, true)
    else if is_awake_check line then
      ((scan_all (drop 1 (skip_to_brace (line :: rest))) s).1, true)
    else if is_assignment line then ((scan_all rest s).1, true)
    else if is_destroy_check line then
      ((scan_all (drop 1 (skip_to_brace (line :: rest))) s).1, true)
    else match s with
         | Some ((_ :: _) as mark) =>
             scan_all rest (if contains mark line then None else s)
         | _ => (line :: (scan_all rest s).1, (scan_all rest s).2)
         end.
Proof.
  unfold RemoveInstanceProps.scan_all.
  pose proof (after_brace_length line rest) as Hb.
  cbn [length RemoveInstanceProps.scan].
  rewrite (scan_fuel (length rest)
             (length (drop 1 (skip_to_brace (line :: rest))))
             (drop 1 (skip_to_brace (line :: rest))) s) by lia.
  destruct (is_property line); [done|].
  destruct (is_awake_check line); [done|].
  destruct (is_assignment line); [done|].
  destruct (is_destroy_check line); [done|].
  destruct s as [[|c mark]|]; [|done|].
  - by destruct (RemoveInstanceProps.scan _ _ rest _).
  - by destruct (RemoveInstanceProps.scan _ _ rest _).
Qed.

(** *** What the inner [while] does *)

Lemma skip_to_brace_none lines :
  Forall (fun l => has_brace l = false) lines -> skip_to_brace lines = [].
Proof.
  induction 1 as [|l ls Hl _ IH]; simpl; [done|].
  unfold has_brace in Hl. by rewrite Hl.
Qed.

Lemma skip_to_brace_found body closer after :
  Forall (fun l => has_brace l = false) body -> has_brace closer = true ->
  skip_to_brace (body ++ closer :: after) = closer :: after.
Proof.
  intros Hb Hc. induction Hb as [|l ls Hl _ IH]; simpl.
  - unfold has_brace in Hc. by rewrite Hc.
  - unfold has_brace in Hl. by rewrite Hl.
Qed.

Lemma skip_to_brace_app a b :
  existsb has_brace a = true ->
  skip_to_brace (a ++ b) = skip_to_brace a ++ b /\ skip_to_brace a <> [].
Proof.
  induction a as [|l a IH]; simpl; [done|].
  unfold has_brace at 1. destruct (contains CLOSING_BRACE l); simpl; [done|].
  apply IH.
Qed.

(** *** C10: lines are only ever deleted *)

Lemma scan_sublist n lines s : (scan n lines s).1 `sublist_of` lines.
Proof.
  revert lines s. induction n as [|n IH]; intros [|line rest] s;
    cbn [RemoveInstanceProps.scan]; try apply sublist_nil_l.
  assert (forall s', (scan n (drop 1 (skip_to_brace (line :: rest))) s').1
                     `sublist_of` line :: rest) as Hjump.
  { intros s'. etrans; [apply IH|].
    etrans; [apply sublist_drop|].
    apply suffix_is_sublist, skip_to_brace_suffix. }
  destruct (is_property line); [apply sublist_cons, IH|].
  destruct (is_awake_check line); [apply Hjump|].
  destruct (is_assignment line); [apply sublist_cons, IH|].
  destruct (is_destroy_check line); [apply Hjump|].
  destruct s as [[|c mark]|].
  - specialize (IH rest (Some [])).
    destruct (RemoveInstanceProps.scan _ _ rest _); simpl in *.
    by apply sublist_skip.
  - apply sublist_cons, IH.
  - specialize (IH rest None).
    destruct (RemoveInstanceProps.scan _ _ rest _); simpl in *.
    by apply sublist_skip.
Qed.

(** C10.  Whatever the file and the class name, the lines the file holds
    after [remove_singleton_code] form a subsequence of the lines it held
    before: every surviving line is an input line, verbatim, in the
    original order; the pass deletes whole lines and does nothing else. *)
Theorem remove_singleton_code_sublist file classname :
  (remove_singleton_code file classname).1 `sublist_of` file.
Proof.
  unfold RemoveInstanceProps.remove_singleton_code, RemoveInstanceProps.scan_all.
  pose proof (scan_sublist (length file) file None) as H.
  destruct (RemoveInstanceProps.scan _ _ file _) as [new_lines [|]]; simpl in *; done.
Qed.


(** *** C1: a property block without a closing marker *)

Lemma scan_all_no_brace rest :
  Forall (fun l => has_brace l = false) rest ->
  (scan_all rest (Some CLOSING_BRACE)).1 = [].
Proof.
  intros Hrest. induction Hrest as [|l ls Hl Hls IH]; [done|].
  rewrite scan_all_cons.
  rewrite (skip_to_brace_none (l :: ls)) by by constructor.
  rewrite scan_all_nil. unfold has_brace in Hl.
  destruct (is_property l); [done|].
  destruct (is_awake_check l); [done|].
  destruct (is_assignment l); [done|].
  destruct (is_destroy_check l); [done|].
  change (CLOSING_BRACE) with ([chr "}"] : str) at 1.
  cbv iota. change ([chr "}"] : str) with CLOSING_BRACE. by rewrite Hl.
Qed.

Lemma guards_closed_suffix pre pre' :
  pre' `suffix_of` pre -> guards_closed pre = true -> guards_closed pre' = true.
Proof.
  intros [k ->]. induction k as [|x k IH]; [done|].
  simpl. intros [_ H]%andb_true_iff. by apply IH.
Qed.

Lemma scan_all_before_unterminated pre opening rest s :
  guards_closed pre = true -> is_property opening = true ->
  Forall (fun l => has_brace l = false) rest ->
  scan_all (pre ++ opening :: rest) s = ((scan_all pre s).1, true).
Proof.
  intros Hpre Hop Hrest.
  remember (length pre) as n eqn:Hn. revert pre s Hn Hpre.
  induction (lt_wf n) as [n _ IH]. intros [|line pre] s -> Hpre.
  - simpl. rewrite scan_all_cons, Hop. by rewrite scan_all_no_brace.
  - assert (guards_closed pre = true) as Hpre'.
    { eapply guards_closed_suffix; [|done]. by apply suffix_cons_r. }
    assert (forall s', scan_all (pre ++ opening :: rest) s'
                       = ((scan_all pre s').1, true)) as Hnext.
    { intros s'. eapply IH; [|done..]. simpl. lia. }
    assert (is_awake_check line || is_destroy_check line = true ->
            (scan_all (drop 1 (skip_to_brace ((line :: pre) ++ opening :: rest))) s).1
            = (scan_all (drop 1 (skip_to_brace (line :: pre))) s).1) as Hjump.
    { intros Hg. pose proof Hpre as Hex.
      cbn [RemoveInstanceProps.guards_closed] in Hex.
      rewrite Hg in Hex. apply andb_true_iff in Hex as [Hex _].
      destruct (skip_to_brace_app (line :: pre) (opening :: rest) Hex)
        as [-> Hne].
      pose proof (skip_to_brace_suffix (line :: pre)) as Hsuf.
      pose proof (after_brace_length line pre) as Hlen.
      destruct (skip_to_brace (line :: pre)) as [|c after] eqn:Hskip; [done|].
      simpl in Hlen |- *. rewrite drop_0 in Hlen |- *.
      rewrite (IH (length after) ltac:(simpl; lia) after s eq_refl); [done|].
      eapply guards_closed_suffix; [|exact Hpre].
      etrans; [|exact Hsuf]. by apply suffix_cons_r. }
    change ((line :: pre) ++ opening :: rest)
      with (line :: (pre ++ opening :: rest)) in *.
    rewrite !scan_all_cons.
    destruct (is_property line); [by rewrite Hnext|].
    destruct (is_awake_check line) eqn:Haw; [by rewrite Hjump|].
    destruct (is_assignment line); [by rewrite Hnext|].
    destruct (is_destroy_check line) eqn:Hde; [by rewrite Hjump|].
    destruct s as [[|c mark]|]; by rewrite !Hnext.
Qed.

(** C1, as the code has it.  When the loop comes to a property opening
    line after which no line contains the closing marker, the match is not
    abandoned: the opening line and every line after it are dropped, the
    file is rewritten with the lines kept from before the opening line, and
    the pass reports a removal.  (Guard blocks before the opening line are
    taken to be closed before it, so that the loop does come to it.) *)
Theorem unterminated_property_block_drops_rest pre opening rest classname :
  guards_closed pre = true ->
  is_property opening = true ->
  Forall (fun l => has_brace l = false) rest ->
  remove_singleton_code (pre ++ opening :: rest) classname
  = ((scan_all pre None).1, true).
Proof.
  intros Hpre Hop Hrest. unfold RemoveInstanceProps.remove_singleton_code.
  by rewrite scan_all_before_unterminated.
Qed.


(** *** C4: the two guard rules skip alike *)

Lemma scan_all_guard line rest s :
  guard_fires line ->
  scan_all (line :: rest) s
  = ((scan_all (drop 1 (skip_to_brace (line :: rest))) s).1, true).
Proof.
  intros [Hp [Ha|(Ha & Has & Hd)]]; rewrite scan_all_cons, Hp, Ha; [done|].
  by rewrite Has, Hd.
Qed.

(** C4, as the code has it.  A guard block of either kind (the Awake check
    of rule 2, the OnDestroy check of rule 4) is skipped from the guard line
    through the first line, from the guard line on, that contains the
    closing marker, that line included; the loop resumes on the line right
    after the closing line, in the state it was in, and that line is not
    skipped by the rule.  Without a closing line the skip runs to the end of
    the file.  The two rules do not differ. *)
Theorem guard_block_skips_through_closing_line line rest s :
  guard_fires line ->
  (forall body closer after,
     line :: rest = body ++ closer :: after ->
     Forall (fun l => has_brace l = false) body ->
     has_brace closer = true ->
     scan_all (line :: rest) s = ((scan_all after s).1, true)) /\
  (Forall (fun l => has_brace l = false) (line :: rest) ->
   scan_all (line :: rest) s = ([], true)).
Proof.
  intros Hg. split.
  - intros body closer after Heq Hbody Hcloser.
    rewrite (scan_all_guard _ _ _ Hg), Heq.
    by rewrite skip_to_brace_found.
  - intros Hno. rewrite (scan_all_guard _ _ _ Hg).
    by rewrite skip_to_brace_none.
Qed.

(** *** C8: which lines the rules are tested on *)

Lemma reference_scan_in_span w lines :
  w <> Outside ->
  reference_scan w lines = reference_scan Outside (drop 1 (skip_to_brace lines)).
Proof.
  intros Hw. induction lines as [|l ls IH]; [by destruct w|].
  cbn [RemoveInstanceProps.skip_to_brace]. fold (has_brace l).
  destruct w; [done| |];
    cbn [RemoveInstanceProps.reference_scan]; unfold after_line;
    fold (has_brace l); destruct (has_brace l); simpl; by rewrite ?drop_0.
Qed.

Lemma property_span_after w lines :
  w = InGuard ->
  property_span_lines w lines
  = property_span_lines Outside (drop 1 (skip_to_brace lines)).
Proof.
  intros ->. induction lines as [|l ls IH]; [done|].
  cbn [RemoveInstanceProps.skip_to_brace RemoveInstanceProps.property_span_lines].
  unfold after_line. fold (has_brace l).
  destruct (has_brace l); simpl; by rewrite ?drop_0.
Qed.

(** Inside a property span whose lines are all quiet, the loop does what
    the specification's scan does. *)
Lemma scan_all_quiet_span rest :
  Forall (fun l => quiet l = true) (property_span_lines InProperty rest) ->
  scan_all rest (Some CLOSING_BRACE)
  = scan_all (drop 1 (skip_to_brace rest)) None /\
  Forall (fun l => quiet l = true)
         (property_span_lines Outside (drop 1 (skip_to_brace rest))).
Proof.
  induction rest as [|l ls IH]; [done|].
  cbn [RemoveInstanceProps.skip_to_brace RemoveInstanceProps.property_span_lines].
  unfold after_line. fold (has_brace l).
  intros [Hq Hqs]%Forall_cons.
  assert (scan_all (l :: ls) (Some CLOSING_BRACE)
          = scan_all ls (if has_brace l then None else Some CLOSING_BRACE))
    as ->.
  { rewrite scan_all_cons. unfold RemoveInstanceProps.quiet in Hq.
    destruct (is_property l); [done|]. destruct (is_awake_check l); [done|].
    destruct (is_assignment l); [done|]. by destruct (is_destroy_check l). }
  destruct (has_brace l); [done|]. by apply IH.
Qed.

Lemma scan_all_reference lines :
  Forall (fun l => quiet l = true) (property_span_lines Outside lines) ->
  scan_all lines None = reference_scan Outside lines.
Proof.
  remember (length lines) as n eqn:Hn. revert lines Hn.
  induction (lt_wf n) as [n _ IH]. intros [|line rest] -> Hq; [done|].
  pose proof (after_brace_length line rest) as Hlen.
  pose proof (skip_to_brace_length rest) as Hlen'.
  assert (Forall (fun l => quiet l = true)
            (property_span_lines Outside (drop 1 (skip_to_brace (line :: rest)))) ->
          scan_all (drop 1 (skip_to_brace (line :: rest))) None
          = reference_scan (after_line InGuard line) rest) as Hjump.
  { intros Hq'.
    rewrite (IH (length (drop 1 (skip_to_brace (line :: rest))))
               ltac:(cbn [length]; lia) _ eq_refl Hq').
    cbn [RemoveInstanceProps.skip_to_brace]. unfold after_line.
    fold (has_brace line). destruct (has_brace line); [done|].
    by rewrite (reference_scan_in_span InGuard). }
  assert (property_span_lines (after_line InGuard line) rest
          = property_span_lines Outside (drop 1 (skip_to_brace (line :: rest))))
    as Hspan.
  { cbn [RemoveInstanceProps.skip_to_brace]. unfold after_line.
    fold (has_brace line). destruct (has_brace line); [done|].
    by apply property_span_after. }
  rewrite scan_all_cons.
  cbn [RemoveInstanceProps.reference_scan RemoveInstanceProps.property_span_lines] in *.
  destruct (is_property line).
  - apply scan_all_quiet_span in Hq as [-> Hq].
    rewrite (IH (length (drop 1 (skip_to_brace rest)))
               ltac:(rewrite length_drop; cbn [length]; lia) _ eq_refl Hq).
    by rewrite (reference_scan_in_span InProperty).
  - destruct (is_awake_check line);
      [rewrite Hspan in Hq; by rewrite Hjump|].
    destruct (is_assignment line);
      [by rewrite (IH (length rest) ltac:(simpl; lia) _ eq_refl Hq)|].
    destruct (is_destroy_check line);
      [rewrite Hspan in Hq; by rewrite Hjump|].
    by rewrite (IH (length rest) ltac:(simpl; lia) _ eq_refl Hq).
Qed.

(** The specification's scan at a guard line: it resumes after the first
    line, from the guard line on, that contains the closing marker. *)
Lemma reference_scan_guard line rest :
  guard_fires line ->
  reference_scan Outside (line :: rest)
  = ((reference_scan Outside (drop 1 (skip_to_brace (line :: rest)))).1, true).
Proof.
  intros Hg.
  assert (reference_scan Outside (line :: rest)
          = ((reference_scan (after_line InGuard line) rest).1, true)) as ->.
  { destruct Hg as [Hp [Ha|(Ha & Has & Hd)]];
      cbn [RemoveInstanceProps.reference_scan]; rewrite Hp, Ha; [done|].
    by rewrite Has, Hd. }
  cbn [RemoveInstanceProps.skip_to_brace]. unfold after_line.
  fold (has_brace line). destruct (has_brace line); [done|].
  by rewrite (reference_scan_in_span InGuard).
Qed.

(** C8, as the code has it.  Rules 2 and 4: from a guard line the loop goes
    straight to the line after the first line that contains the closing
    marker, in whatever state it is in and whatever the lines in between
    are; none of them is tested against a rule, and the specification's scan
    (which, once a span is open, looks only for the closing marker) skips
    the same lines.  Rule 1: while [skip_until] is set the four rules are
    still tested on each line, before the closing marker is looked for.  A
    property line or an assignment line inside the span is deleted by its
    rule and leaves [skip_until] set, also when the line contains the
    closing marker, where the specification's scan leaves the span; only a
    line on which no rule fires closes the span.  So the output of the pass
    equals that of the specification's scan on every file in which no line
    inside a property span matches one of the four rules. *)
Theorem scan_agrees_with_reference file classname :
  (forall line rest s,
     guard_fires line ->
     (forall body closer after,
        line :: rest = body ++ closer :: after ->
        Forall (fun l => has_brace l = false) body ->
        has_brace closer = true ->
        scan_all (line :: rest) s = ((scan_all after s).1, true) /\
        reference_scan Outside (line :: rest)
        = ((reference_scan Outside after).1, true)) /\
     (Forall (fun l => has_brace l = false) (line :: rest) ->
      scan_all (line :: rest) s = ([], true) /\
      reference_scan Outside (line :: rest) = ([], true))) /\
  (forall line rest,
     (is_property line = true ->
      scan_all (line :: rest) (Some CLOSING_BRACE)
      = ((scan_all rest (Some CLOSING_BRACE)).1, true)) /\
     (is_property line = false -> is_awake_check line = false ->
      is_assignment line = true ->
      scan_all (line :: rest) (Some CLOSING_BRACE)
      = ((scan_all rest (Some CLOSING_BRACE)).1, true)) /\
     (quiet line = true ->
      scan_all (line :: rest) (Some CLOSING_BRACE)
      = scan_all rest (if has_brace line then None else Some CLOSING_BRACE)) /\
     reference_scan InProperty (line :: rest)
     = reference_scan (if has_brace line then Outside else InProperty) rest) /\
  (Forall (fun l => quiet l = true) (property_span_lines Outside file) ->
   remove_singleton_code file classname = reference_remove file).
Proof.
  repeat apply conj.
  - intros line rest s Hg. split.
    + intros body closer after Heq Hbody Hcloser.
      rewrite (scan_all_guard _ _ _ Hg), (reference_scan_guard _ _ Hg), Heq.
      by rewrite skip_to_brace_found.
    + intros Hno.
      rewrite (scan_all_guard _ _ _ Hg), (reference_scan_guard _ _ Hg).
      by rewrite skip_to_brace_none.
  - intros line rest. repeat apply conj.
    + intros Hp. by rewrite scan_all_cons, Hp.
    + intros Hp Ha Has. by rewrite scan_all_cons, Hp, Ha, Has.
    + intros Hq. rewrite scan_all_cons.
      unfold RemoveInstanceProps.quiet in Hq.
      destruct (is_property line); [done|].
      destruct (is_awake_check line); [done|].
      destruct (is_assignment line); [done|].
      by destruct (is_destroy_check line).
    + cbn [RemoveInstanceProps.reference_scan]. unfold after_line.
      by fold (has_brace line).
  - intros Hq.
    unfold RemoveInstanceProps.remove_singleton_code,
      RemoveInstanceProps.reference_remove.
    by rewrite scan_all_reference.
Qed.

(** *** C7: the single-assignment rule *)

Lemma is_assignment_shape line :
  is_assignment line = true <-> exists a tail, line = a ++ tail /\ assignment_shape a.
Proof.
  unfold RemoveInstanceProps.is_assignment, ASSIGN_RE.
  rewrite re_found_Bol by done.
  split; intros (a & tail & -> & H); exists a, tail; (split; [done|]).
  - destruct H as (w & a1 & -> & Hw%lang_Plus_Cls & H).
    destruct H as (? & a2 & -> & ->%lang_LitS & H).
    destruct H as (sp1 & a3 & -> & Hsp1%lang_Star_Cls & H).
    destruct H as (? & a4 & -> & -> & H).
    destruct H as (sp2 & a5 & -> & Hsp2%lang_Star_Cls & H).
    destruct H as (v & ? & -> & Hv & ->).
    destruct Hw as [Hw Hwall].
    exists w, sp1, sp2, v. repeat split; try done.
    destruct Hv as [Hv|Hv]; apply lang_LitS in Hv; [by left|by right].
  - destruct H as (w & sp1 & sp2 & v & -> & Hw & Hwall & Hsp1 & Hsp2 & Hv).
    exists w, (txt "Instance" ++ sp1 ++ [chr "="] ++ sp2 ++ v ++ [chr ";"]).
    repeat split; [by apply lang_Plus_Cls|].
    exists (txt "Instance"), (sp1 ++ [chr "="] ++ sp2 ++ v ++ [chr ";"]).
    repeat split; [by apply lang_LitS|].
    exists sp1, ([chr "="] ++ sp2 ++ v ++ [chr ";"]).
    repeat split; [by apply lang_Star_Cls|].
    exists [chr "="], (sp2 ++ v ++ [chr ";"]). repeat split.
    exists sp2, (v ++ [chr ";"]). repeat split; [by apply lang_Star_Cls|].
    exists v, [chr ";"]. repeat split.
    destruct Hv as [-> | ->]; [left|right]; by apply lang_LitS.
Qed.

(** C7, as the code has it.  Rule 3 is reached by a line on which rules 1
    and 2 do not fire.  It deletes that line outright (the loop goes on with
    the next line, in the state it was in) exactly when the line starts
    with at least one whitespace character, then [Instance], [=] and [this]
    or [null] with any whitespace around the sign, then the terminator;
    anything may follow the terminator.  A line not of this shape is not
    deleted by this rule: outside a skipped block, and if rule 4 does not
    fire either, it is kept. *)
Theorem assignment_rule_deletes_line line rest s :
  is_property line = false -> is_awake_check line = false ->
  (is_assignment line = true <->
   exists a tail, line = a ++ tail /\ assignment_shape a) /\
  (is_assignment line = true ->
   scan_all (line :: rest) s = ((scan_all rest s).1, true)) /\
  (is_assignment line = false -> is_destroy_check line = false ->
   scan_all (line :: rest) None
   = (line :: (scan_all rest None).1, (scan_all rest None).2)).
Proof.
  intros Hp Ha. split; [apply is_assignment_shape|].
  rewrite !scan_all_cons, Hp, Ha. split.
  - by intros ->.
  - by intros -> ->.
Qed.

End RemoverFacts.

Section CallWrapperFacts.

Import UpdateDebugLogs.

Variable tbl : char -> bool.

Local Abbreviation LOG := (txt "Debug.Log(").
Local Abbreviation WARNING := (txt "Debug.LogWarning(").
Local Abbreviation ERROR := (txt "Debug.LogError").
Local Abbreviation HLOG := (txt "LogHelper.Log(").
Local Abbreviation HWARNING := (txt "LogHelper.LogWarning(").
Local Abbreviation wrapL := (re_sub tbl (space_prefixed LOG) [RGroup1; RText HLOG]).
Local Abbreviation wrapW :=
  (re_sub tbl (space_prefixed WARNING) [RGroup1; RText HWARNING]).

Lemma replace_debug_calls_eq content :
  replace_debug_calls tbl content = wrapW (wrapL content).
Proof. done. Qed.

Lemma nospace_LOG : Forall (fun x => is_space x = false) LOG.
Proof. cbv [txt list_ascii_of_string map]. repeat constructor. Qed.

Lemma nospace_WARNING : Forall (fun x => is_space x = false) WARNING.
Proof. cbv [txt list_ascii_of_string map]. repeat constructor. Qed.


Lemma nospace_HLOG : Forall (fun x => is_space x = false) HLOG.
Proof. cbv [txt list_ascii_of_string map]. repeat constructor. Qed.

(** The two passes on text that follows a space. *)
Lemma wrapL_after_space pre w post :
  is_space w = true ->
  wrapL (pre ++ [w] ++ LOG ++ post) = wrapL pre ++ [w] ++ HLOG ++ wrapL post.
Proof. by apply wrap_after_space; [apply nospace_LOG|]. Qed.

Lemma wrapW_after_space pre w post :
  is_space w = true ->
  wrapW (pre ++ [w] ++ WARNING ++ post)
  = wrapW pre ++ [w] ++ HWARNING ++ wrapW post.
Proof. by apply wrap_after_space; [apply nospace_WARNING|]. Qed.

Lemma wrapL_nonspaces a b :
  Forall (fun x => is_space x = false) a -> wrapL (a ++ b) = a ++ wrapL b.
Proof. by apply wrap_nonspaces; [apply nospace_LOG|]. Qed.

Lemma wrapW_nonspaces a b :
  Forall (fun x => is_space x = false) a -> wrapW (a ++ b) = a ++ wrapW b.
Proof. by apply wrap_nonspaces; [apply nospace_WARNING|]. Qed.









End CallWrapperFacts.

(** ** The import injector *)

Section OccurrenceFacts.

Variable u : str.

Lemma contains_app_false a b :
  contains u (a ++ b) = false -> contains u a = false /\ contains u b = false.
Proof.
  intros H. split.
  - destruct (contains u a) eqn:E; [|done].
    apply contains_iff in E as (x & y & ->).
    by rewrite <- !app_assoc, contains_app in H.
  - destruct (contains u b) eqn:E; [|done].
    apply contains_iff in E as (x & y & ->).
    by rewrite app_assoc, contains_app in H.
Qed.

Lemma occurrences_none hay : contains u hay = false -> occurrences u hay = 0.
Proof.
  induction hay as [|x hay IH]; simpl.
  - by intros [-> _]%orb_false_iff.
  - intros [-> H]%orb_false_iff. by rewrite IH.
Qed.

(** Text without an occurrence, put before [b], adds none when no
    occurrence can begin in it and end in [b]. *)
Lemma occurrences_app a b :
  contains u a = false ->
  (forall j, 1 <= j < length u -> startswith (drop j u) b = false) ->
  occurrences u (a ++ b) = occurrences u b.
Proof.
  intros Ha Hb. induction a as [|x a IH]; [done|].
  cbn [app occurrences]. simpl in Ha. apply orb_false_iff in Ha as [Hx Ha].
  rewrite IH by done.
  destruct (startswith u (x :: a ++ b)) eqn:E; [|done].
  apply (startswith_app_inv u (x :: a) b) in E as [E|[Hlen E]]; [congruence|].
  rewrite Hb in E; [done|]. simpl in *. lia.
Qed.

End OccurrenceFacts.

Section UsingPattern.

Import UpdateDebugLogs.

Variable tbl : char -> bool.

(** The group of the pattern, [(using [^;]+;[\r\n]+)]. *)
Local Abbreviation G :=
  (Grp (Lit "using " ⋅ Plus (Cls not_semicolon) ⋅ Chr (chr ";") ⋅
        Plus (Cls cr_or_lf))%re).

Lemma not_semicolon_false x : not_semicolon x = false -> x = chr ";".
Proof. unfold not_semicolon. by intros ->%negb_false_iff%N.eqb_eq. Qed.

(** The ways the group matches: after the item, every length of the run
    of line ends, the longest first. *)
Lemma run_group c :
  map rest (run tbl G c) =
    match using_item (rest c) with
    | Some s2 => map (fun i => drop i s2) (countdown (run_length cr_or_lf s2))
    | None => []
    end.
Proof.
  unfold using_item, Lit. rewrite run_Grp, map_map. cbn [rest].
  rewrite run_Seq, run_LitS.
  destruct (startswith (txt "using ") (rest c)); [|done].
  cbn [flat_map]. rewrite app_nil_r, run_Seq, run_plus_cls. cbn [rest adv length txt
    list_ascii_of_string map].
  set (s1 := drop 6 (rest c)).
  destruct (run_length not_semicolon s1) as [|b] eqn:Hb; [done|].
  cbn [countdown map flat_map Nat.ltb Nat.leb].
  rewrite (flat_map_nil (run tbl _)).
  - rewrite app_nil_r, run_Seq, run_Chr. cbn [rest adv]. fold s1.
    destruct (drop (S b) s1) as [|x s2] eqn:Hd; [done|].
    rewrite <- Hb in Hd. apply run_length_stop, not_semicolon_false in Hd as ->.
    rewrite N.eqb_refl. cbn [flat_map]. rewrite app_nil_r, run_plus_cls.
    cbn [rest]. by rewrite map_map.
  - intros c' (i & -> & Hi%elem_of_countdown)%list_elem_of_fmap.
    rewrite run_Seq, run_Chr. cbn [rest adv]. fold s1.
    destruct (run_length_inside not_semicolon s1 i) as (x & t & -> & Hx); [lia|].
    destruct (N.eqb_spec x (chr ";")) as [->|]; [done|done].
Qed.

Lemma using_line_shorter s s' : using_line s = Some s' -> length s' < length s.
Proof.
  unfold using_line, using_item.
  destruct (startswith (txt "using ") s); [|done].
  destruct (0 <? _); [|done].
  destruct (drop _ (drop 6 s)) as [|x s2] eqn:Hd; [done|].
  destruct (0 <? run_length cr_or_lf s2); [|done]. intros [= <-].
  apply (f_equal length) in Hd. rewrite !length_drop in Hd.
  rewrite length_drop. cbn [length] in Hd. lia.
Qed.

(** The first way the group matches. *)
Lemma run_group_head c :
  match using_line (rest c) with
  | Some s' => exists c1 l, run tbl G c = c1 :: l /\ rest c1 = s'
  | None => run tbl G c = []
  end.
Proof.
  pose proof (run_group c) as H. unfold using_line.
  destruct (using_item (rest c)) as [s2|];
    [|by destruct (run tbl G c)].
  destruct (run_length cr_or_lf s2) as [|j]; [by destruct (run tbl G c)|].
  cbn [countdown map Nat.ltb Nat.leb] in H |- *.
  destruct (run tbl G c) as [|c1 l]; [done|].
  injection H as H _. by exists c1, l.
Qed.

(** The greedy repetition reports the text after the last round. *)
Lemma repeat_group_head n c :
  length (rest c) <= n ->
  exists c', head (repeat_greedy (run tbl G) n c) = Some c' /\
             rest c' = using_lines n (rest c).
Proof.
  revert c. induction n as [|n IH]; intros c Hn.
  - exists c. by split.
  - rewrite repeat_greedy_S. cbn [using_lines].
    pose proof (run_group_head c) as H.
    destruct (using_line (rest c)) as [s'|] eqn:Hl.
    + destruct H as (c1 & l & -> & <-).
      apply using_line_shorter in Hl.
      cbn [flat_map].
      destruct (Nat.ltb_spec (length (rest c1)) (length (rest c))); [|lia].
      destruct (IH c1 ltac:(lia)) as (c' & Hc' & E').
      exists c'. split; [|done].
      destruct (repeat_greedy (run tbl G) n c1); [done|]. done.
    + rewrite H. exists c. by split.
Qed.

(** The match of the whole pattern at the cursor: as many rounds as follow
    one another, whatever precedes the cursor. *)
Lemma match_at_using p s :
  match using_run s with
  | Some s' => exists c', match_at tbl USING_SECTION_PATTERN p s = Some c' /\
                          rest c' = s'
  | None => match_at tbl USING_SECTION_PATTERN p s = None
  end.
Proof.
  unfold match_at, USING_SECTION_PATTERN, using_run. rewrite run_Plus.
  pose proof (run_group_head (Cfg p s None)) as H. cbn [rest] in H.
  destruct (using_line s) as [s1|].
  - destruct H as (c1 & l & -> & <-). cbn [flat_map].
    destruct (repeat_group_head (length (rest c1)) c1 ltac:(done))
      as (c' & Hc' & E').
    exists c'. split; [|done].
    destruct (repeat_greedy (run tbl G) (length (rest c1)) c1); [done|]. done.
  - by rewrite H.
Qed.

Lemma split_at_semicolon (l : str) :
  Forall (fun x => not_semicolon x = true) l \/
  exists u t, l = u ++ chr ";" :: t /\ Forall (fun x => not_semicolon x = true) u.
Proof.
  induction l as [|x l IH]; [by left|].
  destruct (not_semicolon x) eqn:Hx.
  - destruct IH as [IH|(u & t & -> & Hu)]; [left; by constructor|right].
    exists (x :: u), t. split; [done|]. by constructor.
  - right. apply not_semicolon_false in Hx as ->. by exists [], l.
Qed.

(** An item: [using ], text without a semicolon, and the semicolon. *)
Lemma using_item_found u t :
  Forall (fun x => not_semicolon x = true) u ->
  using_item (txt "using " ++ u ++ chr ";" :: t)
  = if decide (u = []) then None else Some t.
Proof.
  intros Hu. unfold using_item. rewrite startswith_app.
  change 6 with (length (txt "using ")). rewrite drop_app_length.
  rewrite run_length_all by done. cbn [run_length].
  change (not_semicolon (chr ";")) with false. rewrite Nat.add_0_r.
  destruct u as [|x u]; [done|]. rewrite drop_app_length.
  by destruct (decide _).
Qed.

Section LastImportLine.

(** The last import line of a content: its text, its line ends, and what
    follows them. *)
Variables (body nls post : str).
Hypothesis body_nonempty : body <> [].
Hypothesis body_plain : Forall (fun x => not_semicolon x = true) body.
Hypothesis nls_nonempty : nls <> [].
Hypothesis nls_ends : Forall (fun x => cr_or_lf x = true) nls.
Hypothesis post_starts : run_length cr_or_lf post = 0.
Hypothesis post_plain : forall k, using_line (drop k post) = None.

Local Abbreviation item := (txt "using " ++ body ++ chr ";" :: nls).

Lemma using_line_through u :
  u <> [] -> Forall (fun x => not_semicolon x = true) u ->
  using_line (txt "using " ++ u ++ chr ";" :: nls ++ post) = Some post.
Proof.
  intros Hne Hu. unfold using_line. rewrite using_item_found by done.
  destruct (decide (u = [])); [done|].
  rewrite run_length_all, post_starts, Nat.add_0_r by done.
  destruct nls as [|x l]; [done|]. cbn [length Nat.ltb Nat.leb].
  change (S (length l)) with (length (x :: l)). by rewrite drop_app_length.
Qed.

Lemma item_app : item ++ post = txt "using " ++ body ++ chr ";" :: nls ++ post.
Proof. by rewrite <- !app_assoc. Qed.

Lemma using_line_item : using_line (item ++ post) = Some post.
Proof. rewrite item_app. by apply using_line_through. Qed.

(** A round that starts before the last import line ends before it, or
    at its end. *)
Lemma using_line_before a s' :
  using_line (a ++ item ++ post) = Some s' ->
  s' = post \/ exists a', s' = a' ++ item ++ post /\ length a' < length a.
Proof.
  destruct a as [|x0 a0]; [rewrite app_nil_l, using_line_item; intros [= <-]; by left|].
  set (a := x0 :: a0). intros Hl.
  assert (startswith (txt "using ") (a ++ item ++ post) = true) as Hs.
  { unfold using_line, using_item in Hl.
    by destruct (startswith (txt "using ") (a ++ item ++ post)). }
  apply startswith_app_inv in Hs as [Hs|[Hlen Hs]].
  2:{ exfalso. rewrite item_app in Hs.
      assert (no_straddle (txt "using ")
                (txt "using " ++ body ++ chr ";" :: nls ++ post) = true) as H
        by done.
      unfold no_straddle in H. rewrite forallb_forall in H.
      specialize (H (length a)). rewrite Hs in H.
      enough (negb true = true) by done.
      apply H, in_seq. subst a. simpl in *. lia. }
  apply startswith_prefix in Hs.
  set (a1 := drop (length (txt "using ")) a) in *.
  rewrite Hs, <- app_assoc in Hl.
  assert (length a = 6 + length a1) as Hlena.
  { rewrite Hs at 1. by rewrite length_app. }
  destruct (split_at_semicolon a1) as [Hplain|(u & a2 & Ha1 & Hu)].
  - left. rewrite item_app in Hl.
    replace (a1 ++ txt "using " ++ body ++ chr ";" :: nls ++ post)
      with ((a1 ++ txt "using " ++ body) ++ chr ";" :: nls ++ post) in Hl
      by by rewrite <- !app_assoc.
    rewrite using_line_through in Hl; [by injection Hl| |].
    + by destruct a1.
    + apply Forall_app. split; [done|]. apply Forall_app. split; [|done].
      cbv [txt list_ascii_of_string map]. repeat constructor.
  - right. rewrite Ha1, <- app_assoc in Hl. cbn [app] in Hl.
    unfold using_line in Hl. rewrite using_item_found in Hl by done.
    destruct (decide (u = [])); [done|].
    rewrite item_app in Hl.
    change (txt "using " ++ body ++ chr ";" :: nls ++ post)
      with (chr "u" :: (txt "sing " ++ body ++ chr ";" :: nls ++ post)) in Hl.
    rewrite run_length_app_stop in Hl by done.
    destruct (0 <? run_length cr_or_lf a2); [|done]. injection Hl as <-.
    pose proof (run_length_le cr_or_lf a2) as Hle.
    exists (drop (run_length cr_or_lf a2) a2). split.
    + rewrite item_app. by rewrite drop_app_le by done.
    + rewrite length_drop, Hlena, Ha1, length_app. simpl. lia.
Qed.

Lemma using_lines_post n : using_lines n post = post.
Proof.
  destruct n; [done|]. cbn [using_lines].
  pose proof (post_plain 0) as H. rewrite drop_0 in H. by rewrite H.
Qed.

(** The rounds that start before the last import line end before it, or
    at its end. *)
Lemma using_lines_before n a :
  using_lines n (a ++ item ++ post) = post \/
  exists a', using_lines n (a ++ item ++ post) = a' ++ item ++ post /\
             length a' <= length a.
Proof.
  revert a. induction n as [|n IH]; intros a; [right; by exists a|].
  cbn [using_lines].
  destruct (using_line (a ++ item ++ post)) as [s'|] eqn:Hl;
    [|right; by exists a].
  apply using_line_before in Hl as [->|(a' & -> & Hlen)].
  - left. apply using_lines_post.
  - destruct (IH a') as [->|(a'' & -> & Hlen')]; [by left|right].
    exists a''. split; [done|lia].
Qed.

(** No match starts in what follows the last import line. *)
Lemma finditer_post fuel pos p k :
  finditer_loop tbl fuel USING_SECTION_PATTERN pos p (drop k post) = [].
Proof.
  revert pos p k. induction fuel as [|fuel IH]; intros pos p k; [done|].
  cbn [finditer_loop].
  pose proof (match_at_using p (drop k post)) as H.
  unfold using_run in H. rewrite post_plain in H. rewrite H.
  destruct (drop k post) as [|x s'] eqn:Hd; [done|].
  replace s' with (drop (S k) post); [apply IH|].
  replace (S k) with (k + 1) by lia. by rewrite <- drop_drop, Hd.
Qed.

(** The last match ends where the last import line ends. *)
Lemma finditer_last fuel pos p a :
  length (a ++ item ++ post) < fuel ->
  exists start,
    last (finditer_loop tbl fuel USING_SECTION_PATTERN pos p (a ++ item ++ post))
    = Some (start, pos + length a + length item).
Proof.
  revert pos p a. induction fuel as [|fuel IH]; intros pos p a Hfuel; [lia|].
  cbn [finditer_loop].
  pose proof (match_at_using p (a ++ item ++ post)) as H.
  unfold using_run in H.
  destruct (using_line (a ++ item ++ post)) as [s1|] eqn:Hl.
  - destruct H as (c' & -> & Hc').
    assert (0 < length item) as Hitem by (rewrite length_app; simpl; lia).
    assert (length (a ++ item ++ post) - length post
            = S (length a + length item - 1)) as Hend
      by (rewrite (length_app a), (length_app item post); lia).
    apply using_line_before in Hl as [->|(a' & -> & Hlen)].
    + rewrite using_lines_post in Hc'. rewrite Hc', Hend.
      cbn [Nat.ltb Nat.leb]. rewrite (finditer_post _ _ _ 0).
      exists pos. cbn [last]. f_equal. f_equal. lia.
    + destruct (using_lines_before (length (a' ++ item ++ post)) a')
        as [E|(a'' & E & Hlen')]; rewrite E in Hc'; rewrite Hc'.
      * rewrite Hend.
        cbn [Nat.ltb Nat.leb]. rewrite (finditer_post _ _ _ 0).
        exists pos. cbn [last]. f_equal. f_equal. lia.
      * assert (length (a ++ item ++ post) - length (a'' ++ item ++ post)
                = S (length a - length a'' - 1)) as ->
          by (rewrite (length_app a), (length_app a''), (length_app item post);
              lia).
        cbn [Nat.ltb Nat.leb].
        destruct (IH (pos + S (length a - length a'' - 1)) (prev c') a'')
          as [start Hstart].
        { rewrite (length_app a), (length_app item post) in Hfuel.
          rewrite (length_app a''), (length_app item post). lia. }
        exists start. rewrite last_cons, Hstart. f_equal. f_equal. lia.
  - rewrite H. destruct a as [|x a].
    { by rewrite app_nil_l, using_line_item in Hl. }
    cbn [app]. destruct (IH (S pos) (Some x) a) as [start Hstart].
    { change ((x :: a) ++ item ++ post) with (x :: (a ++ item ++ post)) in Hfuel.
      cbn [length] in Hfuel. lia. }
    exists start. rewrite Hstart. f_equal. f_equal. cbn [length]. lia.
Qed.

End LastImportLine.

End UsingPattern.

Section InjectorFacts.

Import UpdateDebugLogs.

Variable tbl : char -> bool.

Local Abbreviation add_using_statement := (add_using_statement tbl).

(** The shape of every result: the content, or the content with the line
    put in at some position, followed by one or two line feeds. *)
Lemma add_using_statement_cases content :
  (contains USING_STATEMENT content = true /\
   add_using_statement content = content) \/
  (contains USING_STATEMENT content = false /\
   exists p sep, (sep = NL \/ sep = NL ++ NL) /\
     add_using_statement content
     = take p content ++ USING_STATEMENT ++ sep ++ drop p content).
Proof.
  unfold UpdateDebugLogs.add_using_statement.
  destruct (contains USING_STATEMENT content) eqn:E; [by left|right].
  split; [done|].
  destruct (last (re_finditer tbl USING_SECTION_PATTERN content))
    as [[start insert_pos]|].
  { exists insert_pos, NL. by split; [left|]. }
  destruct (re_search tbl (NAMESPACE_RE tbl) content) as [[before c']|].
  { exists (length before), (NL ++ NL). split; [by right|].
    by rewrite <- !app_assoc. }
  exists 0, (NL ++ NL). split; [by right|]. by rewrite <- !app_assoc.
Qed.

Lemma using_no_border b j :
  1 <= j < length USING_STATEMENT ->
  startswith (drop j USING_STATEMENT) (USING_STATEMENT ++ b) = false.
Proof.
  intros Hj.
  assert (no_straddle USING_STATEMENT (USING_STATEMENT ++ b) = true) as H
    by done.
  unfold no_straddle in H. rewrite forallb_forall in H.
  apply negb_true_iff, H, in_seq. lia.
Qed.

Lemma occurrences_using_line sep b :
  sep = NL \/ sep = NL ++ NL ->
  occurrences USING_STATEMENT (USING_STATEMENT ++ sep ++ b)
  = S (occurrences USING_STATEMENT b).
Proof. by intros [-> | ->]. Qed.

(** C6, as the code has it.  A second application of the import injector
    changes nothing, and after one application the content contains the
    line.  Content that did not contain the line contains it exactly once
    afterwards; content that contained it, whatever the number of times,
    comes back as it is. *)
Theorem add_using_statement_idempotent content :
  add_using_statement (add_using_statement content)
  = add_using_statement content /\
  contains USING_STATEMENT (add_using_statement content) = true /\
  (contains USING_STATEMENT content = false ->
   occurrences USING_STATEMENT (add_using_statement content) = 1) /\
  (contains USING_STATEMENT content = true ->
   add_using_statement content = content).
Proof.
  destruct (add_using_statement_cases content)
    as [[Hin Heq]|[Hout (p & sep & Hsep & Heq)]].
  - rewrite !Heq, Hin. by repeat split.
  - assert (contains USING_STATEMENT (add_using_statement content) = true)
      as Hin by (rewrite Heq; apply contains_app).
    repeat split; [|done| |congruence].
    + unfold UpdateDebugLogs.add_using_statement at 1. by rewrite Hin.
    + intros _. rewrite Heq.
      rewrite <- (take_drop p content) in Hout.
      apply contains_app_false in Hout as [Hl Hr].
      rewrite occurrences_app; [|done|apply using_no_border].
      apply occurrences_none in Hr.
      by rewrite occurrences_using_line, Hr.
Qed.

Lemma search_from_none r p s :
  search_from tbl r p s = None ->
  forall k, exists p', match_at tbl r p' (drop k s) = None.
Proof.
  revert p. induction s as [|x s IH]; intros p; cbn [search_from].
  - destruct (match_at tbl r p []) eqn:E; [done|]. intros _ k.
    exists p. by rewrite drop_nil.
  - destruct (match_at tbl r p (x :: s)) eqn:E; [done|].
    destruct (search_from tbl r (Some x) s) as [[? ?]|] eqn:E'; [done|].
    intros _ [|k]; [by exists p|]. by apply (IH (Some x)).
Qed.

Lemma no_using_after post :
  re_found tbl USING_SECTION_PATTERN post = false ->
  forall k, using_line (drop k post) = None.
Proof.
  unfold re_found, re_search. intros H k.
  destruct (search_from tbl USING_SECTION_PATTERN None post) eqn:E; [done|].
  destruct (search_from_none _ _ _ E k) as [p' Hp'].
  pose proof (match_at_using tbl p' (drop k post)) as Hm.
  unfold using_run in Hm. destruct (using_line (drop k post)); [|done].
  destruct Hm as (c' & Hc' & _). congruence.
Qed.

(** C5, as the code has it.  When the content does not hold the line, the
    injector puts it right after the last import-style line of the whole
    content, line ends included: the last text of the shape [using ],
    characters other than the semicolon, the semicolon, and line ends,
    after which no such text follows.  Whatever stands before that line,
    import lines or not, and whatever stands after it, stays as it is. *)
Theorem add_using_statement_after_last_import pre body nls post :
  body <> [] -> Forall (fun x => not_semicolon x = true) body ->
  nls <> [] -> Forall (fun x => cr_or_lf x = true) nls ->
  (forall y, head post = Some y -> cr_or_lf y = false) ->
  re_found tbl USING_SECTION_PATTERN post = false ->
  contains USING_STATEMENT
    (pre ++ txt "using " ++ body ++ [chr ";"] ++ nls ++ post) = false ->
  add_using_statement (pre ++ txt "using " ++ body ++ [chr ";"] ++ nls ++ post)
  = pre ++ txt "using " ++ body ++ [chr ";"] ++ nls ++
    USING_STATEMENT ++ NL ++ post.
Proof.
  intros Hbody Hplain Hnls Hends Hpost Hafter Hnew.
  unfold UpdateDebugLogs.add_using_statement. rewrite Hnew.
  assert (run_length cr_or_lf post = 0) as Hstart.
  { destruct post as [|y t]; [done|]. simpl. by rewrite (Hpost y). }
  pose proof (no_using_after post Hafter) as Hno.
  unfold re_finditer.
  replace (pre ++ txt "using " ++ body ++ [chr ";"] ++ nls ++ post)
    with (pre ++ (txt "using " ++ body ++ chr ";" :: nls) ++ post)
    by (by rewrite <- !app_assoc).
  destruct (finditer_last tbl body nls post Hbody Hplain Hnls Hends Hstart Hno
              (S (length (pre ++ (txt "using " ++ body ++ chr ";" :: nls) ++ post)))
              0 None pre ltac:(lia)) as [start ->].
  cbn [Nat.add].
  set (it := txt "using " ++ body ++ chr ";" :: nls).
  rewrite (app_assoc pre it post), <- (length_app pre it).
  rewrite take_app_length, drop_app_length. subst it.
  by rewrite <- !app_assoc.
Qed.

End InjectorFacts.

(** ** The reference rewriter *)

Section RewriterFacts.

Import FixInstances.

Variable tbl : char -> bool.

Local Abbreviation word_at := (word_at tbl).
Local Abbreviation fix_file := (fix_file tbl).

(** Where [re.search] finds its match. *)
Lemma search_from_spec r p s before c' :
  search_from tbl r p s = Some (before, c') ->
  exists after, s = before ++ after /\
    match_at tbl r (match last before with Some x => Some x | None => p end)
             after = Some c'.
Proof.
  revert p before. induction s as [|x s IH]; intros p before; cbn [search_from].
  - destruct (match_at tbl r p []) eqn:E; [|done].
    intros [= <- <-]. by exists [].
  - destruct (match_at tbl r p (x :: s)) eqn:E.
    { intros [= <- <-]. by exists (x :: s). }
    destruct (search_from tbl r (Some x) s) as [[pre c1]|] eqn:E'; [|done].
    intros [= <- <-]. destruct (IH _ _ E') as (after & -> & Hm).
    exists after. split; [done|]. rewrite last_cons.
    by destruct (last pre).
Qed.

(** A match of [\bName\.Instance\b], for a name that starts with a word
    character: the text is there, and neither neighbour is a word
    character. *)
Lemma match_at_instance_pattern name p s c' :
  word_at (head name) = true ->
  match_at tbl (instance_pattern name) p s = Some c' ->
  word_at p = false /\
  s = name ++ txt ".Instance" ++ rest c' /\
  word_at (head (rest c')) = false.
Proof.
  intros Hname. unfold match_at, instance_pattern, Lit.
  rewrite run_Seq, run_Wordb. cbn [prev rest].
  destruct (xorb (word_at p) (word_at (head s))) eqn:Hb; [|done].
  cbn [flat_map]. rewrite app_nil_r, run_Seq, run_LitS. cbn [rest].
  destruct (startswith name s) eqn:Hs; [|done].
  cbn [flat_map]. rewrite app_nil_r, run_Seq, run_LitS. cbn [rest adv].
  destruct (startswith (txt ".Instance") (drop (length name) s)) eqn:Hi; [|done].
  cbn [flat_map]. rewrite app_nil_r, run_Wordb. cbn [prev rest adv].
  apply startswith_prefix in Hs, Hi.
  set (t := drop (length (txt ".Instance")) (drop (length name) s)) in *.
  rewrite Hi at 1. rewrite take_app_length. cbn [last txt list_ascii_of_string map].
  change (is_word tbl (N_of_ascii "e")) with true. cbn [xorb].
  destruct (word_at (head t)) eqn:Ht; [done|]. cbn [head negb].
  intros [= <-]. cbn [rest]. repeat split; [|by rewrite Hs at 1; rewrite Hi at 1|done].
  rewrite Hs in Hb. destruct name as [|a nm]; [done|].
  cbn [app head] in Hb. cbn [head] in Hname. rewrite Hname in Hb.
  by destruct (word_at p).
Qed.

Lemma names_start_with_word_char :
  Forall (fun name => word_at (head name) = true) REMOVED_SINGLETONS.
Proof. repeat constructor. Qed.

Lemma str_eqb_refl a : str_eqb a a = true.
Proof. by apply str_eqb_eq. Qed.

Lemma names_are_words :
  Forall (Forall (fun x => is_word tbl x = true)) REMOVED_SINGLETONS.
Proof. repeat constructor. Qed.

(** Where a character stands that the text before it does not contain. *)
Lemma first_occurrence_unique (d : char) l1 r1 l2 r2 :
  l1 ++ d :: r1 = l2 ++ d :: r2 -> d ∉ l1 -> d ∉ l2 -> l1 = l2 /\ r1 = r2.
Proof.
  revert l2. induction l1 as [|x l1 IH]; intros [|y l2]; cbn [app].
  - by intros [= ->].
  - intros [= <- _] _ H. exfalso. apply H. by left.
  - intros [= -> _] H. exfalso. apply H. by left.
  - intros [= -> E] H1 H2.
    destruct (IH l2 E) as [-> ->]; [|  |done].
    + intros H. apply H1. by right.
    + intros H. apply H2. by right.
Qed.

Lemma word_not_dot x : is_word tbl x = true -> x <> chr ".".
Proof. by intros H ->. Qed.

(** An identifier that contains the name and is longer than it: no match,
    with or without the dot. *)
Lemma name_inside_identifier name id1 id2 :
  name ∈ REMOVED_SINGLETONS ->
  Forall (fun x => is_word tbl x = true) (id1 ++ id2) ->
  (id1 ++ id2 <> [] ->
   re_found tbl (instance_pattern name) (id1 ++ name ++ id2 ++ txt ".Instance")
   = false) /\
  re_found tbl (instance_pattern name) (id1 ++ name ++ id2 ++ txt "Instance")
  = false.
Proof.
  intros Hin Hid.
  pose proof names_are_words as Hnames. rewrite Forall_forall in Hnames.
  pose proof (Hnames _ Hin) as Hname.
  pose proof names_start_with_word_char as Hw. rewrite Forall_forall in Hw.
  apply Forall_app in Hid as [Hid1 Hid2].
  assert (Forall (fun x => is_word tbl x = true) (id1 ++ name ++ id2)) as HW.
  { apply Forall_app. split; [done|]. by apply Forall_app. }
  assert (forall l, Forall (fun x => is_word tbl x = true) l -> chr "." ∉ l)
    as Hnodot.
  { intros l Hl Hd. rewrite Forall_forall in Hl. by apply Hl in Hd. }
  unfold re_found, re_search. split.
  - intros Hne.
    destruct (search_from tbl (instance_pattern name) None _)
      as [[before c']|] eqn:Hs; [exfalso|done].
    apply search_from_spec in Hs as (after & Heq & Hm).
    apply match_at_instance_pattern in Hm as (Hp & -> & Ha); [|by apply Hw].
    assert (length before <= length (id1 ++ name ++ id2)) as Hlen.
    { apply (f_equal length) in Heq. rewrite !length_app in Heq.
      rewrite !length_app. lia. }
    assert (before = take (length before) (id1 ++ name ++ id2)) as Hbefore.
    { pose proof (f_equal (take (length before)) Heq) as Ht.
      rewrite take_app_length in Ht.
      rewrite (app_assoc id1), (app_assoc (id1 ++ name)), <- (app_assoc id1)
        in Ht.
      by rewrite take_app_le in Ht. }
    assert (Forall (fun x => is_word tbl x = true) before) as Hbw.
    { rewrite Hbefore. by apply Forall_take. }
    replace (id1 ++ name ++ id2 ++ txt ".Instance")
      with ((id1 ++ name ++ id2) ++ chr "." :: txt "Instance") in Heq
      by by rewrite <- !app_assoc.
    replace (before ++ name ++ txt ".Instance" ++ rest c')
      with ((before ++ name) ++ chr "." :: txt "Instance" ++ rest c') in Heq
      by by rewrite <- !app_assoc.
    apply first_occurrence_unique in Heq as [HeqW _].
    + assert (before <> []) as Hbne.
      { intros ->. apply Hne. apply (f_equal length) in HeqW.
        rewrite !length_app in HeqW. simpl in HeqW.
        destruct id1, id2; simpl in *; try done; lia. }
      destruct (last before) as [z|] eqn:Hl; [|by apply last_None in Hl].
      apply last_Some in Hl as [b' ->]. apply Forall_app in Hbw as [_ Hz].
      apply Forall_cons in Hz as [Hz _]. cbn in Hp. congruence.
    + by apply Hnodot.
    + apply Hnodot, Forall_app. by split.
  - destruct (search_from tbl (instance_pattern name) None _)
      as [[before c']|] eqn:Hs; [exfalso|done].
    apply search_from_spec in Hs as (after & Heq & Hm).
    apply match_at_instance_pattern in Hm as (Hp & -> & Ha); [|by apply Hw].
    assert (Forall (fun x => is_word tbl x = true)
              (id1 ++ name ++ id2 ++ txt "Instance")) as Hall.
    { rewrite (app_assoc id1), (app_assoc (id1 ++ name)), <- (app_assoc id1).
      apply Forall_app. split; [done|].
      cbv [txt list_ascii_of_string map]. repeat constructor. }
    rewrite Heq in Hall. apply Hnodot in Hall. apply Hall.
    apply elem_of_app. right. apply elem_of_app. right. by left.
Qed.

End RewriterFacts.

(** ** The catalog *)

Section CatalogFacts.

Variable tbl : char -> bool.

(** C2, as the code has it.  The lists are not checked against each other.
    Every name of the remove list is also a name of the replace list, no
    step rejects that, and the rewriter rewrites a reference to such a name
    like any other.  What the lists as written do keep apart is the replace
    list and the keep list: no name is on both. *)
Theorem catalog_lists_overlap :
  (forall name, name ∈ RemoveInstanceProps.REMOVED_SINGLETONS ->
     name ∈ FixInstances.REMOVED_SINGLETONS) /\
  (forall name, name ∈ RemoveInstanceProps.REMOVED_SINGLETONS ->
     FixInstances.fix_file tbl (name ++ txt ".Instance")
     = (txt "FindObjectOfType<" ++ name ++ txt ">()", Some [name])) /\
  (forall name, name ∈ FixInstances.REMOVED_SINGLETONS ->
     name ∉ FixInstances.KEPT_SINGLETONS).
Proof.
  repeat apply conj.
  - apply Forall_forall. repeat (apply Forall_cons; split);
      [apply (bool_decide_unpack _); by vm_compute..|constructor].
  - apply Forall_forall. repeat (apply Forall_cons; split);
      [by vm_compute..|constructor].
  - apply Forall_forall. repeat (apply Forall_cons; split);
      [apply (bool_decide_unpack _); by vm_compute..|constructor].
Qed.

End CatalogFacts.

(** ** The block remover: what a pass leaves behind *)

Section RemoverOutput.

Import RemoveInstanceProps.

Variable tbl : char -> bool.

Local Abbreviation is_property := (is_property tbl).
Local Abbreviation quiet := (quiet tbl).
Local Abbreviation scan_all := (scan_all tbl).
Local Abbreviation remove_singleton_code := (remove_singleton_code tbl).

Lemma scan_all_quiet_line line rest :
  quiet line = true ->
  scan_all (line :: rest) None
  = (line :: (scan_all rest None).1, (scan_all rest None).2).
Proof.
  intros Hq. rewrite scan_all_cons. unfold RemoveInstanceProps.quiet in Hq.
  destruct (RemoveInstanceProps.is_property tbl line); [done|].
  destruct (is_awake_check line); [done|].
  destruct (is_assignment tbl line); [done|].
  by destruct (is_destroy_check tbl line).
Qed.

(** Lines on which no rule fires are copied, and the loop is behind them in
    the state it started in. *)
Lemma scan_all_quiet_prefix pre lines :
  Forall (fun l => quiet l = true) pre ->
  scan_all (pre ++ lines) None
  = (pre ++ (scan_all lines None).1, (scan_all lines None).2).
Proof.
  induction 1 as [|l pre Hl _ IH]; simpl; [by destruct (scan_all lines None)|].
  rewrite scan_all_quiet_line by done. by rewrite IH.
Qed.

(** The flag stays down exactly on the files without a line for the rules. *)
Lemma scan_all_flag lines :
  (scan_all lines None).2 = false <-> Forall (fun l => quiet l = true) lines.
Proof.
  split.
  - induction lines as [|l ls IH]; [done|].
    rewrite scan_all_cons.
    destruct (RemoveInstanceProps.is_property tbl l) eqn:Hp; [done|].
    destruct (is_awake_check l) eqn:Ha; [done|].
    destruct (is_assignment tbl l) eqn:Has; [done|].
    destruct (is_destroy_check tbl l) eqn:Hd; [done|].
    simpl. intros H. constructor; [|by apply IH].
    unfold RemoveInstanceProps.quiet. by rewrite Hp, Ha, Has, Hd.
  - intros H. pose proof (scan_all_quiet_prefix lines [] H) as Heq.
    rewrite app_nil_r in Heq. by rewrite Heq.
Qed.

(** Whatever the state, a line reaches the output only past the four
    tests. *)
Lemma scan_all_kept_quiet lines s :
  Forall (fun l => quiet l = true) (scan_all lines s).1.
Proof.
  remember (length lines) as n eqn:Hn. revert lines s Hn.
  induction (lt_wf n) as [n _ IH]. intros [|line rest] s ->; [done|].
  pose proof (after_brace_length line rest) as Hlen.
  assert (forall lines' s', length lines' <= length rest ->
            Forall (fun l => quiet l = true) (scan_all lines' s').1) as Hnext.
  { intros lines' s' Hle. eapply IH; [|done]. simpl. lia. }
  rewrite scan_all_cons. unfold RemoveInstanceProps.quiet at 1.
  destruct (RemoveInstanceProps.is_property tbl line) eqn:Hp; [by apply Hnext|].
  destruct (is_awake_check line) eqn:Ha; [by apply Hnext|].
  destruct (is_assignment tbl line) eqn:Has; [by apply Hnext|].
  destruct (is_destroy_check tbl line) eqn:Hd; [by apply Hnext|].
  assert (quiet line = true) as Hq.
  { unfold RemoveInstanceProps.quiet. by rewrite Hp, Ha, Has, Hd. }
  destruct s as [[|c mark]|]; simpl.
  - constructor; [done|by apply Hnext].
  - by apply Hnext.
  - constructor; [done|by apply Hnext].
Qed.

Lemma sublist_same_length {A} (l1 l2 : list A) :
  l1 `sublist_of` l2 -> length l2 <= length l1 -> l1 = l2.
Proof.
  induction 1 as [|x l1 l2 _ IH|x l1 l2 Hsub IH]; simpl; intros Hlen.
  - done.
  - f_equal. apply IH. lia.
  - apply sublist_length in Hsub. lia.
Qed.

(** X1.  [remove_singleton_code] leaves the file as it is and returns
    [False] exactly when none of the four rules fires on any line of the
    file. *)
Theorem remove_singleton_code_untouched file classname :
  remove_singleton_code file classname = (file, false) <->
  Forall (fun l => quiet l = true) file.
Proof.
  unfold RemoveInstanceProps.remove_singleton_code.
  rewrite <- scan_all_flag.
  destruct (scan_all file None) as [new_lines [|]]; simpl; split; congruence.
Qed.

(** X2.  No line that [remove_singleton_code] leaves in the file matches one
    of the four rules, so a second pass over the result finds nothing: it
    returns [False] and the file stays as the first pass left it. *)
Theorem remove_singleton_code_rerun file classname classname' :
  Forall (fun l => quiet l = true) (remove_singleton_code file classname).1 /\
  remove_singleton_code (remove_singleton_code file classname).1 classname'
  = ((remove_singleton_code file classname).1, false).
Proof.
  assert (Forall (fun l => quiet l = true)
            (remove_singleton_code file classname).1) as Hq.
  { unfold RemoveInstanceProps.remove_singleton_code.
    pose proof (scan_all_kept_quiet file None) as Hkept.
    pose proof (scan_all_flag file) as Hflag.
    destruct (scan_all file None) as [new_lines [|]]; simpl in *; [done|].
    by apply Hflag. }
  split; [done|].
  unfold RemoveInstanceProps.remove_singleton_code at 1.
  apply scan_all_flag in Hq as Hflag.
  destruct (scan_all _ None) as [new_lines [|]]; simpl in *; done.
Qed.

(** X3.  The returned flag is [True] exactly when the file holds fewer lines
    than before: a reported removal always deleted at least one line. *)
Theorem remove_singleton_code_reports_deletion file classname :
  (remove_singleton_code file classname).2 = true <->
  length (remove_singleton_code file classname).1 < length file.
Proof.
  unfold RemoveInstanceProps.remove_singleton_code.
  pose proof (scan_all_kept_quiet file None) as Hkept.
  pose proof (scan_all_flag file) as Hflag.
  pose proof (scan_sublist tbl (length file) file None) as Hsub.
  fold (scan_all file None) in Hsub.
  destruct (scan_all file None) as [new_lines [|]]; simpl in *.
  - split; [intros _|done].
    pose proof (sublist_length _ _ Hsub) as Hle.
    destruct (decide (length file <= length new_lines)) as [Hge|]; [|lia].
    rewrite (sublist_same_length _ _ Hsub Hge) in Hkept.
    apply Hflag in Hkept. done.
  - split; [done|lia].
Qed.

(** X4.  Leading lines on which no rule fires are kept as they are and do
    not change what the pass does with the lines after them. *)
Theorem remove_singleton_code_quiet_prefix pre lines classname :
  Forall (fun l => quiet l = true) pre ->
  remove_singleton_code (pre ++ lines) classname
  = (pre ++ (remove_singleton_code lines classname).1,
     (remove_singleton_code lines classname).2).
Proof.
  intros Hpre. unfold RemoveInstanceProps.remove_singleton_code.
  rewrite scan_all_quiet_prefix by done.
  by destruct (scan_all lines None) as [new_lines [|]].
Qed.

(** X5.  A property block between lines the rules leave alone is cut out
    from its opening line through the first later line that contains the
    closing marker, also when the opening line itself contains one; the
    lines before it stay, and the pass goes on after the closing line with
    no skip pending. *)
Theorem property_block_is_cut_out pre opening body closer after classname :
  Forall (fun l => quiet l = true) pre ->
  is_property opening = true ->
  Forall (fun l => quiet l = true /\ has_brace l = false) body ->
  quiet closer = true -> has_brace closer = true ->
  remove_singleton_code (pre ++ opening :: body ++ closer :: after) classname
  = (pre ++ (scan_all after None).1, true).
Proof.
  intros Hpre Hop Hbody Hq Hc.
  assert (forall l ls, quiet l = true ->
            scan_all (l :: ls) (Some CLOSING_BRACE)
            = scan_all ls (if has_brace l then None else Some CLOSING_BRACE))
    as Hstep.
  { intros l ls Hl. rewrite scan_all_cons.
    unfold RemoveInstanceProps.quiet in Hl.
    destruct (RemoveInstanceProps.is_property tbl l); [done|].
    destruct (is_awake_check l); [done|].
    destruct (is_assignment tbl l); [done|].
    by destruct (is_destroy_check tbl l). }
  assert (scan_all (body ++ closer :: after) (Some CLOSING_BRACE)
          = scan_all after None) as Hspan.
  { induction Hbody as [|l ls [Hl Hb] _ IH]; simpl.
    - rewrite Hstep by done. by rewrite Hc.
    - rewrite Hstep by done. by rewrite Hb. }
  unfold RemoveInstanceProps.remove_singleton_code.
  rewrite scan_all_quiet_prefix by done.
  by rewrite scan_all_cons, Hop, Hspan.
Qed.

End RemoverOutput.

(** ** The call wrapper: a pass over its own output *)

Section WrapAgain.

Variable tbl : char -> bool.

Variables (name new : str).
Hypothesis name_nospace : Forall (fun x => is_space x = false) name.
Hypothesis name_nonempty : name <> [].

Local Abbreviation wrap :=
  (re_sub tbl (space_prefixed name) [RGroup1; RText new]).
Local Abbreviation wrap_eq :=
  (re_sub_space_prefixed tbl name new name_nospace name_nonempty).

(** A text is the run of spaces it starts with and the rest. *)
Lemma spaces_split s :
  exists r t, s = r ++ t /\ length r = run_length is_space s /\
    Forall (fun x => is_space x = true) r /\ starts_nonspace t = true.
Proof.
  exists (take (run_length is_space s) s), (drop (run_length is_space s) s).
  pose proof (run_length_le is_space s) as Hle.
  repeat apply conj.
  - by rewrite take_drop.
  - rewrite length_take. lia.
  - apply run_length_take.
  - destruct (drop (run_length is_space s) s) as [|x t] eqn:E; [done|].
    apply run_length_stop in E. simpl. by rewrite E.
Qed.

Lemma space_prefixed_at_spaces other r t :
  Forall (fun x => is_space x = true) r -> starts_nonspace t = true ->
  space_prefixed_at other (r ++ t)
  = if (0 <? length r) && startswith other t then Some (length r) else None.
Proof.
  intros Hr Ht. unfold space_prefixed_at.
  rewrite run_length_all by done.
  rewrite (starts_nonspace_run t Ht), Nat.add_0_r.
  by rewrite drop_app_length.
Qed.

(** The pass never changes the first character. *)
Lemma wrap_head x s : exists t, wrap (x :: s) = x :: t.
Proof.
  rewrite wrap_eq.
  destruct (space_prefixed_at name (x :: s)) as [k|] eqn:E; [|by eexists].
  apply (space_prefixed_at_Some name) in E as (_ & Hk & _).
  destruct k as [|k]; [lia|]. simpl. by eexists.
Qed.

Lemma wrap_starts_nonspace t :
  starts_nonspace t = true -> starts_nonspace (wrap t) = true.
Proof.
  destruct t as [|x t]; [by rewrite wrap_eq|].
  destruct (wrap_head x t) as [t' ->]. done.
Qed.

(** Up to the first space the output is the input. *)
Lemma wrap_startswith m t :
  Forall (fun x => is_space x = false) m ->
  startswith m (wrap t) = startswith m t.
Proof.
  intros Hm. revert t. induction Hm as [|a m Ha _ IH]; intros t; [done|].
  destruct t as [|x t]; [by rewrite wrap_eq|].
  destruct (is_space x) eqn:Hx.
  - destruct (wrap_head x t) as [t' ->]. simpl.
    destruct (N.eqb_spec a x) as [->|]; [congruence|done].
  - rewrite (wrap_nonspace tbl name new name_nospace name_nonempty) by done.
    simpl. by rewrite IH.
Qed.

(** Spaces that the literal does not follow are copied. *)
Lemma wrap_spaces_then r t :
  Forall (fun x => is_space x = true) r -> starts_nonspace t = true ->
  startswith name t = false -> wrap (r ++ t) = r ++ wrap t.
Proof.
  intros Hr Ht Hs. induction Hr as [|w r Hw Hr IH]; [done|].
  rewrite wrap_eq.
  rewrite (space_prefixed_at_spaces name (w :: r) t);
    [|by constructor|done].
  rewrite Hs, andb_false_r. simpl. by rewrite IH.
Qed.

(** Where the pass finds no match at the start, a match of a literal
    without spaces starts its output exactly when one starts its input. *)
Lemma space_prefixed_at_wrap_none other s :
  Forall (fun x => is_space x = false) other ->
  space_prefixed_at name s = None ->
  space_prefixed_at other (wrap s) = space_prefixed_at other s.
Proof.
  intros Ho Hnone.
  destruct (spaces_split s) as (r & t & -> & Hlen & Hr & Ht).
  rewrite (space_prefixed_at_spaces name r t) in Hnone by done.
  destruct (0 <? length r) eqn:Hk.
  - destruct (startswith name t) eqn:Hs; [done|].
    rewrite wrap_spaces_then by done.
    rewrite !space_prefixed_at_spaces by auto using wrap_starts_nonspace.
    by rewrite wrap_startswith.
  - apply Nat.ltb_ge in Hk. destruct r; [|simpl in Hk; lia].
    rewrite !app_nil_l.
    pose proof (space_prefixed_at_spaces other [] t ltac:(done) Ht) as H1.
    pose proof (space_prefixed_at_spaces other [] (wrap t) ltac:(done)
                  (wrap_starts_nonspace t Ht)) as H2.
    rewrite app_nil_l in H1, H2. by rewrite H1, H2.
Qed.

(** Where it does find one, its output starts with the spaces and the new
    text. *)
Lemma space_prefixed_at_wrap_some other s k :
  new <> [] -> starts_nonspace new = true ->
  (forall post, startswith other (new ++ post) = false) ->
  space_prefixed_at name s = Some k ->
  space_prefixed_at other (wrap s) = None.
Proof.
  intros Hne Hnew Hother Hsome. rewrite wrap_eq, Hsome.
  apply (space_prefixed_at_Some name) in Hsome as (-> & Hk & _).
  pose proof (run_length_le is_space s) as Hle.
  rewrite space_prefixed_at_spaces.
  - by rewrite Hother, andb_false_r.
  - apply run_length_take.
  - destruct new; [done|]. done.
Qed.

(** Text without the literal passes unchanged. *)
Lemma wrap_noop s : contains name s = false -> wrap s = s.
Proof.
  induction s as [|x s IH]; intros Hc; [by rewrite wrap_eq|].
  rewrite wrap_eq.
  destruct (space_prefixed_at name (x :: s)) as [k|] eqn:E.
  - apply (space_prefixed_at_Some name) in E as (_ & _ & Hs & _).
    apply contains_startswith in Hs.
    rewrite <- (take_drop k (x :: s)) in Hc.
    apply contains_app_false in Hc as [_ Hc]. congruence.
  - f_equal. apply IH. simpl in Hc. by apply orb_false_iff in Hc as [_ Hc].
Qed.

(** The pass does not shorten the text when the new text is not shorter
    than the literal. *)
Lemma wrap_length s : length name <= length new -> length s <= length (wrap s).
Proof.
  intros Hlen. remember (length s) as n eqn:Hn. revert s Hn.
  induction (lt_wf n) as [n _ IH]. intros s ->. rewrite wrap_eq.
  destruct (space_prefixed_at name s) as [k|] eqn:E.
  - apply (space_prefixed_at_Some name) in E as (_ & Hk & _ & Hks).
    pose proof (IH (length (drop (k + length name) s))
                  ltac:(rewrite length_drop; lia) _ eq_refl) as Hle.
    pose proof (length_drop s (k + length name)) as Hd.
    rewrite !length_app, length_take. lia.
  - destruct s as [|x s]; [done|].
    pose proof (IH (length s) ltac:(simpl; lia) s eq_refl) as Hle.
    simpl. lia.
Qed.

Hypothesis new_nonempty : new <> [].
Hypothesis new_nospace : Forall (fun x => is_space x = false) new.
Hypothesis new_not_name : forall post, startswith name (new ++ post) = false.
Hypothesis new_no_straddle : forall post, no_straddle name (new ++ post) = true.

Lemma new_starts_nonspace post : starts_nonspace (new ++ post) = true.
Proof.
  destruct new_nospace as [|a m Ha _]; [done|]. simpl. by rewrite Ha.
Qed.

Lemma space_prefixed_at_wrap s : space_prefixed_at name (wrap s) = None.
Proof.
  destruct (space_prefixed_at name s) as [k|] eqn:E.
  - apply (space_prefixed_at_wrap_some name s k); try done.
    rewrite <- (app_nil_r new). apply new_starts_nonspace.
  - by rewrite space_prefixed_at_wrap_none.
Qed.

(** The pass leaves nothing for a second pass. *)
Lemma wrap_wrap s : wrap (wrap s) = wrap s.
Proof.
  remember (length s) as n eqn:Hn. revert s Hn.
  induction (lt_wf n) as [n _ IH]. intros s ->.
  rewrite (wrap_eq (wrap s)), space_prefixed_at_wrap.
  rewrite (wrap_eq s).
  destruct (space_prefixed_at name s) as [k|] eqn:E.
  - apply (space_prefixed_at_Some name) in E as (-> & Hk & _ & Hlen).
    pose proof (run_length_take is_space s) as Hr.
    destruct (take (run_length is_space s) s) as [|w r] eqn:Et.
    { apply (f_equal length) in Et. rewrite length_take in Et. simpl in Et. lia. }
    cbn [app]. f_equal.
    change (wrap (r ++ new ++ wrap (drop (run_length is_space s + length name) s))
            = r ++ new ++ wrap (drop (run_length is_space s + length name) s)).
    rewrite (wrap_inert tbl name new name_nospace name_nonempty)
      by auto using new_starts_nonspace.
    rewrite (wrap_spaces tbl name new name_nospace name_nonempty)
      by by apply Forall_cons in Hr as [_ Hr].
    rewrite (wrap_nonspaces tbl name new name_nospace name_nonempty) by done.
    rewrite (IH (length (drop (run_length is_space s + length name) s)));
      [done| |done].
    rewrite length_drop. destruct name; [done|]. simpl. lia.
  - destruct s as [|x s]; [done|]. f_equal.
    apply (IH (length s)); [simpl; lia|done].
Qed.

End WrapAgain.

(** Two passes with different literals, neither of which the other one's
    literal or new text can start or complete. *)
Section WrapOver.

Variable tbl : char -> bool.

Variables (name new other onew : str).
Hypothesis name_nospace : Forall (fun x => is_space x = false) name.
Hypothesis name_nonempty : name <> [].
Hypothesis other_nospace : Forall (fun x => is_space x = false) other.
Hypothesis other_nonempty : other <> [].
Hypothesis new_nonempty : new <> [].
Hypothesis new_nospace : Forall (fun x => is_space x = false) new.
Hypothesis name_not_other : forall post, startswith other (name ++ post) = false.
Hypothesis name_no_straddle : forall post, no_straddle other (name ++ post) = true.
Hypothesis new_not_other : forall post, startswith other (new ++ post) = false.
Hypothesis new_no_straddle : forall post, no_straddle other (new ++ post) = true.

Local Abbreviation wrap :=
  (re_sub tbl (space_prefixed name) [RGroup1; RText new]).
Local Abbreviation wrapO :=
  (re_sub tbl (space_prefixed other) [RGroup1; RText onew]).

Lemma wrapO_through b post :
  b <> [] -> Forall (fun x => is_space x = false) b ->
  startswith other (b ++ post) = false ->
  no_straddle other (b ++ post) = true ->
  forall r, Forall (fun x => is_space x = true) r ->
  wrapO (r ++ b ++ post) = r ++ b ++ wrapO post.
Proof.
  intros Hne Hb H1 H2 r Hr.
  rewrite (wrap_inert tbl other onew other_nospace other_nonempty);
    [|done|done|].
  - rewrite (wrap_spaces tbl other onew other_nospace other_nonempty) by done.
    by rewrite (wrap_nonspaces tbl other onew other_nospace other_nonempty).
  - destruct Hb as [|x b Hx _]; [done|]. simpl. by rewrite Hx.
Qed.

(** Where the first pass matches at the start, the two passes commute if
    they do on the text after the match. *)
Lemma wrap_commute_at s k :
  space_prefixed_at name s = Some k ->
  (forall s', length s' < length s -> wrapO (wrap s') = wrap (wrapO s')) ->
  wrapO (wrap s) = wrap (wrapO s).
Proof.
  intros E IH.
  apply (space_prefixed_at_Some name) in E as (-> & Hk & Hs & Hlen).
  pose proof (run_length_take is_space s) as Hr.
  apply startswith_prefix in Hs.
  rewrite drop_drop in Hs.
  set (k := run_length is_space s) in *.
  assert (take k s <> []) as Hne.
  { intros Et. apply (f_equal length) in Et. rewrite length_take in Et.
    simpl in Et. lia. }
  assert (s = take k s ++ name ++ drop (k + length name) s) as Heq.
  { rewrite <- Hs. by rewrite take_drop. }
  set (r := take k s) in *. set (rest := drop (k + length name) s) in *.
  assert (length rest < length s) as Hrest.
  { unfold rest. rewrite length_drop. destruct name; [done|]. simpl. lia. }
  rewrite Heq.
  rewrite (wrap_spaces_name tbl name new name_nospace name_nonempty) by done.
  rewrite !wrapO_through by done.
  rewrite (wrap_spaces_name tbl name new name_nospace name_nonempty) by done.
  by rewrite IH.
Qed.

End WrapOver.

Section WrapCommute.

Variable tbl : char -> bool.

Variables (nameA newA nameB newB : str).
Hypothesis nameA_nospace : Forall (fun x => is_space x = false) nameA.
Hypothesis nameA_nonempty : nameA <> [].
Hypothesis nameB_nospace : Forall (fun x => is_space x = false) nameB.
Hypothesis nameB_nonempty : nameB <> [].
Hypothesis newA_nonempty : newA <> [].
Hypothesis newA_nospace : Forall (fun x => is_space x = false) newA.
Hypothesis newB_nonempty : newB <> [].
Hypothesis newB_nospace : Forall (fun x => is_space x = false) newB.
Hypothesis nameA_not_B : forall post, startswith nameB (nameA ++ post) = false.
Hypothesis nameA_no_straddle : forall post, no_straddle nameB (nameA ++ post) = true.
Hypothesis newA_not_B : forall post, startswith nameB (newA ++ post) = false.
Hypothesis newA_no_straddle : forall post, no_straddle nameB (newA ++ post) = true.
Hypothesis nameB_not_A : forall post, startswith nameA (nameB ++ post) = false.
Hypothesis nameB_no_straddle : forall post, no_straddle nameA (nameB ++ post) = true.
Hypothesis newB_not_A : forall post, startswith nameA (newB ++ post) = false.
Hypothesis newB_no_straddle : forall post, no_straddle nameA (newB ++ post) = true.

Local Abbreviation wrapA :=
  (re_sub tbl (space_prefixed nameA) [RGroup1; RText newA]).
Local Abbreviation wrapB :=
  (re_sub tbl (space_prefixed nameB) [RGroup1; RText newB]).

(** The order of the two passes does not matter. *)
Lemma wrap_commute s : wrapB (wrapA s) = wrapA (wrapB s).
Proof.
  remember (length s) as n eqn:Hn. revert s Hn.
  induction (lt_wf n) as [n _ IH]. intros s ->.
  destruct (space_prefixed_at nameA s) as [k|] eqn:EA.
  { apply (wrap_commute_at tbl nameA newA nameB newB) with k; try done.
    intros s' Hs'. by apply (IH (length s')). }
  destruct (space_prefixed_at nameB s) as [k|] eqn:EB.
  { symmetry.
    apply (wrap_commute_at tbl nameB newB nameA newA) with k; try done.
    intros s' Hs'. symmetry. by apply (IH (length s')). }
  rewrite (re_sub_space_prefixed tbl nameB newB nameB_nospace nameB_nonempty
             (wrapA s)).
  rewrite (space_prefixed_at_wrap_none tbl nameA newA) by done.
  rewrite (re_sub_space_prefixed tbl nameA newA nameA_nospace nameA_nonempty
             (wrapB s)).
  rewrite (space_prefixed_at_wrap_none tbl nameB newB) by done.
  rewrite EA, EB.
  rewrite (re_sub_space_prefixed tbl nameA newA nameA_nospace nameA_nonempty s).
  rewrite (re_sub_space_prefixed tbl nameB newB nameB_nospace nameB_nonempty s).
  rewrite EA, EB.
  destruct s as [|x s]; [done|]. f_equal.
  apply (IH (length s)); [simpl; lia|done].
Qed.

End WrapCommute.

(** ** update_debug_logs.py: one file, and a second run *)

Section LogFileFacts.

Import UpdateDebugLogs.

Variable tbl : char -> bool.

Local Abbreviation LOG := (txt "Debug.Log(").
Local Abbreviation WARNING := (txt "Debug.LogWarning(").
Local Abbreviation HLOG := (txt "LogHelper.Log(").
Local Abbreviation HWARNING := (txt "LogHelper.LogWarning(").
Local Abbreviation wrapL := (re_sub tbl (space_prefixed LOG) [RGroup1; RText HLOG]).
Local Abbreviation wrapW :=
  (re_sub tbl (space_prefixed WARNING) [RGroup1; RText HWARNING]).
Local Abbreviation add_using_statement := (add_using_statement tbl).
Local Abbreviation replace_debug_calls := (replace_debug_calls tbl).
Local Abbreviation process_file := (process_file tbl).

Lemma nospace_HWARNING : Forall (fun x => is_space x = false) HWARNING.
Proof. cbv [txt list_ascii_of_string map]. repeat constructor. Qed.

Lemma wrapL_wrapL s : wrapL (wrapL s) = wrapL s.
Proof.
  apply wrap_wrap;
    [apply nospace_LOG|done|done|apply nospace_HLOG|by intros; vm_compute..].
Qed.

Lemma wrapW_wrapW s : wrapW (wrapW s) = wrapW s.
Proof.
  apply wrap_wrap;
    [apply nospace_WARNING|done|done|apply nospace_HWARNING
    |by intros; vm_compute..].
Qed.

Lemma wrapL_wrapW s : wrapL (wrapW s) = wrapW (wrapL s).
Proof.
  apply wrap_commute;
    [apply nospace_WARNING|done|apply nospace_LOG|done|done
    |apply nospace_HWARNING|done|apply nospace_HLOG|by intros; vm_compute..].
Qed.

(** X6.  [replace_debug_calls] applied to its own output changes nothing:
    after one pass no call is left that a pass would wrap. *)
Theorem replace_debug_calls_twice content :
  replace_debug_calls (replace_debug_calls content)
  = replace_debug_calls content.
Proof.
  rewrite !replace_debug_calls_eq.
  by rewrite wrapL_wrapW, wrapL_wrapL, wrapW_wrapW.
Qed.

(** X17.  The order of the two substitutions of [replace_debug_calls] does
    not matter: wrapping the [Debug.LogWarning(] calls first and the
    [Debug.Log(] calls second gives the same text. *)
Theorem replace_debug_calls_order content :
  replace_debug_calls content
  = re_sub tbl DEBUG_LOG_PATTERN [RGroup1; RText HLOG]
      (re_sub tbl DEBUG_LOG_WARNING_PATTERN [RGroup1; RText HWARNING] content).
Proof. rewrite replace_debug_calls_eq. symmetry. apply wrapL_wrapW. Qed.

(** X18.  In the output of [replace_debug_calls] no [Debug.Log(] and no
    [Debug.LogWarning(] comes right after a whitespace character: every
    call that is left follows some other character. *)
Theorem replace_debug_calls_leaves_none_after_space content pre w call post :
  call = LOG \/ call = WARNING ->
  replace_debug_calls content = pre ++ [w] ++ call ++ post ->
  is_space w = false.
Proof.
  intros Hcall Heq. destruct (is_space w) eqn:Hw; [exfalso|done].
  rewrite replace_debug_calls_eq in Heq.
  assert (wrapL (wrapW (wrapL content)) = wrapW (wrapL content)) as HL
    by by rewrite wrapL_wrapW, wrapL_wrapL.
  pose proof (wrapW_wrapW (wrapL content)) as HW.
  rewrite Heq in HL, HW.
  destruct Hcall as [-> | ->].
  - rewrite wrapL_after_space in HL by done.
    apply (f_equal length) in HL. rewrite !length_app in HL.
    pose proof (wrap_length tbl LOG HLOG nospace_LOG ltac:(done) pre
                  ltac:(simpl; lia)).
    pose proof (wrap_length tbl LOG HLOG nospace_LOG ltac:(done) post
                  ltac:(simpl; lia)).
    change (length HLOG) with 14 in HL. change (length LOG) with 10 in HL.
    lia.
  - rewrite wrapW_after_space in HW by done.
    apply (f_equal length) in HW. rewrite !length_app in HW.
    pose proof (wrap_length tbl WARNING HWARNING nospace_WARNING ltac:(done)
                  pre ltac:(simpl; lia)).
    pose proof (wrap_length tbl WARNING HWARNING nospace_WARNING ltac:(done)
                  post ltac:(simpl; lia)).
    change (length HWARNING) with 21 in HW.
    change (length WARNING) with 17 in HW. lia.
Qed.

(** X7.  Content in which neither [Debug.Log(] nor [Debug.LogWarning(]
    occurs is returned by [replace_debug_calls] as it is: the files that
    [process_file] leaves out hold nothing the wrapper would rewrite. *)
Theorem replace_debug_calls_nothing_to_wrap content :
  contains LOG content = false -> contains WARNING content = false ->
  replace_debug_calls content = content /\ process_file content = (content, false).
Proof.
  intros HL HW. split.
  - rewrite replace_debug_calls_eq.
    rewrite (wrap_noop tbl LOG HLOG nospace_LOG) by done.
    by rewrite (wrap_noop tbl WARNING HWARNING nospace_WARNING).
  - unfold UpdateDebugLogs.process_file. by rewrite HL, HW.
Qed.

Lemma wrapL_using a b :
  wrapL (a ++ USING_STATEMENT ++ b) = wrapL a ++ USING_STATEMENT ++ wrapL b.
Proof.
  rewrite (wrap_inert tbl LOG HLOG nospace_LOG) by by vm_compute.
  apply (f_equal (app (wrapL a))).
  change (USING_STATEMENT ++ b) with (txt "using" ++ chr " " :: txt "NeuralBreak.Utils;" ++ b).
  rewrite wrapL_nonspaces by (cbv [txt list_ascii_of_string map]; repeat constructor).
  rewrite (re_sub_space_prefixed tbl LOG HLOG nospace_LOG) by done.
  change (space_prefixed_at LOG (chr " " :: txt "NeuralBreak.Utils;" ++ b))
    with (@None nat). cbv iota.
  by rewrite wrapL_nonspaces
    by (cbv [txt list_ascii_of_string map]; repeat constructor).
Qed.

Lemma wrapW_using a b :
  wrapW (a ++ USING_STATEMENT ++ b) = wrapW a ++ USING_STATEMENT ++ wrapW b.
Proof.
  rewrite (wrap_inert tbl WARNING HWARNING nospace_WARNING) by by vm_compute.
  apply (f_equal (app (wrapW a))).
  change (USING_STATEMENT ++ b) with (txt "using" ++ chr " " :: txt "NeuralBreak.Utils;" ++ b).
  rewrite wrapW_nonspaces by (cbv [txt list_ascii_of_string map]; repeat constructor).
  rewrite (re_sub_space_prefixed tbl WARNING HWARNING nospace_WARNING) by done.
  change (space_prefixed_at WARNING (chr " " :: txt "NeuralBreak.Utils;" ++ b))
    with (@None nat). cbv iota.
  by rewrite wrapW_nonspaces
    by (cbv [txt list_ascii_of_string map]; repeat constructor).
Qed.

(** X8.  [replace_debug_calls] never touches the line that
    [add_using_statement] adds: wherever [using NeuralBreak.Utils;] stands,
    it stays, and the text before it and the text after it are rewritten as
    they would be on their own. *)
Theorem replace_debug_calls_keeps_using before after :
  replace_debug_calls (before ++ USING_STATEMENT ++ after)
  = replace_debug_calls before ++ USING_STATEMENT ++ replace_debug_calls after.
Proof. rewrite !replace_debug_calls_eq. by rewrite wrapL_using, wrapW_using. Qed.

Lemma add_using_statement_contains content :
  contains USING_STATEMENT (add_using_statement content) = true.
Proof.
  destruct (add_using_statement_cases tbl content)
    as [[Hc ->]|(_ & p & sep & _ & ->)]; [done|].
  apply contains_app.
Qed.

Lemma replace_debug_calls_contains_using content :
  contains USING_STATEMENT content = true ->
  contains USING_STATEMENT (replace_debug_calls content) = true.
Proof.
  intros (a & b & ->)%contains_iff.
  rewrite !replace_debug_calls_eq, wrapL_using, wrapW_using.
  apply contains_app.
Qed.

(** What [process_file] computes for a file that passes its test. *)
Lemma process_file_eligible content :
  contains LOG content || contains WARNING content = true ->
  (process_file content).1 = replace_debug_calls (add_using_statement content) /\
  ((process_file content).2 = true <->
   replace_debug_calls (add_using_statement content) <> content).
Proof.
  intros He. unfold UpdateDebugLogs.process_file.
  rewrite <- negb_orb, He. cbn [negb].
  destruct (str_eqb _ content) eqn:E; simpl.
  - apply str_eqb_eq in E. split; [done|]. split; [done|]. by intros [].
  - split; [done|]. split; [intros _|done].
    intros Heq. rewrite Heq, str_eqb_refl in E. done.
Qed.

(** X9.  A file that holds [Debug.Log(] or [Debug.LogWarning(] anywhere
    holds the import line after [process_file]; if it did not hold the line
    before, it is rewritten and [True] is returned, whether or not any call
    was wrapped. *)
Theorem process_file_adds_using content :
  contains LOG content || contains WARNING content = true ->
  contains USING_STATEMENT (process_file content).1 = true /\
  (contains USING_STATEMENT content = false ->
   (process_file content).2 = true).
Proof.
  intros He. destruct (process_file_eligible content He) as [H1 H2].
  assert (contains USING_STATEMENT (process_file content).1 = true) as Hc.
  { rewrite H1.
    apply replace_debug_calls_contains_using, add_using_statement_contains. }
  split; [done|]. intros Hno. apply H2. intros Heq.
  rewrite H1, Heq in Hc. congruence.
Qed.

(** X10.  [process_file] run on a file it has processed returns [False] and
    leaves the file as it is. *)
Theorem process_file_twice content :
  process_file (process_file content).1 = ((process_file content).1, false).
Proof.
  destruct (contains LOG content || contains WARNING content) eqn:He.
  - destruct (process_file_eligible content He) as [H1 _].
    set (d := (process_file content).1) in *.
    destruct (contains LOG d || contains WARNING d) eqn:He'.
    + destruct (process_file_eligible d He') as [H1' H2'].
      assert (replace_debug_calls (add_using_statement d) = d) as Hfix.
      { assert (contains USING_STATEMENT d = true) as Hc.
        { rewrite H1. apply replace_debug_calls_contains_using,
            add_using_statement_contains. }
        destruct (add_using_statement_cases tbl d) as [[_ ->]|[Hno _]];
          [|congruence].
        rewrite H1, !replace_debug_calls_eq.
        by rewrite wrapL_wrapW, wrapL_wrapL, wrapW_wrapW. }
      destruct (process_file d) as [d' [|]] eqn:E; simpl in *.
      * by apply H2' in Hfix.
      * rewrite H1', Hfix. done.
    + apply orb_false_iff in He' as [HL HW].
      unfold UpdateDebugLogs.process_file at 1. by rewrite HL, HW.
  - apply orb_false_iff in He as [HL HW].
    unfold UpdateDebugLogs.process_file. by rewrite HL, HW; simpl; rewrite HL, HW.
Qed.

(** The returned flag says whether the text changed. *)
Lemma process_file_flag content :
  (process_file content).2 = negb (str_eqb (process_file content).1 content).
Proof.
  unfold UpdateDebugLogs.process_file.
  destruct (negb (contains LOG content) && negb (contains WARNING content));
    [by rewrite str_eqb_refl|].
  destruct (str_eqb _ content) eqn:E; simpl; [by rewrite str_eqb_refl|].
  by rewrite E.
Qed.

Lemma should_process_file_spec filepath :
  should_process_file filepath
  = negb (contains (txt "Editor") filepath || contains (txt "Debug") filepath).
Proof.
  unfold should_process_file.
  by destruct (contains (txt "Editor") filepath), (contains (txt "Debug") filepath).
Qed.

(** What the loop of [main] does with one file. *)
Local Abbreviation main_step :=
  (fun f : str * str =>
     (f.1, if should_process_file f.1 then (process_file f.2).1 else f.2)).

Lemma main_loop_spec files processed skipped :
  main_loop tbl files processed skipped
  = (map main_step files,
     (processed +
        length (List.filter (fun f => should_process_file f.1 &&
                                      (process_file f.2).2) files),
      skipped +
        length (List.filter (fun f => negb (should_process_file f.1)) files))).
Proof.
  revert processed skipped.
  induction files as [|[filepath content] files IH]; intros processed skipped.
  { simpl. by rewrite !Nat.add_0_r. }
  cbn [UpdateDebugLogs.main_loop List.filter map fst snd].
  destruct (should_process_file filepath).
  - destruct (process_file content) as [content' [|]]; rewrite IH;
      cbn [fst snd andb negb length]; do 2 f_equal; lia.
  - rewrite IH. cbn [fst snd andb negb length]. do 2 f_equal. lia.
Qed.

(** X11.  The loop of [main] treats each file on its own.  A file whose
    path contains [Editor] or [Debug] keeps its text and is counted as
    skipped; every other file holds what [process_file] leaves in it.  The
    count of processed files in the summary is the number of files whose
    text changed, and with the count of skipped files it does not exceed
    the number of files. *)
Theorem main_summary files :
  let result := main tbl files in
  result.1
  = map (fun f =>
           (f.1, if contains (txt "Editor") f.1 || contains (txt "Debug") f.1
                 then f.2 else (process_file f.2).1)) files /\
  result.2.1
  = length (List.filter (fun ff => negb (str_eqb ff.2.2 ff.1.2))
              (zip files result.1)) /\
  result.2.2
  = length (List.filter
              (fun f => contains (txt "Editor") f.1 || contains (txt "Debug") f.1)
              files) /\
  result.2.1 + result.2.2 <= length files.
Proof.
  cbv zeta. unfold UpdateDebugLogs.main. rewrite main_loop_spec.
  cbn [fst snd]. rewrite !Nat.add_0_l.
  assert (forall f, main_step f
            = (f.1, if contains (txt "Editor") f.1 || contains (txt "Debug") f.1
                    then f.2 else (process_file f.2).1)) as Hstep.
  { intros f. rewrite should_process_file_spec.
    by destruct (contains (txt "Editor") f.1 || contains (txt "Debug") f.1). }
  repeat apply conj.
  - apply map_ext, Hstep.
  - induction files as [|f files IH]; [done|].
    cbn [map zip zip_with List.filter fst snd].
    rewrite process_file_flag.
    destruct (should_process_file f.1); cbn [andb].
    + destruct (negb (str_eqb (process_file f.2).1 f.2));
        cbn [length]; by rewrite IH.
    + by rewrite str_eqb_refl.
  - induction files as [|f files IH]; [done|].
    cbn [List.filter]. rewrite should_process_file_spec, negb_involutive.
    destruct (contains (txt "Editor") f.1 || contains (txt "Debug") f.1);
      cbn [length]; by rewrite IH.
  - induction files as [|f files IH]; [done|].
    cbn [List.filter length].
    destruct (should_process_file f.1), (process_file f.2).2;
      cbn [andb negb length]; lia.
Qed.

End LogFileFacts.

(** ** fix_instances.py: the report *)

Section RewriterReport.

Import FixInstances.

Variable tbl : char -> bool.

Local Abbreviation fix_step := (fix_step tbl).
Local Abbreviation fix_file := (fix_file tbl).

(** The loop appends to [changes] the names it finds, in the order of the
    list, and leaves the content alone when it appends none. *)
Lemma fix_steps_changes singletons content changes :
  exists added,
    (fold_left fix_step singletons (content, changes)).2 = changes ++ added /\
    added `sublist_of` singletons /\
    (added = [] ->
     (fold_left fix_step singletons (content, changes)).1 = content).
Proof.
  revert content changes.
  induction singletons as [|name names IH]; intros content changes.
  { exists []. by rewrite app_nil_r. }
  cbn [fold_left FixInstances.fix_step].
  destruct (re_found tbl (instance_pattern name) content).
  - destruct (IH (re_sub tbl (instance_pattern name) (replacement name) content)
                (changes ++ [name])) as (added & -> & Hsub & _).
    exists (name :: added). rewrite <- app_assoc.
    repeat split; [by apply sublist_skip|done].
  - destruct (IH content changes) as (added & -> & Hsub & Hsame).
    exists added. repeat split; [by apply sublist_cons|done].
Qed.

(** A rewritten file comes with a name, an untouched one with [None]. *)
Lemma fix_file_result content :
  match (fix_file content).2 with
  | None => (fix_file content).1 = content
  | Some changes => (fix_file content).1 <> content /\ changes <> []
  end.
Proof.
  unfold FixInstances.fix_file, fix_with.
  destruct (fix_steps_changes REMOVED_SINGLETONS content [])
    as (added & Hch & _ & Hsame).
  destruct (fold_left fix_step REMOVED_SINGLETONS (content, []))
    as [content' changes]. cbn [fst snd] in *. rewrite app_nil_l in Hch.
  subst changes.
  destruct (str_eqb content' content) eqn:E; cbn [negb fst snd]; [done|].
  assert (content' <> content) as Hne.
  { intros ->. by rewrite str_eqb_refl in E. }
  split; [done|]. intros ->. by apply Hne, Hsame.
Qed.

(** X12.  [fix_file] returns either [None], and then the file is as it
    was, or a list of changes, and then the file differs from what it was
    and the list is not empty: it holds names of [REMOVED_SINGLETONS], each
    at most once, in the order of that list.  So the truth test that [main]
    makes on the result never takes a rewritten file for an untouched
    one. *)
Theorem fix_file_changes content :
  match (fix_file content).2 with
  | None => (fix_file content).1 = content
  | Some changes =>
      (fix_file content).1 <> content /\ changes <> [] /\
      changes `sublist_of` REMOVED_SINGLETONS /\ NoDup changes
  end.
Proof.
  unfold FixInstances.fix_file, fix_with.
  destruct (fix_steps_changes REMOVED_SINGLETONS content [])
    as (added & Hch & Hsub & Hsame).
  destruct (fold_left fix_step REMOVED_SINGLETONS (content, []))
    as [content' changes]. cbn [fst snd] in *. rewrite app_nil_l in Hch.
  subst changes.
  destruct (str_eqb content' content) eqn:E; cbn [negb fst snd]; [done|].
  assert (content' <> content) as Hne.
  { intros ->. by rewrite str_eqb_refl in E. }
  repeat apply conj; [done| |done|].
  - intros ->. by apply Hne, Hsame.
  - apply (sublist_NoDup _ REMOVED_SINGLETONS); [|done].
    apply (bool_decide_unpack _). by vm_compute.
Qed.

Lemma main_loop_totals files total_files total_changes :
  main_loop tbl files total_files total_changes
  = (map (fun f => (f.1, (fix_file f.2).1)) files,
     (total_files +
        length (List.filter (fun f => negb (str_eqb (fix_file f.2).1 f.2)) files),
      total_changes +
        list_sum (map (fun f => length (default [] (fix_file f.2).2)) files))).
Proof.
  revert total_files total_changes.
  induction files as [|[cs_file content] files IH];
    intros total_files total_changes.
  { simpl. by rewrite !Nat.add_0_r. }
  cbn [FixInstances.main_loop map List.filter list_sum fst snd].
  pose proof (fix_file_result content) as Hch.
  destruct (fix_file content) as [content' [changes|]]; cbn [fst snd] in *.
  - destruct Hch as (Hne & Hnil).
    assert (str_eqb content' content = false) as ->.
    { destruct (str_eqb content' content) eqn:E; [|done].
      by apply str_eqb_eq in E. }
    destruct changes as [|name changes]; [done|].
    rewrite IH. unfold list_sum. cbn [negb length default from_option foldr id].
    do 2 f_equal; lia.
  - subst content'. rewrite str_eqb_refl, IH. unfold list_sum.
    cbn [negb length default from_option foldr id]. do 2 f_equal; lia.
Qed.

(** X13.  The loop of [main] treats each file on its own, and its closing
    line is accurate: the number of files it reports is the number of files
    whose text changed, and the number of references it reports is the
    number of names found, summed over the files; no file is counted
    without a name. *)
Theorem main_totals files :
  let result := main tbl files in
  result.1 = map (fun f => (f.1, (fix_file f.2).1)) files /\
  result.2.1
  = length (List.filter (fun ff => negb (str_eqb ff.2.2 ff.1.2))
              (zip files result.1)) /\
  result.2.2
  = list_sum (map (fun f => length (default [] (fix_file f.2).2)) files) /\
  result.2.1 <= result.2.2.
Proof.
  cbv zeta. unfold FixInstances.main. rewrite main_loop_totals.
  cbn [fst snd]. rewrite !Nat.add_0_l. repeat apply conj; [done| |done|].
  - induction files as [|f files IH]; [done|].
    cbn [map zip zip_with List.filter fst snd].
    destruct (negb (str_eqb (fix_file f.2).1 f.2)); cbn [length]; by rewrite IH.
  - induction files as [|f files IH]; [done|].
    cbn [map List.filter list_sum].
    pose proof (fix_file_result f.2) as Hch.
    destruct (fix_file f.2) as [content' [changes|]]; cbn [fst snd] in *.
    + destruct Hch as (_ & Hnil). destruct changes; [done|].
      unfold list_sum in *.
      destruct (negb (str_eqb content' f.2));
        cbn [length default from_option foldr id]; lia.
    + subst content'. rewrite str_eqb_refl. unfold list_sum in *.
      cbn [negb length default from_option foldr id]. lia.
Qed.

End RewriterReport.

(** ** fix_instances.py: what one substitution does *)

Section InstanceSub.

Import FixInstances.

Variable tbl : char -> bool.

Local Abbreviation word_at := (word_at tbl).
Local Abbreviation DOT_INSTANCE := (txt ".Instance").

Lemma startswith_app_split a b s :
  startswith (a ++ b) s = startswith a s && startswith b (drop (length a) s).
Proof.
  revert s. induction a as [|x a IH]; intros s; [done|].
  destruct s as [|y s]; simpl; [done|].
  by rewrite IH, andb_assoc.
Qed.

Lemma startswith_length p s : startswith p s = true -> length p <= length s.
Proof.
  intros H%startswith_prefix. apply (f_equal length) in H.
  rewrite length_app in H. lia.
Qed.

Variable name : str.
Hypothesis name_word : word_at (head name) = true.

Local Abbreviation R := (instance_pattern name).
Local Abbreviation T := (replacement name).
Local Abbreviation NEW := (txt "FindObjectOfType<" ++ name ++ txt ">()").

Lemma instance_at_length p s :
  instance_at tbl name p s = true -> length name + 9 <= length s.
Proof.
  unfold instance_at.
  intros [[_ H]%andb_true_iff _]%andb_true_iff.
  apply startswith_length in H. by rewrite length_app in H.
Qed.

(** The one way the pattern matches at the cursor. *)
Lemma match_at_instance p s :
  match_at tbl R p s
  = if instance_at tbl name p s
    then Some (Cfg (Some (chr "e")) (drop (length name + 9) s) None)
    else None.
Proof.
  unfold instance_at. rewrite startswith_app_split.
  unfold match_at, instance_pattern, Lit.
  rewrite run_Seq, run_Wordb. cbn [prev rest].
  destruct (startswith name s) eqn:Hs.
  - assert (word_at (head s) = true) as Hh.
    { apply startswith_prefix in Hs. rewrite Hs.
      destruct name as [|a nm]; [done|]. done. }
    rewrite Hh. destruct (word_at p); cbn [xorb negb andb flat_map]; [done|].
    rewrite app_nil_r, run_Seq, run_LitS. cbn [rest]. rewrite Hs.
    cbn [flat_map]. rewrite app_nil_r, run_Seq, run_LitS. cbn [rest adv].
    destruct (startswith DOT_INSTANCE (drop (length name) s)) eqn:Hi; [|done].
    cbn [flat_map]. rewrite app_nil_r, run_Wordb. cbn [prev rest adv].
    apply startswith_prefix in Hi.
    change (length DOT_INSTANCE) with 9 in *.
    assert (take 9 (drop (length name) s) = DOT_INSTANCE) as Ht
      by (by rewrite Hi).
    rewrite drop_drop, Ht.
    cbn [last txt list_ascii_of_string map].
    change (is_word tbl (N_of_ascii "e")) with true. cbn [xorb andb].
    destruct (word_at (head (drop (length name + 9) s))); [done|].
    cbn [negb head]. unfold adv. cbn [prev rest grp1].
    by rewrite drop_drop, Ht.
  - rewrite andb_false_r. cbn [andb].
    destruct (xorb (word_at p) (word_at (head s))); [|done].
    cbn [flat_map]. rewrite app_nil_r, run_Seq, run_LitS. cbn [rest].
    by rewrite Hs.
Qed.

(** The search finds a match exactly when there is one. *)
Lemma search_from_instance p s :
  match search_from tbl R p s with Some _ => true | None => false end
  = instance_in tbl name p s.
Proof.
  revert p. induction s as [|x s IH]; intros p;
    cbn [search_from instance_in]; rewrite match_at_instance.
  - by destruct (instance_at tbl name p []).
  - destruct (instance_at tbl name p (x :: s)); [done|]. cbn [orb].
    rewrite <- IH. by destruct (search_from tbl R (Some x) s) as [[? ?]|].
Qed.

Lemma re_found_instance s : re_found tbl R s = instance_in tbl name None s.
Proof. apply search_from_instance. Qed.

(** The substitution, free of fuel. *)
Lemma sub_loop_instance_fuel n n' p s :
  length s < n -> length s < n' ->
  sub_loop tbl n R T p s = sub_loop tbl n' R T p s.
Proof.
  revert n' p s. induction n as [|n IH]; intros [|n'] p s Hn Hn'; try lia.
  cbn [sub_loop]. rewrite match_at_instance.
  destruct (instance_at tbl name p s) eqn:E.
  - apply instance_at_length in E. cbn [rest prev].
    rewrite length_drop.
    destruct (length s - (length name + 9) <? length s) eqn:Hlt.
    + f_equal. apply IH; rewrite length_drop; lia.
    + apply Nat.ltb_ge in Hlt. lia.
  - destruct s as [|x s]; [done|]. f_equal. apply IH; simpl in *; lia.
Qed.

Lemma sub_loop_instance p s :
  sub_loop tbl (S (length s)) R T p s
  = if instance_at tbl name p s
    then NEW ++ sub_loop tbl (S (length (drop (length name + 9) s))) R T
                  (Some (chr "e")) (drop (length name + 9) s)
    else match s with
         | [] => []
         | x :: s' => x :: sub_loop tbl (S (length s')) R T (Some x) s'
         end.
Proof.
  change (sub_loop tbl (S (length s)) R T p s)
    with (match match_at tbl R p s with
          | Some c' =>
              if length (rest c') <? length s
              then expand T c' ++ sub_loop tbl (length s) R T (prev c') (rest c')
              else expand T c' ++
                   match s with
                   | [] => []
                   | x :: s' => x :: sub_loop tbl (length s) R T (Some x) s'
                   end
          | None =>
              match s with
              | [] => []
              | x :: s' => x :: sub_loop tbl (length s) R T (Some x) s'
              end
          end).
  rewrite match_at_instance.
  destruct (instance_at tbl name p s) eqn:E.
  - apply instance_at_length in E. cbn [rest prev expand flat_map].
    rewrite length_drop.
    destruct (length s - (length name + 9) <? length s) eqn:Hlt.
    + f_equal; [apply app_nil_r|].
      apply sub_loop_instance_fuel; rewrite ?length_drop; lia.
    + apply Nat.ltb_ge in Hlt. lia.
  - by destruct s.
Qed.

Local Abbreviation F p s := (sub_loop tbl (S (length s%list)) R T p s%list).

(** After a word character the cursor moves on. *)
Lemma sub_after_word p s :
  word_at p = true ->
  F p s = match s with [] => [] | x :: s' => x :: F (Some x) s' end.
Proof.
  intros Hp. rewrite sub_loop_instance. unfold instance_at. by rewrite Hp.
Qed.

Lemma sub_after_word_head p s : word_at p = true -> head (F p s) = head s.
Proof. intros Hp. rewrite sub_after_word by done. by destruct s. Qed.

(** The new text is longer than the text it replaces. *)
Lemma sub_loop_instance_length s :
  forall p, length s <= length (F p s) /\
            (instance_in tbl name p s = true -> length s < length (F p s)).
Proof.
  remember (length s) as n eqn:Hn. revert s Hn.
  induction (lt_wf n) as [n _ IH]. intros s -> p.
  rewrite sub_loop_instance.
  destruct (instance_at tbl name p s) eqn:E.
  - apply instance_at_length in E.
    destruct (IH (length (drop (length name + 9) s))
                ltac:(rewrite length_drop; lia) _ eq_refl (Some (chr "e")))
      as [Hle _].
    pose proof (length_drop s (length name + 9)) as Hd. rewrite !length_app.
    change (length (txt "FindObjectOfType<")) with 17.
    change (length (txt ">()")) with 3.
    split; [|intros _]; lia.
  - destruct s as [|x s].
    { split; [done|]. cbn [instance_in]. by rewrite E. }
    destruct (IH (length s) ltac:(simpl; lia) s eq_refl (Some x)) as [Hle Hlt].
    cbn [length]. split; [lia|].
    cbn [instance_in]. rewrite E. cbn [orb]. intros H%Hlt. lia.
Qed.

(** The pattern for a second name: where the substitution lets it match. *)
Variable other : str.
Hypothesis other_word : word_at (head other) = true.

Local Abbreviation LO := (other ++ DOT_INSTANCE).

Hypothesis new_no_start : forall post,
  forallb (fun j => negb (startswith LO (drop j NEW ++ post)))
          (seq 0 (length NEW)) = true.
Hypothesis new_no_end : forall post,
  forallb (fun i => negb (startswith (drop i LO) (NEW ++ post)))
          (seq 0 (length LO)) = true.

Lemma new_no_start_at post j :
  j < length NEW -> startswith LO (drop j NEW ++ post) = false.
Proof.
  intros Hj. pose proof (new_no_start post) as H.
  rewrite forallb_forall in H. apply negb_true_iff, (H j), in_seq. lia.
Qed.

Lemma new_no_end_at post m :
  m <> [] -> m `suffix_of` LO -> startswith m (NEW ++ post) = false.
Proof.
  intros Hm [k Hk]. pose proof (new_no_end post) as H.
  rewrite forallb_forall in H.
  assert (length k < length LO) as Hlen.
  { apply (f_equal length) in Hk. rewrite (length_app k) in Hk.
    destruct m; [done|]. simpl in Hk. lia. }
  assert (m = drop (length k) LO) as -> by by rewrite Hk, drop_app_length.
  apply negb_true_iff, (H (length k)), in_seq. lia.
Qed.

Lemma prev_after_cons p x a : prev_after p (x :: a) = prev_after (Some x) a.
Proof. unfold prev_after. rewrite last_cons. by destruct (last a). Qed.

(** No match of the second pattern starts inside text in which its literal
    starts nowhere. *)
Lemma instance_in_skip a post q :
  (forall j, j < length a -> startswith LO (drop j a ++ post) = false) ->
  instance_in tbl other q (a ++ post) = instance_in tbl other (prev_after q a) post.
Proof.
  revert q. induction a as [|c a IH]; intros q Hno; [done|].
  pose proof (Hno 0 ltac:(simpl; lia)) as H0. rewrite drop_0 in H0.
  cbn [app instance_in] in H0 |- *. unfold instance_at at 1.
  rewrite H0, andb_false_r. cbn [andb orb].
  rewrite IH, prev_after_cons; [done|].
  intros j Hj. apply (Hno (S j)). simpl. lia.
Qed.

(** Where the output starts with the end of the second literal, it was
    copied from the input. *)
Lemma sub_copied m :
  m `suffix_of` LO ->
  forall p s, startswith m (F p s) = true ->
    startswith m s = true /\
    drop (length m) (F p s) = F (prev_after p m) (drop (length m) s).
Proof.
  induction m as [|a m IH]; intros Hsuf p s Hs; [done|].
  rewrite sub_loop_instance in Hs |- *.
  destruct (instance_at tbl name p s) eqn:E.
  { by rewrite new_no_end_at in Hs. }
  destruct s as [|x s]; [done|].
  cbn [startswith] in Hs. apply andb_true_iff in Hs as [->%N.eqb_eq Hs].
  destruct (IH (suffix_cons_l _ _ _ Hsuf) (Some x) s Hs) as [Hs' Hd].
  cbn [startswith length drop]. rewrite N.eqb_refl, Hs', prev_after_cons.
  done.
Qed.

Lemma instance_free_lift k t p :
  instance_free tbl name other (prev_after p k) t = true ->
  instance_free tbl name other p (k ++ t) = true.
Proof.
  revert p. induction k as [|c k IH]; intros p H; [done|].
  cbn [app instance_free]. rewrite (IH (Some c)); [apply orb_true_r|].
  by rewrite <- (prev_after_cons p).
Qed.

Lemma last_new : last NEW = Some (chr ")").
Proof. by rewrite app_assoc, last_app. Qed.

Lemma last_literal a : last (a ++ DOT_INSTANCE) = Some (chr "e").
Proof. by rewrite last_app. Qed.

(** A match of the second pattern in the output of the substitution lies
    on a match of it in the input which the first pattern does not match. *)
Lemma sub_loop_instance_free s :
  forall p q, q = p \/ word_at (head s) = false ->
    instance_in tbl other q (F p s) = true ->
    instance_free tbl name other p s = true.
Proof.
  remember (length s) as n eqn:Hn. revert s Hn.
  induction (lt_wf n) as [n _ IH]. intros s -> p q Hrel Hin.
  pose proof (sub_loop_instance p s) as Heq.
  destruct (instance_at tbl name p s) eqn:E.
  - rewrite Heq in Hin.
    rewrite instance_in_skip in Hin by (intros; by apply new_no_start_at).
    unfold prev_after in Hin. rewrite last_new in Hin.
    pose proof (instance_at_length _ _ E) as Hlen.
    unfold instance_at in E.
    apply andb_true_iff in E as [[_ Hs]%andb_true_iff Hw%negb_true_iff].
    apply startswith_prefix in Hs. rewrite length_app in Hs.
    change (length DOT_INSTANCE) with 9 in Hs.
    rewrite Hs. apply instance_free_lift.
    unfold prev_after. rewrite last_literal.
    apply (IH (length (drop (length name + 9) s))
              ltac:(rewrite length_drop; lia) _ eq_refl _ (Some (chr ")")));
      [by right|done].
  - destruct s as [|x s].
    { rewrite Heq in Hin. simpl in Hin. unfold instance_at in Hin.
      destruct other; simpl in Hin; by rewrite andb_false_r in Hin. }
    cbn [instance_free]. rewrite E. cbn [negb]. rewrite andb_true_r.
    destruct (instance_at tbl other q (F p (x :: s))) eqn:Eo.
    + unfold instance_at in Eo.
      apply andb_true_iff in Eo as [[Hq%negb_true_iff Hs]%andb_true_iff Hw].
      destruct (sub_copied LO ltac:(done) p (x :: s) Hs) as [Hs' Hd].
      rewrite length_app in Hd. change (length DOT_INSTANCE) with 9 in Hd.
      rewrite Hd in Hw. unfold prev_after in Hw. rewrite last_literal in Hw.
      rewrite sub_after_word_head in Hw by done.
      unfold instance_at. rewrite Hs', Hw.
      assert (word_at p = false) as ->; [|done].
      destruct Hrel as [<-|Hx]; [done|].
      apply startswith_prefix in Hs'. rewrite Hs' in Hx.
      destruct other; [done|]. cbn in Hx, other_word. congruence.
    + rewrite Heq in Hin, Eo. cbn [instance_in] in Hin. rewrite Eo in Hin.
      cbn [orb] in Hin.
      rewrite (IH (length s) ltac:(simpl; lia) s eq_refl (Some x) (Some x));
        [apply orb_true_r|by left|done].
Qed.

Lemma instance_free_in p s :
  instance_free tbl name other p s = true -> instance_in tbl other p s = true.
Proof.
  revert p. induction s as [|x s IH]; intros p; cbn [instance_free instance_in].
  - rewrite !orb_false_r. by intros [H _]%andb_true_iff.
  - intros [[H _]%andb_true_iff|H]%orb_true_iff.
    + by rewrite H.
    + rewrite (IH _ H). apply orb_true_r.
Qed.

Lemma re_sub_instance_free s :
  instance_in tbl other None (re_sub tbl R T s) = true ->
  instance_free tbl name other None s = true.
Proof.
  intros H. apply (sub_loop_instance_free s None None); [by left|done].
Qed.

End InstanceSub.

(** The substitution for one name keeps the matches of another. *)
Section InstanceKeep.

Import FixInstances.

Variable tbl : char -> bool.

Local Abbreviation word_at := (word_at tbl).
Local Abbreviation DOT_INSTANCE := (txt ".Instance").

Variables (name other : str).
Hypothesis name_word : word_at (head name) = true.

Local Abbreviation R := (instance_pattern name).
Local Abbreviation T := (replacement name).
Local Abbreviation NEW := (txt "FindObjectOfType<" ++ name ++ txt ">()").
Local Abbreviation LA := (name ++ DOT_INSTANCE).
Local Abbreviation LO := (other ++ DOT_INSTANCE).
Local Abbreviation F p s := (sub_loop tbl (S (length s%list)) R T p s%list).

(** Inside the literal of the second name the first pattern has no match:
    its literal does not start there, or a letter or digit comes before. *)
Hypothesis other_kept : forall post,
  forallb (fun j => match last (take j LO) with
                    | Some z => ascii_alnum z
                    | None => false
                    end || negb (startswith LA (drop j LO ++ post)))
          (seq 0 (length LO)) = true.
Hypothesis lit_no_start : forall post,
  forallb (fun j => negb (startswith LO (drop j LA ++ post)))
          (seq 0 (length LA)) = true.
Hypothesis new_no_start : forall post,
  forallb (fun j => negb (startswith LO (drop j NEW ++ post)))
          (seq 0 (length NEW)) = true.

Lemma ascii_alnum_word z : ascii_alnum z = true -> is_word tbl z = true.
Proof.
  intros H. unfold is_word. destruct (N.ltb_spec z 128) as [_|Hz].
  - by rewrite H.
  - unfold ascii_alnum in H.
    repeat match goal with
           | H : _ || _ = true |- _ => apply orb_true_iff in H as [H|H]
           | H : _ && _ = true |- _ => apply andb_true_iff in H as [_ H]
           end; apply N.leb_le in H; lia.
Qed.

Lemma instance_at_in n p s :
  instance_at tbl n p s = true -> instance_in tbl n p s = true.
Proof. intros H. destruct s; cbn [instance_in]; by rewrite H. Qed.

(** Text the first pattern matches nowhere in is copied. *)
Lemma sub_copies m :
  forall p s, startswith m s = true ->
    (forall j, j < length m ->
       instance_at tbl name (prev_after p (take j m)) (drop j s) = false) ->
    F p s = m ++ F (prev_after p m) (drop (length m) s).
Proof.
  induction m as [|a m IH]; intros p s Hs Hno; [done|].
  destruct s as [|x s]; [done|].
  cbn [startswith] in Hs. apply andb_true_iff in Hs as [->%N.eqb_eq Hs].
  rewrite (sub_loop_instance tbl name name_word).
  pose proof (Hno 0 ltac:(simpl; lia)) as H0.
  change (prev_after p (take 0 (x :: m))) with p in H0.
  rewrite drop_0 in H0. rewrite H0.
  rewrite (IH (Some x) s Hs), prev_after_cons; [done|].
  intros j Hj. pose proof (Hno (S j) ltac:(simpl; lia)) as Hj'.
  cbn [take drop] in Hj'. by rewrite prev_after_cons in Hj'.
Qed.

Lemma sub_keeps_occurrence p s :
  instance_at tbl other p s = true ->
  F p s = LO ++ F (Some (chr "e")) (drop (length other + 9) s).
Proof.
  intros E. unfold instance_at in E.
  apply andb_true_iff in E as [[_ Hs]%andb_true_iff _].
  pose proof (sub_copies LO p s Hs) as H.
  unfold prev_after in H at 2. rewrite last_literal, length_app in H.
  change (length DOT_INSTANCE) with 9 in H. apply H.
  intros j Hj.
  assert (j < length LO) as Hj' by (rewrite length_app; exact Hj).
  pose proof (other_kept (drop (length LO) s)) as Hk.
  rewrite forallb_forall in Hk.
  specialize (Hk j ltac:(apply in_seq; lia)).
  apply startswith_prefix in Hs.
  assert (drop j s = drop j LO ++ drop (length LO) s) as ->.
  { rewrite Hs at 1. rewrite drop_app_le by lia. done. }
  unfold instance_at.
  apply orb_true_iff in Hk as [Hk|Hk%negb_true_iff].
  - unfold prev_after. destruct (last (take j LO)) as [z|]; [|done].
    simpl. by rewrite (ascii_alnum_word z Hk).
  - by rewrite Hk, andb_false_r.
Qed.

Lemma sub_loop_instance_kept s :
  forall p q, (word_at q = true -> word_at p = true) ->
    instance_in tbl other p s = true ->
    instance_in tbl other q (F p s) = true.
Proof.
  remember (length s) as n eqn:Hn. revert s Hn.
  induction (lt_wf n) as [n _ IH]. intros s -> p q Hrel Hin.
  destruct (instance_at tbl other p s) eqn:Eo.
  { rewrite (sub_keeps_occurrence p s Eo). apply instance_at_in.
    unfold instance_at in Eo |- *.
    apply andb_true_iff in Eo as [[Hp%negb_true_iff _]%andb_true_iff Hw].
    assert (word_at q = false) as ->.
    { destruct (word_at q); [|done]. by rewrite Hrel in Hp. }
    rewrite startswith_app. change 9 with (length DOT_INSTANCE).
    rewrite <- length_app, drop_app_length.
    rewrite (sub_after_word_head tbl name name_word) by done.
    rewrite length_app. exact Hw. }
  rewrite (sub_loop_instance tbl name name_word).
  destruct (instance_at tbl name p s) eqn:E.
  - pose proof (instance_at_length _ _ _ _ E) as Hlen.
    rewrite (instance_in_skip tbl other NEW)
      by (intros; by apply new_no_start_at).
    unfold prev_after. rewrite last_new.
    apply (IH (length (drop (length name + 9) s))
              ltac:(rewrite length_drop; lia) _ eq_refl (Some (chr "e")));
      [done|].
    unfold instance_at in E.
    apply andb_true_iff in E as [[_ Hs]%andb_true_iff _].
    apply startswith_prefix in Hs. rewrite length_app in Hs.
    change (length DOT_INSTANCE) with 9 in Hs. rewrite Hs in Hin.
    rewrite (instance_in_skip tbl other LA) in Hin.
    + unfold prev_after in Hin. by rewrite last_literal in Hin.
    + intros j Hj. pose proof (lit_no_start (drop (length name + 9) s)) as Hk.
      rewrite forallb_forall in Hk. apply negb_true_iff, Hk, in_seq. lia.
  - destruct s as [|x s]; cbn [instance_in] in Hin; rewrite Eo in Hin;
      [done|]. cbn [orb] in Hin.
    cbn [instance_in]. rewrite (IH (length s) ltac:(simpl; lia) s eq_refl
                                  (Some x) (Some x)); [apply orb_true_r|done..].
Qed.

Lemma re_sub_instance_kept s :
  instance_in tbl other None s = true ->
  instance_in tbl other None (re_sub tbl R T s) = true.
Proof. by apply sub_loop_instance_kept. Qed.

End InstanceKeep.

(** ** fix_instances.py: a second run *)

Section RewriterReruns.

Import FixInstances.

Variable tbl : char -> bool.

Local Abbreviation word_at := (word_at tbl).
Local Abbreviation fix_step := (fix_step tbl).
Local Abbreviation fix_file := (fix_file tbl).
Local Abbreviation DOT_INSTANCE := (txt ".Instance").
Local Abbreviation NEW name := (txt "FindObjectOfType<" ++ name ++ txt ">()").

Lemma instance_free_same name p s : instance_free tbl name name p s = false.
Proof.
  revert p. induction s as [|x s IH]; intros p; cbn [instance_free];
    rewrite andb_negb_r; [done|apply IH].
Qed.

(** The new text of one name and the literal of another: neither starts
    inside the other, whatever follows. *)
Lemma names_apart :
  Forall (fun name =>
    Forall (fun other =>
      (forall post,
         forallb (fun j => negb (startswith (other ++ DOT_INSTANCE)
                                   (drop j (NEW name) ++ post)))
                 (seq 0 (length (NEW name))) = true) /\
      (forall post,
         forallb (fun i => negb (startswith (drop i (other ++ DOT_INSTANCE))
                                   (NEW name ++ post)))
                 (seq 0 (length (other ++ DOT_INSTANCE))) = true))
      REMOVED_SINGLETONS) REMOVED_SINGLETONS.
Proof.
  repeat (apply Forall_cons; split); try apply Forall_nil;
    split; intros post; vm_compute; reflexivity.
Qed.

(** Two different names of the list: inside the literal of one the pattern
    of the other has no match, and the literal of one does not start inside
    the literal of the other. *)
Lemma names_distinct_apart :
  Forall (fun name : str =>
    Forall (fun other : str =>
      name = other \/
      ((forall post : str,
          forallb (fun j => match last (take j (other ++ DOT_INSTANCE)) with
                            | Some z => ascii_alnum z
                            | None => false
                            end ||
                            negb (startswith (name ++ DOT_INSTANCE)
                                    (drop j (other ++ DOT_INSTANCE) ++ post)))
                  (seq 0 (length (other ++ DOT_INSTANCE))) = true) /\
       (forall post : str,
          forallb (fun j => negb (startswith (other ++ DOT_INSTANCE)
                                    (drop j (name ++ DOT_INSTANCE) ++ post)))
                  (seq 0 (length (name ++ DOT_INSTANCE))) = true)))
      REMOVED_SINGLETONS) REMOVED_SINGLETONS.
Proof.
  repeat (apply Forall_cons; split); try (by apply Forall_nil);
    first [ left; reflexivity
          | right; split; intros post; vm_compute; reflexivity ].
Qed.

Lemma instance_in_intro name p before after :
  word_at (prev_after p before) = false -> word_at (head after) = false ->
  instance_in tbl name p (before ++ name ++ DOT_INSTANCE ++ after) = true.
Proof.
  revert p. induction before as [|x before IH]; intros p Hp Ha.
  - rewrite app_nil_l.
    assert (instance_at tbl name p (name ++ DOT_INSTANCE ++ after) = true) as H.
    { unfold instance_at. change (prev_after p []) with p in Hp. rewrite Hp.
      rewrite (app_assoc name), startswith_app.
      change 9 with (length DOT_INSTANCE). rewrite <- length_app.
      by rewrite drop_app_length, Ha. }
    destruct (name ++ DOT_INSTANCE ++ after); cbn [instance_in]; by rewrite H.
  - cbn [app instance_in]. rewrite IH; [apply orb_true_r| |done].
    by rewrite <- (prev_after_cons p).
Qed.

(** One round of the loop leaves no match for its own name, and brings in
    none for another name of the list. *)
Lemma fix_step_clear name other content changes :
  name ∈ REMOVED_SINGLETONS -> other ∈ REMOVED_SINGLETONS ->
  other = name \/ instance_in tbl other None content = false ->
  instance_in tbl other None (fix_step (content, changes) name).1 = false.
Proof.
  intros Hn Ho Hc.
  pose proof (names_start_with_word_char tbl) as Hw.
  rewrite Forall_forall in Hw.
  pose proof names_apart as Hap. rewrite Forall_forall in Hap.
  specialize (Hap _ Hn). rewrite Forall_forall in Hap.
  destruct (Hap _ Ho) as [Hstart Hend].
  cbn [FixInstances.fix_step]. rewrite (re_found_instance tbl name (Hw _ Hn)).
  destruct (instance_in tbl name None content) eqn:E; cbn [fst].
  - destruct (instance_in tbl other None (re_sub tbl _ _ content)) eqn:E2;
      [|done].
    apply (re_sub_instance_free tbl name (Hw _ Hn) other (Hw _ Ho) Hstart Hend)
      in E2.
    destruct Hc as [->|Hc]; [by rewrite instance_free_same in E2|].
    apply (instance_free_in tbl) in E2. congruence.
  - destruct Hc as [->|Hc]; done.
Qed.

Lemma fix_steps_clear todo :
  forall finished content changes,
    (forall n, n ∈ finished ++ todo -> n ∈ REMOVED_SINGLETONS) ->
    Forall (fun n => instance_in tbl n None content = false) finished ->
    Forall (fun n => instance_in tbl n None
                       (fold_left fix_step todo (content, changes)).1 = false)
           (finished ++ todo).
Proof.
  induction todo as [|name todo IH]; intros finished content changes Hin Hf.
  { by rewrite app_nil_r. }
  cbn [fold_left].
  assert (name ∈ REMOVED_SINGLETONS) as Hn.
  { apply Hin, elem_of_app. right. by left. }
  pose proof (fun other Ho Hc =>
                fix_step_clear name other content changes Hn Ho Hc) as Hstep.
  destruct (fix_step (content, changes) name) as [content1 changes1].
  rewrite cons_middle, app_assoc. apply IH.
  - intros n. rewrite <- app_assoc. apply Hin.
  - apply Forall_app. split.
    + rewrite Forall_forall in Hf |- *. intros m Hm. apply Hstep.
      * apply Hin, elem_of_app. by left.
      * right. by apply Hf.
    + apply Forall_singleton, Hstep; [done|by left].
Qed.

Lemma fix_steps_nothing singletons content changes :
  Forall (fun n => re_found tbl (instance_pattern n) content = false) singletons ->
  fold_left fix_step singletons (content, changes) = (content, changes).
Proof.
  induction 1 as [|name names Hn _ IH]; [done|].
  cbn [fold_left FixInstances.fix_step]. by rewrite Hn.
Qed.

Lemma fix_file_content content :
  (fix_file content).1 = (fold_left fix_step REMOVED_SINGLETONS (content, [])).1.
Proof.
  unfold FixInstances.fix_file, fix_with.
  destruct (fold_left fix_step REMOVED_SINGLETONS (content, []))
    as [content' changes].
  destruct (str_eqb content' content) eqn:E; [|done].
  by apply str_eqb_eq in E.
Qed.

(** X14.  After [fix_file] no name of [REMOVED_SINGLETONS] is left with a
    reference the search would find: wherever [Name.Instance] still stands,
    a word character comes right before it or right after it.  So
    [fix_file] run on the file again returns [None] and leaves it as it
    is. *)
Theorem fix_file_twice content :
  (forall name, name ∈ REMOVED_SINGLETONS ->
     re_found tbl (instance_pattern name) (fix_file content).1 = false) /\
  (forall name before after, name ∈ REMOVED_SINGLETONS ->
     (fix_file content).1 = before ++ name ++ DOT_INSTANCE ++ after ->
     word_at (last before) = true \/ word_at (head after) = true) /\
  fix_file (fix_file content).1 = ((fix_file content).1, None).
Proof.
  pose proof (names_start_with_word_char tbl) as Hw.
  rewrite Forall_forall in Hw.
  assert (forall name, name ∈ REMOVED_SINGLETONS ->
            re_found tbl (instance_pattern name) (fix_file content).1 = false)
    as Hclear.
  { intros name Hn. rewrite (re_found_instance tbl name (Hw _ Hn)).
    rewrite fix_file_content.
    pose proof (fix_steps_clear REMOVED_SINGLETONS [] content []
                  ltac:(done) ltac:(done)) as H.
    rewrite Forall_forall in H. by apply H. }
  split; [done|]. split.
  { intros name before after Hn Heq. specialize (Hclear name Hn).
    rewrite (re_found_instance tbl name (Hw _ Hn)), Heq in Hclear.
    destruct (word_at (last before)) eqn:Hb; [by left|].
    destruct (word_at (head after)) eqn:Ha; [by right|].
    rewrite instance_in_intro in Hclear; [done| |done].
    unfold prev_after. by destruct (last before). }
  unfold FixInstances.fix_file at 1. unfold fix_with.
  rewrite fix_steps_nothing by by apply Forall_forall.
  by rewrite str_eqb_refl.
Qed.

(** The content never gets shorter, and gets longer when a name is found. *)
Lemma fix_steps_length singletons :
  forall content changes,
    Forall (fun n => word_at (head n) = true) singletons ->
    length content
    <= length (fold_left fix_step singletons (content, changes)).1 /\
    (forall n, n ∈ singletons -> instance_in tbl n None content = true ->
       length content
       < length (fold_left fix_step singletons (content, changes)).1).
Proof.
  induction singletons as [|name names IH]; intros content changes Hw.
  { split; [done|]. by intros n Hn%elem_of_nil. }
  apply Forall_cons in Hw as [Hname Hw].
  cbn [fold_left FixInstances.fix_step].
  rewrite (re_found_instance tbl name Hname).
  destruct (instance_in tbl name None content) eqn:E.
  - destruct (sub_loop_instance_length tbl name Hname content None)
      as [_ Hlt].
    specialize (Hlt E).
    destruct (IH (re_sub tbl (instance_pattern name) (replacement name) content)
                (changes ++ [name]) Hw) as [Hle _].
    fold (re_sub tbl (instance_pattern name) (replacement name) content)
      in Hlt.
    split; [apply Nat.lt_le_incl|intros n _ _];
      (eapply Nat.lt_le_trans; [exact Hlt|exact Hle]).
  - destruct (IH content changes Hw) as [Hle Hlt]. split; [done|].
    intros n [->|Hn]%elem_of_cons; [congruence|by apply Hlt].
Qed.

(** X15.  A reference to a name of [REMOVED_SINGLETONS] that stands
    between characters that are not word characters (or at an end of the
    content) is never missed: [fix_file] rewrites the file, returns a list
    of changes, and the content gets longer. *)
Theorem fix_file_finds_reference name before after :
  name ∈ REMOVED_SINGLETONS ->
  word_at (last before) = false -> word_at (head after) = false ->
  let content := before ++ name ++ DOT_INSTANCE ++ after in
  (fix_file content).2 <> None /\
  length content < length (fix_file content).1.
Proof.
  intros Hn Hb Ha content.
  assert (instance_in tbl name None content = true) as Hin.
  { apply instance_in_intro; [|done]. unfold prev_after.
    by destruct (last before). }
  destruct (fix_steps_length REMOVED_SINGLETONS content []
              (names_start_with_word_char tbl)) as [_ Hlt].
  specialize (Hlt name Hn Hin). rewrite <- fix_file_content in Hlt.
  split; [|done].
  pose proof (fix_file_result tbl content) as Hch.
  destruct (fix_file content).2; [done|]. rewrite Hch in Hlt. lia.
Qed.

End RewriterReruns.

(** ** fix_instances.py: text that no pass touches *)

(** One substitution pass around an identifier.  The one character of a
    match that is not a word character is its dot.  So where the text
    before ends with a character that is not a word character and the text
    after starts with one, the three parts pass separately, as long as no
    match lies on the middle part or reaches into it. *)
Section InstanceGuard.

Import FixInstances.

Variable tbl : char -> bool.

Local Abbreviation word_at := (word_at tbl).
Local Abbreviation DOT_INSTANCE := (txt ".Instance").
Local Abbreviation INSTANCE := (txt "Instance").

Lemma instance_letters : Forall (fun x => is_word tbl x = true) INSTANCE.
Proof. cbv [txt list_ascii_of_string map]. repeat constructor. Qed.

Lemma head_app_cons {A} (l : list A) t : l <> [] -> head (l ++ t) = head l.
Proof. by destruct l. Qed.

Lemma word_at_last_snoc (d : str) :
  word_at (last d) = false ->
  d = [] \/ exists z, last d = Some z /\ is_word tbl z = false.
Proof.
  destruct (last d) as [z|] eqn:Hl; [right; by exists z|left].
  by apply last_None in Hl.
Qed.

Variable name : str.
Hypothesis name_word : word_at (head name) = true.
Hypothesis name_words : Forall (fun x => is_word tbl x = true) name.

Local Abbreviation R := (instance_pattern name).
Local Abbreviation T := (replacement name).
Local Abbreviation NEW := (txt "FindObjectOfType<" ++ name ++ txt ">()").
Local Abbreviation LA := (name ++ DOT_INSTANCE).
Local Abbreviation F p s := (sub_loop tbl (S (length s%list)) R T p s%list).

Lemma sub_loop_nil p : F p (@nil char) = [].
Proof.
  rewrite (sub_loop_instance tbl name name_word). unfold instance_at.
  destruct name; [done|]. by rewrite andb_false_r.
Qed.

(** Text without a match passes as it is. *)
Lemma sub_nothing s : forall p, instance_in tbl name p s = false -> F p s = s.
Proof.
  induction s as [|x s IH]; intros p Hno; [apply sub_loop_nil|].
  cbn [instance_in] in Hno. apply orb_false_iff in Hno as [Hat Hno].
  rewrite (sub_loop_instance tbl name name_word), Hat. f_equal. by apply IH.
Qed.

(** The dot is the one character of the literal that is not a word
    character: where a part of the literal ends with such a character, and
    where the rest of the literal starts with one. *)
Lemma literal_take k z :
  k <= length LA -> last (take k LA) = Some z -> is_word tbl z = false ->
  k = length name + 1.
Proof.
  intros Hk Hl Hz. rewrite length_app in Hk.
  change (length DOT_INSTANCE) with 9 in Hk.
  destruct (decide (k <= length name)) as [Hle|Hgt].
  - exfalso. rewrite take_app_le in Hl by done.
    apply last_Some in Hl as [l' Hl].
    pose proof (Forall_take _ k _ name_words) as Hall.
    rewrite Hl in Hall. apply Forall_app in Hall as [_ Hall].
    apply Forall_cons in Hall as [Hall _]. congruence.
  - rewrite take_app_ge, last_app in Hl by lia.
    remember (k - length name) as j eqn:Hj.
    do 10 (destruct j as [|j];
           [try lia; cbn in Hl; injection Hl as <-; by vm_compute in Hz|]).
    lia.
Qed.

Lemma literal_drop k z :
  head (drop k LA) = Some z -> is_word tbl z = false -> k = length name.
Proof.
  intros Hl Hz.
  destruct (decide (k < length name)) as [Hlt|Hge].
  - exfalso. rewrite drop_app_le in Hl by lia.
    pose proof (Forall_drop _ k _ name_words) as Hall.
    destruct (drop k name) as [|y r] eqn:Ed.
    { apply (f_equal length) in Ed. rewrite length_drop in Ed. simpl in Ed.
      lia. }
    cbn in Hl. injection Hl as ->.
    apply Forall_cons in Hall as [Hall _]. congruence.
  - rewrite drop_app_ge in Hl by lia.
    remember (k - length name) as j eqn:Hj.
    do 9 (destruct j as [|j];
          [try lia; cbn in Hl; injection Hl as <-; by vm_compute in Hz|]).
    cbn [drop txt list_ascii_of_string map] in Hl.
    by rewrite drop_nil in Hl.
Qed.

(** Up to a character that is not a word character, the text after it
    matters to a match only where that character is the dot of the match:
    then the member has to end right there. *)
Lemma instance_at_guarded d z t p :
  last d = Some z -> is_word tbl z = false ->
  (startswith INSTANCE t = true -> word_at (head (drop 8 t)) = true) ->
  instance_at tbl name p (d ++ t) = instance_at tbl name p d.
Proof.
  intros Hl Hz Ht. unfold instance_at.
  destruct (startswith LA (d ++ t)) eqn:E.
  - pose proof E as E0. apply startswith_app_inv in E as [E|[Hlt E]].
    + assert (length LA < length d) as Hlen.
      { pose proof (startswith_length _ _ E) as Hle.
        destruct (decide (length LA = length d)) as [Heq|]; [exfalso|lia].
        apply startswith_prefix in E. rewrite drop_ge, app_nil_r in E by lia.
        rewrite E, last_literal in Hl. injection Hl as <-.
        by vm_compute in Hz. }
      rewrite length_app in Hlen. change (length DOT_INSTANCE) with 9 in Hlen.
      rewrite E, drop_app_le by lia.
      rewrite head_app_cons; [done|].
      intros Hd. apply (f_equal length) in Hd. rewrite length_drop in Hd.
      simpl in Hd. lia.
    + assert (d = take (length d) LA) as Hd.
      { apply startswith_prefix in E0.
        apply (f_equal (take (length d))) in E0.
        by rewrite take_app_length, take_app_le in E0 by lia. }
      assert (length d = length name + 1) as Hlen.
      { apply (literal_take (length d) z); [lia| |done]. by rewrite <- Hd. }
      rewrite Hlen, drop_app_ge in E by lia.
      replace (length name + 1 - length name) with 1 in E by lia.
      change (drop 1 DOT_INSTANCE) with INSTANCE in E.
      rewrite drop_app_ge by lia.
      replace (length name + 9 - length d) with 8 by lia.
      rewrite (Ht E).
      destruct (startswith LA d) eqn:E'.
      { apply startswith_length in E'. lia. }
      by rewrite !andb_false_r.
  - destruct (startswith LA d) eqn:E'.
    + apply (startswith_app_l _ _ t) in E'. congruence.
    + by rewrite !andb_false_r.
Qed.

(** The pass comes to such a character whatever follows it, and copies
    it. *)
Lemma sub_guarded d :
  forall p z, last d = Some z -> is_word tbl z = false ->
    exists d', last d' = Some z /\
      forall t,
        (startswith INSTANCE t = true -> word_at (head (drop 8 t)) = true) ->
        F p (d ++ t) = d' ++ F (Some z) t.
Proof.
  remember (length d) as n eqn:Hn. revert d Hn.
  induction (lt_wf n) as [n _ IH]. intros d -> p z Hl Hz.
  destruct d as [|x d1]; [done|].
  destruct (instance_at tbl name p (x :: d1)) eqn:E.
  - pose proof (instance_at_length _ _ _ _ E) as Hlen.
    pose proof E as Hs. unfold instance_at in Hs.
    apply andb_true_iff in Hs as [[_ Hs]%andb_true_iff _].
    apply startswith_prefix in Hs. rewrite length_app in Hs.
    change (length DOT_INSTANCE) with 9 in Hs.
    set (d2 := drop (length name + 9) (x :: d1)) in *.
    assert (last d2 = Some z) as Hl2.
    { rewrite Hs, last_app in Hl. destruct (last d2) as [y|]; [done|].
      rewrite last_app in Hl. cbn in Hl. injection Hl as <-.
      by vm_compute in Hz. }
    destruct (IH (length d2)
                ltac:(unfold d2; rewrite length_drop; simpl in *; lia)
                d2 eq_refl (Some (chr "e")) z Hl2 Hz) as (d2' & Hl2' & Hd2).
    exists (NEW ++ d2'). split.
    { rewrite last_app, Hl2'. done. }
    intros t Ht. rewrite (sub_loop_instance tbl name name_word).
    rewrite (instance_at_guarded (x :: d1) z t p Hl Hz Ht), E.
    rewrite drop_app_le by lia. fold d2. rewrite (Hd2 t Ht).
    apply (app_assoc NEW).
  - destruct d1 as [|y d1].
    + injection Hl as ->. exists [z]. split; [done|]. intros t Ht.
      rewrite (sub_loop_instance tbl name name_word).
      by rewrite (instance_at_guarded [z] z t p eq_refl Hz Ht), E.
    + pose proof Hl as Hl0. rewrite last_cons in Hl.
      assert (last (y :: d1) = Some z) as Hl1.
      { destruct (last (y :: d1)) eqn:El; [done|by apply last_None in El]. }
      destruct (IH (length (y :: d1)) ltac:(simpl; lia) (y :: d1) eq_refl
                  (Some x) z Hl1 Hz) as (d1' & Hl1' & Hd1).
      exists (x :: d1'). split.
      { rewrite last_cons, Hl1'. done. }
      intros t Ht. rewrite (sub_loop_instance tbl name name_word).
      rewrite (instance_at_guarded (x :: y :: d1) z t p Hl0 Hz Ht).
      rewrite E. cbn [app]. f_equal. by apply Hd1.
Qed.

(** After such a character the pass goes as from the start of the text. *)
Lemma sub_after_guard q t :
  word_at (head t) = false ->
  F q t = F None t /\ head (F None t) = head t.
Proof.
  intros Hh.
  destruct t as [|z t]; [by rewrite (sub_loop_nil q), (sub_loop_nil None)|].
  assert (forall p, instance_at tbl name p (z :: t) = false) as Hno.
  { intros p. unfold instance_at.
    destruct (startswith LA (z :: t)) eqn:E; [|by rewrite andb_false_r].
    exfalso. destruct name as [|a nm]; [done|].
    cbn in E. apply andb_true_iff in E as [->%N.eqb_eq _].
    cbn in name_word, Hh. congruence. }
  rewrite (sub_loop_instance tbl name name_word q (z :: t)).
  rewrite (sub_loop_instance tbl name name_word None (z :: t)).
  by rewrite !Hno.
Qed.

(** Text on which the pattern has no match, even with the member right
    after it, has none between two such characters. *)
Lemma sub_kept m q t :
  instance_in tbl name None (m ++ DOT_INSTANCE) = false ->
  word_at q = false -> word_at (head t) = false ->
  F q (m ++ t) = m ++ F (prev_after q m) t.
Proof.
  intros Hclear Hq Ht.
  rewrite (sub_copies tbl name name_word m q (m ++ t)).
  - by rewrite drop_app_length.
  - apply startswith_app.
  - intros j Hj.
    destruct (instance_at tbl name (prev_after q (take j m)) (drop j (m ++ t)))
      eqn:E; [exfalso|done].
    rewrite drop_app_le in E by lia.
    unfold instance_at in E.
    apply andb_true_iff in E as [[Hp%negb_true_iff Hs]%andb_true_iff
                                   Ha%negb_true_iff].
    assert (exists after, drop j m ++ DOT_INSTANCE = LA ++ after /\
                          word_at (head after) = false)
      as (after & Heq & Hafter).
    { pose proof Hs as Hs0.
      apply startswith_app_inv in Hs as [Hs|[Hlt Hs]].
      - pose proof (startswith_length _ _ Hs) as Hle.
        apply startswith_prefix in Hs.
        exists (drop (length LA) (drop j m) ++ DOT_INSTANCE). split.
        { by rewrite app_assoc, <- Hs. }
        rewrite length_app in Hle |- *.
        change (length DOT_INSTANCE) with 9 in Hle |- *.
        rewrite drop_app_le in Ha by lia.
        destruct (drop (length name + 9) (drop j m)) as [|y r];
          [by vm_compute|exact Ha].
      - assert (drop j m <> []) as Hne.
        { intros Hd. apply (f_equal length) in Hd.
          rewrite length_drop in Hd. simpl in Hd. lia. }
        destruct (drop (length (drop j m)) LA) as [|a r] eqn:Ed.
        { apply (f_equal length) in Ed. rewrite length_drop in Ed.
          simpl in Ed. lia. }
        destruct t as [|z t]; [done|].
        cbn in Hs. apply andb_true_iff in Hs as [->%N.eqb_eq _].
        cbn in Ht.
        assert (length (drop j m) = length name) as Hlen.
        { apply (literal_drop _ z); [by rewrite Ed|done]. }
        assert (drop j m = name) as Hname.
        { apply startswith_prefix in Hs0.
          apply (f_equal (take (length (drop j m)))) in Hs0.
          rewrite take_app_length in Hs0. rewrite Hs0.
          rewrite take_app_le by lia. rewrite Hlen, take_app_length.
          done. }
        exists []. split; [by rewrite Hname, app_nil_r|done]. }
    assert (instance_in tbl name None (take j m ++ name ++ DOT_INSTANCE ++ after)
            = true) as Hin.
    { apply instance_in_intro; [|done].
      unfold prev_after in Hp |- *. by destruct (last (take j m)). }
    rewrite (app_assoc name), <- Heq, app_assoc, take_drop in Hin.
    congruence.
Qed.

(** The pass around guarded text: the three parts pass separately, and the
    characters next to the middle part stay. *)
Lemma re_sub_guarded before m after :
  word_at (last before) = false ->
  (startswith INSTANCE m = true -> word_at (head (drop 8 m)) = true) ->
  instance_in tbl name None (m ++ DOT_INSTANCE) = false ->
  word_at (head after) = false ->
  re_sub tbl R T (before ++ m ++ after)
  = re_sub tbl R T before ++ m ++ re_sub tbl R T after /\
  word_at (last (re_sub tbl R T before)) = false /\
  word_at (head (re_sub tbl R T after)) = false.
Proof.
  intros Hb Hm Hclear Ha. unfold re_sub.
  destruct (sub_after_guard None after Ha) as [_ Hhead].
  assert (startswith INSTANCE (m ++ after) = true ->
          word_at (head (drop 8 (m ++ after))) = true) as Hc.
  { intros H. apply startswith_app_inv in H as [H|[Hlt H]].
    - pose proof (startswith_length _ _ H) as Hle.
      change (length INSTANCE) with 8 in Hle.
      pose proof (Hm H) as Hw. rewrite drop_app_le by lia.
      destruct (drop 8 m); [done|exact Hw].
    - exfalso. pose proof (Forall_drop _ (length m) _ instance_letters) as Hall.
      destruct (drop (length m) INSTANCE) as [|a r] eqn:Ed.
      { apply (f_equal length) in Ed. rewrite length_drop in Ed.
        simpl in *. lia. }
      destruct after as [|z after]; [done|].
      cbn in H. apply andb_true_iff in H as [->%N.eqb_eq _].
      apply Forall_cons in Hall as [Hall _]. cbn in Ha. congruence. }
  assert (forall q, word_at q = false ->
            F q (m ++ after) = m ++ F None after) as Hmid.
  { intros q Hq. rewrite sub_kept by done.
    by destruct (sub_after_guard (prev_after q m) after Ha) as [-> _]. }
  split; [|split].
  - destruct (word_at_last_snoc before Hb) as [->|(z & Hl & Hz)].
    + rewrite sub_loop_nil. by apply Hmid.
    + destruct (sub_guarded before None z Hl Hz) as (d' & _ & Hd).
      pose proof (Hd [] ltac:(by intros [=])) as Hd0.
      rewrite app_nil_r, sub_loop_nil, app_nil_r in Hd0.
      rewrite (Hd _ Hc), Hd0. f_equal. by apply Hmid.
  - destruct (word_at_last_snoc before Hb) as [->|(z & Hl & Hz)].
    + by rewrite sub_loop_nil.
    + destruct (sub_guarded before None z Hl Hz) as (d' & Hl' & Hd).
      pose proof (Hd [] ltac:(by intros [=])) as Hd0.
      rewrite app_nil_r, sub_loop_nil, app_nil_r in Hd0.
      by rewrite Hd0, Hl'.
  - by rewrite Hhead.
Qed.

End InstanceGuard.

(** Whole files: guarded text passes through every round of the loop. *)
Section RewriterBounded.

Import FixInstances.

Variable tbl : char -> bool.

Local Abbreviation word_at := (word_at tbl).
Local Abbreviation fix_step := (fix_step tbl).
Local Abbreviation fix_file := (fix_file tbl).
Local Abbreviation DOT_INSTANCE := (txt ".Instance").
Local Abbreviation INSTANCE := (txt "Instance").

Lemma instance_in_elim name s :
  forall p, instance_in tbl name p s = true ->
    exists before after,
      s = before ++ name ++ DOT_INSTANCE ++ after /\
      word_at (prev_after p before) = false /\ word_at (head after) = false.
Proof.
  assert (forall p t, instance_at tbl name p t = true ->
            exists after, t = name ++ DOT_INSTANCE ++ after /\
              word_at p = false /\ word_at (head after) = false) as Hat.
  { intros p t E. unfold instance_at in E.
    apply andb_true_iff in E as [[Hp%negb_true_iff Hs]%andb_true_iff
                                   Ha%negb_true_iff].
    apply startswith_prefix in Hs. rewrite length_app in Hs.
    change (length DOT_INSTANCE) with 9 in Hs.
    exists (drop (length name + 9) t). by rewrite <- app_assoc in Hs. }
  induction s as [|x s IH]; intros p Hin; cbn [instance_in] in Hin.
  - rewrite orb_false_r in Hin. destruct (Hat _ _ Hin) as (after & ? & ? & ?).
    by exists [], after.
  - apply orb_true_iff in Hin as [Hin|Hin].
    + destruct (Hat _ _ Hin) as (after & ? & ? & ?). by exists [], after.
    + destruct (IH _ Hin) as (before & after & -> & Hp & Ha).
      exists (x :: before), after. by rewrite prev_after_cons.
Qed.

(** Where a pattern matches in text that starts with an identifier: on the
    whole identifier, or past the character that ends it. *)
Lemma identifier_peel X :
  forall z r2 before n r1,
    Forall (fun x => is_word tbl x = true) X -> is_word tbl z = false ->
    Forall (fun x => is_word tbl x = true) n ->
    word_at (last before) = false ->
    before ++ n ++ chr "." :: r1 = X ++ z :: r2 ->
    (before = [] /\ n = X /\ r1 = r2) \/
    (exists b', before = X ++ z :: b' /\ b' ++ n ++ chr "." :: r1 = r2 /\
                word_at (last b') = false).
Proof.
  induction X as [|x X IH]; intros z r2 before n r1 HX Hz Hn Hb Heq.
  - destruct before as [|y b].
    + destruct n as [|a n']; cbn [app] in Heq.
      * injection Heq as _ <-. by left.
      * injection Heq as -> _. apply Forall_cons in Hn as [Hn _]. congruence.
    + cbn [app] in Heq. injection Heq as -> Heq. right. exists b.
      repeat apply conj; [done..|].
      destruct b as [|y b]; [done|]. by rewrite last_cons_cons in Hb.
  - apply Forall_cons in HX as [Hx HX]. destruct before as [|y b].
    + destruct n as [|a n']; cbn [app] in Heq.
      * injection Heq as <- _. by vm_compute in Hx.
      * injection Heq as -> Heq. apply Forall_cons in Hn as [_ Hn].
        destruct (IH z r2 [] n' r1 HX Hz Hn ltac:(done) Heq)
          as [(_ & -> & ->)|(b' & Hb' & _)]; [by left|].
        by destruct X.
    + cbn [app] in Heq. injection Heq as -> Heq.
      destruct b as [|y b]; [cbn in Hb; congruence|].
      rewrite last_cons_cons in Hb.
      destruct (IH z r2 (y :: b) n r1 HX Hz Hn Hb Heq)
        as [(? & _)|(b' & -> & Hr & Hb')]; [done|].
      right. by exists b'.
Qed.

(** An identifier other than the name, with the member after it, holds no
    reference to the name; nor does it with a second member after the
    first. *)
Lemma dotted_identifier_clear name id :
  Forall (fun x => is_word tbl x = true) name ->
  Forall (fun x => is_word tbl x = true) id ->
  id <> name -> name <> INSTANCE ->
  instance_in tbl name None (id ++ DOT_INSTANCE) = false /\
  instance_in tbl name None (id ++ DOT_INSTANCE ++ DOT_INSTANCE) = false.
Proof.
  intros Hn Hid Hne Hni.
  assert (forall before r1, word_at (last before) = false ->
            before ++ name ++ chr "." :: r1 <> INSTANCE) as Hshort.
  { intros before r1 _ Heq.
    pose proof (instance_letters tbl) as Hall. rewrite <- Heq in Hall.
    apply Forall_app in Hall as [_ Hall]. apply Forall_app in Hall as [_ Hall].
    apply Forall_cons in Hall as [Hall _]. by vm_compute in Hall. }
  assert (forall p before, word_at (prev_after None before) = p ->
            word_at (last before) = p) as Hprev.
  { intros p before <-. unfold prev_after. by destruct (last before). }
  split.
  - destruct (instance_in tbl name None (id ++ DOT_INSTANCE)) eqn:E;
      [exfalso|done].
    apply instance_in_elim in E as (before & after & Heq & Hb%Hprev & _).
    symmetry in Heq.
    change (before ++ name ++ chr "." :: (INSTANCE ++ after)
            = id ++ chr "." :: INSTANCE) in Heq.
    apply identifier_peel in Heq
      as [(_ & -> & _)|(b' & _ & Heq & Hb')]; [done| |done..].
    by apply Hshort in Heq.
  - destruct (instance_in tbl name None (id ++ DOT_INSTANCE ++ DOT_INSTANCE))
      eqn:E; [exfalso|done].
    apply instance_in_elim in E as (before & after & Heq & Hb%Hprev & _).
    symmetry in Heq.
    change (before ++ name ++ chr "." :: (INSTANCE ++ after)
            = id ++ chr "." :: (INSTANCE ++ chr "." :: INSTANCE)) in Heq.
    apply identifier_peel in Heq
      as [(_ & -> & _)|(b' & _ & Heq & Hb')]; [done| |done..].
    apply identifier_peel in Heq
      as [(_ & -> & _)|(b'' & _ & Heq & Hb'')];
      [done| |apply instance_letters|done..].
    by apply Hshort in Heq.
Qed.

(** No name of the list stands inside another one, or inside the name of
    the member. *)
Lemma names_not_nested :
  Forall (fun a : str =>
    Forall (fun b : str => a = b \/ contains a b = false) REMOVED_SINGLETONS)
    REMOVED_SINGLETONS.
Proof.
  repeat (apply Forall_cons; split); try (by apply Forall_nil);
    first [ left; reflexivity | right; vm_compute; reflexivity ].
Qed.

Lemma names_not_in_member :
  Forall (fun a : str => contains a INSTANCE = false /\ a <> INSTANCE)
    REMOVED_SINGLETONS.
Proof.
  repeat (apply Forall_cons; split); try (by apply Forall_nil);
    (split; [vm_compute; reflexivity|by intros [=]]).
Qed.

Lemma longer_identifier_not_listed name id1 id2 :
  name ∈ REMOVED_SINGLETONS -> id1 ++ id2 <> [] ->
  id1 ++ name ++ id2 ∉ REMOVED_SINGLETONS.
Proof.
  intros Hn Hne Hin.
  pose proof names_not_nested as H. rewrite Forall_forall in H.
  specialize (H _ Hn). rewrite Forall_forall in H.
  destruct (H _ Hin) as [Heq|Hc].
  - apply (f_equal length) in Heq. rewrite !length_app in Heq.
    destruct id1, id2; simpl in *; try done; lia.
  - by rewrite contains_app in Hc.
Qed.

(** Where an identifier with the member after it starts with the name of
    the member, it goes on with a word character. *)
Lemma identifier_start X t :
  Forall (fun x => is_word tbl x = true) X -> X <> INSTANCE ->
  startswith INSTANCE (X ++ chr "." :: t) = true ->
  word_at (head (drop 8 (X ++ chr "." :: t))) = true.
Proof.
  intros HX Hne H.
  assert (8 < length X) as Hlen.
  { destruct (decide (8 < length X)) as [|Hle]; [done|exfalso].
    apply startswith_app_inv in H as [H|[Hlt H]].
    - pose proof (startswith_length _ _ H) as Hge.
      change (length INSTANCE) with 8 in Hge.
      apply startswith_prefix in H. rewrite drop_ge, app_nil_r in H by
        (change (length INSTANCE) with 8; lia).
      done.
    - remember (length X) as k eqn:Hk. clear Hk.
      do 8 (destruct k as [|k]; [by vm_compute in H|]).
      simpl in Hlt. lia. }
  rewrite drop_app_le by lia.
  pose proof (Forall_drop _ 8 _ HX) as Hall.
  destruct (drop 8 X) as [|y r] eqn:Ed.
  { apply (f_equal length) in Ed. rewrite length_drop in Ed. simpl in Ed.
    lia. }
  apply Forall_cons in Hall as [Hall _]. exact Hall.
Qed.

(** What a round of the loop leaves in the file. *)
Lemma fix_step_content name content changes :
  name ∈ REMOVED_SINGLETONS ->
  (fix_step (content, changes) name).1
  = re_sub tbl (instance_pattern name) (replacement name) content.
Proof.
  intros Hn. pose proof (names_start_with_word_char tbl) as Hw.
  rewrite Forall_forall in Hw.
  cbn [FixInstances.fix_step]. rewrite (re_found_instance tbl name (Hw _ Hn)).
  destruct (instance_in tbl name None content) eqn:E; [done|].
  cbn [fst]. unfold re_sub. symmetry.
  pose proof (names_are_words tbl) as Hws. rewrite Forall_forall in Hws.
  by apply (sub_nothing tbl name (Hw _ Hn) (Hws _ Hn)).
Qed.

Lemma fix_steps_guarded singletons :
  forall before m after ch1 ch2 ch3,
    (forall n, n ∈ singletons -> n ∈ REMOVED_SINGLETONS) ->
    word_at (last before) = false ->
    (startswith INSTANCE m = true -> word_at (head (drop 8 m)) = true) ->
    (forall n, n ∈ singletons ->
       instance_in tbl n None (m ++ DOT_INSTANCE) = false) ->
    word_at (head after) = false ->
    (fold_left fix_step singletons (before ++ m ++ after, ch1)).1
    = (fold_left fix_step singletons (before, ch2)).1 ++ m ++
      (fold_left fix_step singletons (after, ch3)).1.
Proof.
  induction singletons as [|name names IH];
    intros before m after ch1 ch2 ch3 Hsub Hb Hm Hclear Ha; [done|].
  assert (name ∈ REMOVED_SINGLETONS) as Hn by (apply Hsub; by left).
  pose proof (names_start_with_word_char tbl) as Hw.
  rewrite Forall_forall in Hw.
  pose proof (names_are_words tbl) as Hws. rewrite Forall_forall in Hws.
  destruct (re_sub_guarded tbl name (Hw _ Hn) (Hws _ Hn) before m after Hb Hm
              (Hclear name ltac:(by left)) Ha) as (Heq & Hb' & Ha').
  cbn [fold_left].
  pose proof (fix_step_content name (before ++ m ++ after) ch1 Hn) as H1.
  pose proof (fix_step_content name before ch2 Hn) as H2.
  pose proof (fix_step_content name after ch3 Hn) as H3.
  destruct (fix_step (before ++ m ++ after, ch1) name) as [c1 ch1'] eqn:E1.
  destruct (fix_step (before, ch2) name) as [c2 ch2'] eqn:E2.
  destruct (fix_step (after, ch3) name) as [c3 ch3'] eqn:E3.
  pose proof (eq_trans (eq_sym (f_equal fst E1)) H1) as H1'.
  pose proof (eq_trans (eq_sym (f_equal fst E2)) H2) as H2'.
  pose proof (eq_trans (eq_sym (f_equal fst E3)) H3) as H3'.
  cbn [fst] in H1', H2', H3'. clear E1 E2 E3 H1 H2 H3.
  subst c1 c2 c3. rewrite Heq.
  apply IH; try done.
  - intros n Hin. apply Hsub. by right.
  - intros n Hin. apply Hclear. by right.
Qed.

Lemma fix_file_guarded before m after :
  word_at (last before) = false ->
  (startswith INSTANCE m = true -> word_at (head (drop 8 m)) = true) ->
  (forall n, n ∈ REMOVED_SINGLETONS ->
     instance_in tbl n None (m ++ DOT_INSTANCE) = false) ->
  word_at (head after) = false ->
  (fix_file (before ++ m ++ after)).1
  = (fix_file before).1 ++ m ++ (fix_file after).1.
Proof.
  intros Hb Hm Hclear Ha. rewrite !fix_file_content.
  by apply fix_steps_guarded.
Qed.

(** C9.  The search for [Name.Instance] is anchored on both sides.  For
    every name of the replace list and every content, a match lies on the
    text [Name.Instance] with no word character right before it and none
    right after it.  So a name inside a longer identifier is not matched:
    not in [MyName.Instance] or [NameBar.Instance], and not in
    [MyNameInstance].  Content in which no name occurs in the delimited way
    is left as it is, and [fix_file] reports nothing.  And in any content,
    with or without references that are rewritten, such an identifier comes
    out as it went in: where the identifier [MyNameBar] is followed by
    [.Instance] and then by no word character, or the identifier
    [MyNameBarInstance] stands, with no word character right before it and
    none right after it, the file [fix_file] leaves is what it leaves of
    the text before, then that text itself, then what it leaves of the text
    after. *)
Theorem instance_search_is_word_bounded content :
  (forall name before c',
     name ∈ REMOVED_SINGLETONS ->
     re_search tbl (instance_pattern name) content = Some (before, c') ->
     content = before ++ name ++ txt ".Instance" ++ rest c' /\
     word_at (last before) = false /\
     word_at (head (rest c')) = false) /\
  (forall name id1 id2,
     name ∈ REMOVED_SINGLETONS ->
     Forall (fun x => is_word tbl x = true) (id1 ++ id2) ->
     (id1 ++ id2 <> [] ->
      re_found tbl (instance_pattern name)
        (id1 ++ name ++ id2 ++ txt ".Instance") = false) /\
     re_found tbl (instance_pattern name)
       (id1 ++ name ++ id2 ++ txt "Instance") = false) /\
  ((forall name before after,
      name ∈ REMOVED_SINGLETONS ->
      content = before ++ name ++ txt ".Instance" ++ after ->
      word_at (last before) = true \/ word_at (head after) = true) ->
   fix_file content = (content, None)) /\
  (forall name id1 id2 before after,
     name ∈ REMOVED_SINGLETONS ->
     Forall (fun x => is_word tbl x = true) (id1 ++ id2) ->
     word_at (last before) = false -> word_at (head after) = false ->
     (id1 ++ id2 <> [] ->
      content = before ++ (id1 ++ name ++ id2 ++ txt ".Instance") ++ after ->
      (fix_file content).1
      = (fix_file before).1 ++ (id1 ++ name ++ id2 ++ txt ".Instance") ++
        (fix_file after).1) /\
     (content = before ++ (id1 ++ name ++ id2 ++ txt "Instance") ++ after ->
      (fix_file content).1
      = (fix_file before).1 ++ (id1 ++ name ++ id2 ++ txt "Instance") ++
        (fix_file after).1)).
Proof.
  pose proof (names_start_with_word_char tbl) as Hw.
  rewrite Forall_forall in Hw.
  pose proof (names_are_words tbl) as Hws. rewrite Forall_forall in Hws.
  assert (forall name before c',
     name ∈ REMOVED_SINGLETONS ->
     re_search tbl (instance_pattern name) content = Some (before, c') ->
     content = before ++ name ++ txt ".Instance" ++ rest c' /\
     word_at (last before) = false /\
     word_at (head (rest c')) = false) as Hsound.
  { intros name before c' Hin Hs.
    apply search_from_spec in Hs as (after & -> & Hm).
    apply match_at_instance_pattern in Hm as (Hp & -> & Ha); [|by apply Hw].
    repeat split; [|done]. by destruct (last before). }
  split; [done|]. split; [apply name_inside_identifier|]. split.
  { intros Hnone.
    unfold FixInstances.fix_file, fix_with.
    assert (forall names, names ⊆ REMOVED_SINGLETONS ->
              fold_left fix_step names (content, []) = (content, []))
      as Hfold.
    { induction names as [|name names IH]; [done|]. intros Hsub.
      cbn [fold_left FixInstances.fix_step]. unfold re_found.
      destruct (re_search tbl (instance_pattern name) content)
        as [[before c']|] eqn:Hs.
      - assert (name ∈ REMOVED_SINGLETONS) as Hin by (apply Hsub; by left).
        destruct (Hsound _ _ _ Hin Hs) as (Heq & Hb & Ha).
        destruct (Hnone _ _ _ Hin Heq); congruence.
      - apply IH. intros x Hx. apply Hsub. by right. }
    rewrite Hfold by done. by rewrite str_eqb_refl. }
  intros name id1 id2 before after Hn Hid Hb Ha.
  pose proof names_not_in_member as Hmem. rewrite Forall_forall in Hmem.
  apply Forall_app in Hid as [Hid1 Hid2].
  assert (Forall (fun x => is_word tbl x = true) (id1 ++ name ++ id2)) as HX.
  { apply Forall_app. split; [done|]. apply Forall_app. split; [|done].
    by apply Hws. }
  split.
  - intros Hne ->.
    assert (id1 ++ name ++ id2 ∉ REMOVED_SINGLETONS) as Hout
      by by apply longer_identifier_not_listed.
    replace (id1 ++ name ++ id2 ++ txt ".Instance")
      with ((id1 ++ name ++ id2) ++ DOT_INSTANCE) by by rewrite <- !app_assoc.
    apply fix_file_guarded; [done| | |done].
    + apply (identifier_start (id1 ++ name ++ id2) INSTANCE); [done|].
      intros Heq. destruct (Hmem _ Hn) as [Hc _].
      by rewrite <- Heq, contains_app in Hc.
    + intros n Hin. rewrite <- app_assoc.
      apply dotted_identifier_clear; [by apply Hws|done| |by apply Hmem].
      intros Heq. apply Hout. by rewrite Heq.
  - intros ->.
    assert (id1 ++ name ++ id2 ++ INSTANCE ∉ REMOVED_SINGLETONS) as Hout.
    { apply longer_identifier_not_listed; [done|]. by destruct id1, id2. }
    assert (Forall (fun x => is_word tbl x = true)
              (id1 ++ name ++ id2 ++ INSTANCE)) as HXI.
    { rewrite (app_assoc id1), (app_assoc (id1 ++ name)), <- (app_assoc id1).
      apply Forall_app. split; [done|apply instance_letters]. }
    apply fix_file_guarded; [done| | |done].
    + intros _.
      assert (8 < length (id1 ++ name ++ id2 ++ INSTANCE)) as Hlen.
      { rewrite !length_app. change (length INSTANCE) with 8.
        specialize (Hw _ Hn). destruct name; [done|]. simpl. lia. }
      pose proof (Forall_drop _ 8 _ HXI) as Hall.
      destruct (drop 8 (id1 ++ name ++ id2 ++ INSTANCE)) as [|y r] eqn:Ed.
      { apply (f_equal length) in Ed. rewrite length_drop in Ed.
        simpl in Ed. lia. }
      apply Forall_cons in Hall as [Hall _]. exact Hall.
    + intros n Hin.
      apply dotted_identifier_clear; [by apply Hws|done| |by apply Hmem].
      intros Heq. apply Hout. by rewrite Heq.
Qed.

End RewriterBounded.

(** ** The import injector without an import to follow *)

Section InjectorFallback.

Import UpdateDebugLogs.

Variable tbl : char -> bool.

Local Abbreviation add_using_statement := (add_using_statement tbl).
Local Abbreviation NAMESPACE := (txt "namespace").

Lemma contains_drop u s k : contains u s = false -> contains u (drop k s) = false.
Proof.
  intros H. rewrite <- (take_drop k s) in H.
  by apply contains_app_false in H as [_ H].
Qed.

Lemma finditer_nothing content :
  contains (txt "using ") content = false ->
  re_finditer tbl USING_SECTION_PATTERN content = [].
Proof.
  intros Hc.
  assert (forall k, using_line (drop k content) = None) as Hplain.
  { intros k. unfold using_line, using_item.
    destruct (startswith (txt "using ") (drop k content)) eqn:E; [|done].
    apply contains_startswith in E. by rewrite contains_drop in E. }
  assert (forall fuel pos p k,
            finditer_loop tbl fuel USING_SECTION_PATTERN pos p (drop k content)
            = []) as Hloop.
  { induction fuel as [|fuel IH]; intros pos p k; [done|].
    cbn [finditer_loop].
    pose proof (match_at_using tbl p (drop k content)) as H.
    unfold using_run in H. rewrite Hplain in H. rewrite H.
    destruct (drop k content) as [|x s'] eqn:Hd; [done|].
    replace s' with (drop (S k) content); [apply IH|].
    replace (S k) with (k + 1) by lia. by rewrite <- drop_drop, Hd. }
  unfold re_finditer. rewrite <- (drop_0 content) at 2. apply Hloop.
Qed.

Lemma search_from_nothing r p s :
  (forall k p', match_at tbl r p' (drop k s) = None) ->
  search_from tbl r p s = None.
Proof.
  revert p. induction s as [|x s IH]; intros p H; cbn [search_from];
    pose proof (H 0 p) as H0; rewrite drop_0 in H0; rewrite H0; [done|].
  rewrite IH; [done|]. intros k p'. apply (H (S k)).
Qed.

(** The search stops at the first place with a match. *)
Lemma search_from_first r p pre t c' :
  (forall k p', k < length pre -> match_at tbl r p' (drop k (pre ++ t)) = None) ->
  match_at tbl r (prev_after p pre) t = Some c' ->
  search_from tbl r p (pre ++ t) = Some (pre, c').
Proof.
  revert p. induction pre as [|x pre IH]; intros p Hno Hm.
  - change (prev_after p []) with p in Hm. rewrite app_nil_l.
    destruct t; cbn [search_from]; by rewrite Hm.
  - pose proof (Hno 0 p ltac:(simpl; lia)) as H0. rewrite drop_0 in H0.
    cbn [app search_from] in H0 |- *. rewrite H0.
    rewrite (IH (Some x)); [done| |by rewrite <- (prev_after_cons p)].
    intros k p' Hk. apply (Hno (S k)). simpl. lia.
Qed.

Lemma search_from_earlier r p s before c' :
  search_from tbl r p s = Some (before, c') ->
  forall k, k < length before ->
    exists p', match_at tbl r p' (drop k s) = None.
Proof.
  revert p before c'. induction s as [|x s IH]; intros p before c';
    cbn [search_from].
  - destruct (match_at tbl r p []); [|done]. intros [= <- _] k Hk.
    simpl in Hk. lia.
  - destruct (match_at tbl r p (x :: s)) eqn:E.
    { intros [= <- _] k Hk. simpl in Hk. lia. }
    destruct (search_from tbl r (Some x) s) as [[b c]|] eqn:E'; [|done].
    intros [= <- _] [|k] Hk; [by exists p|].
    apply (IH _ _ _ E'). simpl in Hk. lia.
Qed.

Lemma namespace_lang a : lang (NAMESPACE_RE tbl) a <-> namespace_shape tbl a.
Proof.
  unfold NAMESPACE_RE, namespace_shape. split.
  - intros (? & a1 & -> & ->%lang_LitS & H).
    destruct H as (sp & a2 & -> & [Hsp Hspaces]%lang_Plus_Cls & H).
    destruct H as (ident & a3 & -> & [Hid Hident]%lang_Plus_Cls & H).
    destruct H as (sp' & ? & -> & Hspaces'%lang_Star_Cls & ->).
    by exists sp, ident, sp'.
  - intros (sp & ident & sp' & -> & Hsp & Hspaces & Hid & Hident & Hspaces').
    exists NAMESPACE, (sp ++ ident ++ sp' ++ [chr "{"]).
    repeat split; [by apply lang_LitS|].
    exists sp, (ident ++ sp' ++ [chr "{"]).
    repeat split; [by apply lang_Plus_Cls|].
    exists ident, (sp' ++ [chr "{"]).
    repeat split; [by apply lang_Plus_Cls|].
    exists sp', [chr "{"]. repeat split. by apply lang_Star_Cls.
Qed.

(** The pattern matches at a place exactly when a declaration starts
    there, whatever comes before the place. *)
Lemma namespace_match_at k content p :
  (exists c', match_at tbl (NAMESPACE_RE tbl) p (drop k content) = Some c') <->
  namespace_at tbl k content.
Proof.
  rewrite (match_at_lang tbl (NAMESPACE_RE tbl) p (drop k content) eq_refl).
  unfold namespace_at.
  split; intros (a & t & Heq & H); exists a, t; by rewrite ?namespace_lang in *.
Qed.

Lemma namespace_no_match k content p :
  ~ namespace_at tbl k content ->
  match_at tbl (NAMESPACE_RE tbl) p (drop k content) = None.
Proof.
  intros Hno.
  destruct (match_at tbl (NAMESPACE_RE tbl) p (drop k content)) as [c'|] eqn:E;
    [exfalso|done].
  apply Hno, (namespace_match_at k content p). by exists c'.
Qed.

(** What the search tells about the declarations of a content. *)
Lemma namespace_not_found content :
  re_found tbl (NAMESPACE_RE tbl) content = false ->
  forall k, ~ namespace_at tbl k content.
Proof.
  unfold re_found, re_search. intros Hs k Hat.
  destruct (search_from tbl (NAMESPACE_RE tbl) None content) as [[? ?]|] eqn:E;
    [done|].
  destruct (search_from_none tbl _ _ _ E k) as [p' Hp'].
  destruct (proj2 (namespace_match_at k content p') Hat) as [c0 Hc0].
  congruence.
Qed.

Lemma namespace_found_first content pre c' :
  re_search tbl (NAMESPACE_RE tbl) content = Some (pre, c') ->
  forall k, k < length pre -> ~ namespace_at tbl k content.
Proof.
  unfold re_search. intros Hs k Hk Hat.
  destruct (search_from_earlier _ _ _ _ _ Hs k Hk) as [p' Hp'].
  destruct (proj2 (namespace_match_at k content p') Hat) as [c0 Hc0].
  congruence.
Qed.

(** X16.  Content without any [using ] text gets the line before its first
    namespace declaration, with an empty line between the two, and at the
    very start, with an empty line after it, when it has no namespace
    declaration.  A declaration is the keyword, at least one space, a name
    of word characters and dots, any spaces and the opening brace; the word
    [namespace] elsewhere, in a comment say, does not count.  The rest of
    the content stays as it is. *)
Theorem add_using_statement_without_imports content :
  contains (txt "using ") content = false ->
  ((forall k, ~ namespace_at tbl k content) ->
   add_using_statement content = USING_STATEMENT ++ NL ++ NL ++ content) /\
  (forall pre a post,
     content = pre ++ a ++ post ->
     namespace_shape tbl a ->
     (forall k, k < length pre -> ~ namespace_at tbl k content) ->
     add_using_statement content
     = pre ++ USING_STATEMENT ++ NL ++ NL ++ a ++ post).
Proof.
  intros Hu.
  assert (contains USING_STATEMENT content = false) as Hline.
  { destruct (contains USING_STATEMENT content) eqn:E; [|done].
    apply contains_iff in E as (a & b & ->).
    change USING_STATEMENT with (txt "using " ++ txt "NeuralBreak.Utils;") in Hu.
    rewrite <- app_assoc in Hu. by rewrite contains_app in Hu. }
  unfold UpdateDebugLogs.add_using_statement.
  rewrite Hline, finditer_nothing by done. cbn [last]. split.
  - intros Hno. unfold re_search. rewrite search_from_nothing; [done|].
    intros k p'. by apply namespace_no_match.
  - intros pre a post -> Ha Hno.
    destruct (proj2 (namespace_match_at (length pre) (pre ++ a ++ post)
                       (prev_after None pre))) as [c' Hc'].
    { exists a, post. by rewrite drop_app_length. }
    rewrite drop_app_length in Hc'.
    unfold re_search.
    rewrite (search_from_first _ _ pre (a ++ post) c'); [| |done].
    { by rewrite take_app_length, drop_app_length. }
    intros k p' Hk. by apply namespace_no_match, Hno.
Qed.

End InjectorFallback.

(** * Examples *)

Section Examples.

Import RemoveInstanceProps FixInstances UpdateDebugLogs.

(** ** The block remover on concrete files *)

(** C1 as stated fails: the property line is followed by no closing marker,
    and the file loses every line from the property line on. *)
Lemma unterminated_property_block_truncates :
  let file :=
    [ line "public class Foo : MonoBehaviour"; line "{";
      line "    public static Foo Instance { get; private set; }";
      line "    private int score;"; line "    private int lives;" ] in
  Forall (fun l => has_brace l = false) (drop 3 file) /\
  remove_singleton_code ascii_only file (txt "Foo")
  = ([line "public class Foo : MonoBehaviour"; line "{"], true) /\
  (remove_singleton_code ascii_only file (txt "Foo")).1 <> file.
Proof. cbv zeta. split; [by repeat constructor|]. by vm_compute. Qed.

Lemma unterminated_property_block_witness :
  remove_singleton_code ascii_only
    ([line "public class Foo : MonoBehaviour"; line "{"] ++
     line "    public static Foo Instance { get; private set; }" ::
     [line "    private int score;"; line "    private int lives;"])
    (txt "Foo")
  = ((scan_all ascii_only
        [line "public class Foo : MonoBehaviour"; line "{"] None).1, true).
Proof.
  apply unterminated_property_block_drops_rest.
  - vm_compute. reflexivity.
  - vm_compute. reflexivity.
  - repeat constructor.
Defined.

(** C4 as stated fails: the line after the closing line of an Awake check
    is kept. *)
Lemma awake_check_keeps_line_after_closing_line :
  remove_singleton_code ascii_only
    [ line "        if (Instance != null && Instance != this)";
      line "        {";
      line "            Destroy(gameObject);";
      line "            return;";
      line "        }";
      line "        DontDestroyOnLoad(gameObject);" ]
    (txt "Foo")
  = ([line "        DontDestroyOnLoad(gameObject);"], true).
Proof. by vm_compute. Qed.

Lemma guard_block_witness :
  scan_all ascii_only
    (line "        if (Instance == this)" ::
     [ line "        {"; line "            Instance = null;"; line "        }";
       line "        Cleanup();" ]) None
  = ((scan_all ascii_only [line "        Cleanup();"] None).1, true).
Proof.
  apply (proj1 (guard_block_skips_through_closing_line ascii_only
                  (line "        if (Instance == this)")
                  [ line "        {"; line "            Instance = null;";
                    line "        }"; line "        Cleanup();" ] None
                  ltac:(split; [|right; repeat split]; vm_compute; reflexivity))
           [ line "        if (Instance == this)"; line "        {";
             line "            Instance = null;" ]
           (line "        }") [line "        Cleanup();"]).
  - reflexivity.
  - repeat constructor.
  - vm_compute. reflexivity.
Defined.

(** C7 as stated fails both ways: an assignment at the start of the line
    has the shape the specification gives and is kept, and an assignment
    followed by a comment does not have that shape and is deleted. *)
Lemma assignment_rule_differs_from_specification :
  spec_is_assignment ascii_only (line "Instance = this;") = true /\
  remove_singleton_code ascii_only [line "Instance = this;"] (txt "Foo")
  = ([line "Instance = this;"], false) /\
  spec_is_assignment ascii_only (line "        Instance = this; // register")
  = false /\
  remove_singleton_code ascii_only
    [line "        Instance = this; // register"] (txt "Foo")
  = ([], true).
Proof. by vm_compute. Qed.

Lemma assignment_rule_witness :
  scan_all ascii_only
    (line "        Instance = null;" :: [line "        Cleanup();"]) None
  = ((scan_all ascii_only [line "        Cleanup();"] None).1, true).
Proof.
  apply (assignment_rule_deletes_line ascii_only
           (line "        Instance = null;") [line "        Cleanup();"] None).
  - vm_compute. reflexivity.
  - vm_compute. reflexivity.
  - vm_compute. reflexivity.
Defined.

(** C8 as stated fails: inside the span of the property block the Awake
    check and the assignment still fire, and the span closes two closing
    lines later than in the specification's scan. *)
Lemma rules_fire_inside_property_span :
  let file :=
    [ line "    public static Foo Instance { get; private set; }";
      line "";
      line "    private void Awake()";
      line "    {";
      line "        if (Instance != null && Instance != this)";
      line "        {";
      line "            Destroy(gameObject);";
      line "            return;";
      line "        }";
      line "        Instance = this;";
      line "        Setup();";
      line "    }";
      line "    private void Update() { }" ] in
  remove_singleton_code ascii_only file (txt "Foo")
  = ([line "    private void Update() { }"], true) /\
  reference_remove ascii_only file
  = ([ line "        Setup();"; line "    }";
       line "    private void Update() { }" ], true).
Proof. by vm_compute. Qed.

Lemma scan_agrees_with_reference_witness :
  remove_singleton_code ascii_only
    [ line "    public static Foo Instance {";
      line "        get; private set;";
      line "    }";
      line "    private int score;" ] (txt "Foo")
  = reference_remove ascii_only
    [ line "    public static Foo Instance {";
      line "        get; private set;";
      line "    }";
      line "    private int score;" ] /\
  scan_all ascii_only
    [ line "        Instance = null; }";
      line "    private int score;";
      line "    }";
      line "    private int lives;" ] (Some CLOSING_BRACE)
  = ((scan_all ascii_only
        [ line "    private int score;";
          line "    }";
          line "    private int lives;" ] (Some CLOSING_BRACE)).1, true) /\
  scan_all ascii_only
    [ line "        if (Instance == this)";
      line "        Instance = null;";
      line "        } Instance = null;";
      line "    private int lives;" ] (Some CLOSING_BRACE)
  = ((scan_all ascii_only [ line "    private int lives;" ]
        (Some CLOSING_BRACE)).1, true).
Proof.
  pose proof (scan_agrees_with_reference ascii_only
                [ line "    public static Foo Instance {";
                  line "        get; private set;";
                  line "    }";
                  line "    private int score;" ] (txt "Foo"))
    as (Hguard & Hspan & Hagree).
  repeat apply conj.
  - apply Hagree. vm_compute. repeat constructor.
  - apply (proj1 (proj2 (Hspan _ _))); vm_compute; reflexivity.
  - apply (proj1 (proj1 (Hguard (line "        if (Instance == this)")
                           [ line "        Instance = null;";
                             line "        } Instance = null;";
                             line "    private int lives;" ]
                           (Some CLOSING_BRACE)
                           ltac:(split; [|right; repeat apply conj];
                                 vm_compute; reflexivity))
                  [ line "        if (Instance == this)";
                    line "        Instance = null;" ]
                  (line "        } Instance = null;")
                  [ line "    private int lives;" ]
                  eq_refl
                  ltac:(repeat (apply Forall_cons; split);
                        try (by apply Forall_nil); vm_compute; reflexivity)
                  ltac:(vm_compute; reflexivity))).
Defined.

(** Inside a property span the pass and the specification's scan part on a
    line that a rule deletes and that holds the closing marker: the pass
    stays in the span, the specification's scan leaves it. *)
Lemma assignment_with_marker_in_span :
  let file :=
    [ line "    public static Foo Instance {";
      line "        Instance = null; }";
      line "    private int score;";
      line "    }";
      line "    private int lives;" ] in
  remove_singleton_code ascii_only file (txt "Foo")
  = ([line "    private int lives;"], true) /\
  reference_remove ascii_only file
  = ([ line "    private int score;"; line "    }";
       line "    private int lives;" ], true).
Proof. by vm_compute. Qed.

(** ** The catalog on a name of both lists *)

(** C2 as stated fails: [UIManager] is on the replace list and on the
    remove list, and both passes run on it. *)
Lemma name_on_both_lists_is_processed :
  txt "UIManager" ∈ FixInstances.REMOVED_SINGLETONS /\
  txt "UIManager" ∈ RemoveInstanceProps.REMOVED_SINGLETONS /\
  fix_file ascii_only (line "        UIManager.Instance.ShowPause();")
  = (line "        FindObjectOfType<UIManager>().ShowPause();",
     Some [txt "UIManager"]) /\
  remove_singleton_code ascii_only
    [ line "    public static UIManager Instance { get; private set; }";
      line "    }" ] (txt "UIManager")
  = ([], true).
Proof.
  split; [apply (bool_decide_unpack _); by vm_compute|].
  split; [apply (bool_decide_unpack _); by vm_compute|].
  by vm_compute.
Qed.

Lemma catalog_lists_overlap_witness :
  fix_file ascii_only (txt "UIManager" ++ txt ".Instance")
  = (txt "FindObjectOfType<" ++ txt "UIManager" ++ txt ">()",
     Some [txt "UIManager"]).
Proof.
  apply (proj1 (proj2 (catalog_lists_overlap ascii_only)) (txt "UIManager")).
  apply (bool_decide_unpack _). vm_compute. exact I.
Defined.

(** ** The reference rewriter on concrete text *)

Example name_inside_identifier_is_not_rewritten :
  fix_file ascii_only (line "    UIManagerPanel.Instance.Open(MyUIManager.Instance);")
  = (line "    UIManagerPanel.Instance.Open(MyUIManager.Instance);", None) /\
  fix_file ascii_only (line "    var x = MyUIManagerInstance;")
  = (line "    var x = MyUIManagerInstance;", None) /\
  fix_file ascii_only (line "    HighScoreManager.Instance.Submit(42);")
  = (line "    FindObjectOfType<HighScoreManager>().Submit(42);",
     Some [txt "HighScoreManager"]).
Proof. by vm_compute. Qed.

(** A file with a reference and, as its argument, a longer identifier that
    holds the same name: the reference is rewritten, the identifier is not. *)
Lemma embedded_name_next_to_reference :
  fix_file ascii_only (txt "UIManager.Instance.Show(MyUIManager.Instance);")
  = (txt "FindObjectOfType<UIManager>().Show(MyUIManager.Instance);",
     Some [txt "UIManager"]) /\
  fix_file ascii_only (txt "this.MinimapX.Instance.Draw(Minimap.Instance);")
  = (txt "this.MinimapX.Instance.Draw(FindObjectOfType<Minimap>());",
     Some [txt "Minimap"]) /\
  fix_file ascii_only (txt "x = UIManagerInstance + UIManager.Instance.Count;")
  = (txt "x = UIManagerInstance + FindObjectOfType<UIManager>().Count;",
     Some [txt "UIManager"]).
Proof. by vm_compute. Qed.

Lemma instance_search_witness :
  txt "UIManager" ∈ REMOVED_SINGLETONS /\
  Forall (fun x => is_word ascii_only x = true) (txt "My" ++ []) /\
  word_at ascii_only (last (txt "UIManager.Instance.Show(")) = false /\
  word_at ascii_only (head (txt ");")) = false /\
  (fix_file ascii_only
     (txt "UIManager.Instance.Show(MyUIManager.Instance);")).1
  = (fix_file ascii_only (txt "UIManager.Instance.Show(")).1 ++
    (txt "My" ++ txt "UIManager" ++ [] ++ txt ".Instance") ++
    (fix_file ascii_only (txt ");")).1.
Proof.
  assert (txt "UIManager" ∈ REMOVED_SINGLETONS) as Hn.
  { apply (bool_decide_unpack _). vm_compute. exact I. }
  assert (Forall (fun x => is_word ascii_only x = true) (txt "My" ++ []))
    as Hid by (repeat constructor).
  repeat apply conj; [exact Hn|exact Hid|reflexivity|reflexivity|].
  apply (proj1 (proj2 (proj2 (proj2
           (instance_search_is_word_bounded ascii_only
              (txt "UIManager.Instance.Show(MyUIManager.Instance);"))))
           (txt "UIManager") (txt "My") [] (txt "UIManager.Instance.Show(")
           (txt ");") Hn Hid eq_refl eq_refl)).
  - discriminate.
  - reflexivity.
Defined.

(** ** The call wrapper on concrete text *)


Example calls_after_space_are_wrapped :
  replace_debug_calls ascii_only
    (line "    Debug.Log(1); Debug.LogWarning(2); Debug.LogError(3);")
  = line "    LogHelper.Log(1); LogHelper.LogWarning(2); Debug.LogError(3);".
Proof. by vm_compute. Qed.


(** ** The import injector on concrete text *)

(** C6 as stated fails: content that holds the line twice holds it twice
    after two applications. *)
Lemma line_present_twice_stays_twice :
  let content :=
    line "using NeuralBreak.Utils;" ++ line "using NeuralBreak.Utils;" ++
    line "class C { }" in
  add_using_statement ascii_only (add_using_statement ascii_only content)
  = content /\
  occurrences USING_STATEMENT
    (add_using_statement ascii_only (add_using_statement ascii_only content))
  = 2.
Proof. by vm_compute. Qed.

Lemma add_using_statement_witness :
  occurrences USING_STATEMENT
    (add_using_statement ascii_only
       (line "using UnityEngine;" ++ line "class C { }")) = 1.
Proof.
  apply (proj1 (proj2 (proj2 (add_using_statement_idempotent ascii_only
           (line "using UnityEngine;" ++ line "class C { }"))))).
  vm_compute. reflexivity.
Defined.

(** C5 as stated fails: with a [using] declaration further down, the line
    is put after that declaration, not after the leading run. *)
Lemma line_goes_after_the_last_using :
  let leading := line "using System;" ++ line "using UnityEngine;" in
  let middle :=
    line "public class Loader" ++ line "{" ++ line "    void Load()" ++
    line "    {" ++ line "        using var stream = Open();" in
  let tail := line "        stream.Read();" ++ line "    }" ++ line "}" in
  add_using_statement ascii_only (leading ++ middle ++ tail)
  = leading ++ middle ++ line "using NeuralBreak.Utils;" ++ tail /\
  add_using_statement ascii_only (leading ++ middle ++ tail)
  <> leading ++ line "using NeuralBreak.Utils;" ++ middle ++ tail.
Proof. by vm_compute. Qed.

Lemma add_using_statement_after_last_import_witness :
  add_using_statement ascii_only
    (line "// loader" ++ txt "using " ++ txt "UnityEngine" ++ [chr ";"] ++
     NL ++ line "class C { }")
  = line "// loader" ++ txt "using " ++ txt "UnityEngine" ++ [chr ";"] ++
    NL ++ USING_STATEMENT ++ NL ++ line "class C { }".
Proof.
  apply add_using_statement_after_last_import.
  - vm_compute. discriminate.
  - vm_compute. repeat constructor.
  - vm_compute. discriminate.
  - vm_compute. repeat constructor.
  - vm_compute. intros y [= <-]. reflexivity.
  - vm_compute. reflexivity.
  - vm_compute. reflexivity.
Defined.

(** ** Whole passes on concrete files *)

Lemma remove_singleton_code_quiet_prefix_witness :
  remove_singleton_code ascii_only
    ([line "using UnityEngine;"; line "public class Foo : MonoBehaviour"] ++
     [line "    void Awake() {"; line "        Instance = this;"; line "    }"])
    (txt "Foo")
  = ([line "using UnityEngine;"; line "public class Foo : MonoBehaviour"] ++
     (remove_singleton_code ascii_only
        [line "    void Awake() {"; line "        Instance = this;";
         line "    }"] (txt "Foo")).1,
     (remove_singleton_code ascii_only
        [line "    void Awake() {"; line "        Instance = this;";
         line "    }"] (txt "Foo")).2).
Proof.
  apply remove_singleton_code_quiet_prefix.
  repeat (apply Forall_cons; split); try apply Forall_nil;
    vm_compute; reflexivity.
Defined.

(** The block of a one-line property runs on to the next line with a
    closing brace. *)
Lemma property_block_is_cut_out_witness :
  remove_singleton_code ascii_only
    ([line "public class Foo : MonoBehaviour"; line "{"] ++
     line "    public static Foo Instance { get; private set; }" ::
     [line ""; line "    private int score;"] ++
     line "    private void Update() { score++; }" ::
     [line "}"])
    (txt "Foo")
  = ([line "public class Foo : MonoBehaviour"; line "{"] ++
     (scan_all ascii_only [line "}"] None).1, true).
Proof.
  apply property_block_is_cut_out.
  - repeat (apply Forall_cons; split); try apply Forall_nil;
      vm_compute; reflexivity.
  - vm_compute. reflexivity.
  - repeat (apply Forall_cons; split); try apply Forall_nil;
      split; vm_compute; reflexivity.
  - vm_compute. reflexivity.
  - vm_compute. reflexivity.
Defined.

Example process_file_on_concrete_text :
  process_file ascii_only
    (line "using UnityEngine;" ++ line "class C {" ++
     line "    void F() { Debug.Log(1); }" ++ line "}")
  = (line "using UnityEngine;" ++ line "using NeuralBreak.Utils;" ++
     line "class C {" ++ line "    void F() { LogHelper.Log(1); }" ++ line "}",
     true) /\
  process_file ascii_only (line "class C { void F() { Debug.LogError(1); } }")
  = (line "class C { void F() { Debug.LogError(1); } }", false).
Proof. by vm_compute. Qed.

Lemma replace_debug_calls_nothing_to_wrap_witness :
  replace_debug_calls ascii_only (line "    Debug.LogError(1); Log(2);")
  = line "    Debug.LogError(1); Log(2);" /\
  process_file ascii_only (line "    Debug.LogError(1); Log(2);")
  = (line "    Debug.LogError(1); Log(2);", false).
Proof.
  apply replace_debug_calls_nothing_to_wrap; vm_compute; reflexivity.
Defined.

Lemma replace_debug_calls_leaves_none_after_space_witness :
  is_space (chr "{") = false.
Proof.
  apply (replace_debug_calls_leaves_none_after_space ascii_only
           (txt "if (x){Debug.Log(1); Debug.Log(2);}") (txt "if (x)") (chr "{")
           (txt "Debug.Log(") (txt "1); LogHelper.Log(2);}")).
  - left. reflexivity.
  - vm_compute. reflexivity.
Defined.

(** The call does not follow a space, so it is not wrapped; the file gets
    the import line all the same. *)
Lemma process_file_adds_using_witness :
  contains USING_STATEMENT
    (process_file ascii_only (line "class C {void F(){Debug.Log(1);}}")).1
  = true /\
  (contains USING_STATEMENT (line "class C {void F(){Debug.Log(1);}}") = false ->
   (process_file ascii_only (line "class C {void F(){Debug.Log(1);}}")).2
   = true).
Proof. apply process_file_adds_using. vm_compute. reflexivity. Defined.

Example main_on_concrete_files :
  UpdateDebugLogs.main ascii_only
    [ (txt "Scripts/Core/Game.cs", line "class C { void F() { Debug.Log(1); } }");
      (txt "Scripts/Editor/Tool.cs", line "class T { void F() { Debug.Log(1); } }");
      (txt "Scripts/UI/Hud.cs", line "class H { }") ]
  = ([ (txt "Scripts/Core/Game.cs",
        line "using NeuralBreak.Utils;" ++ NL ++
        line "class C { void F() { LogHelper.Log(1); } }");
       (txt "Scripts/Editor/Tool.cs",
        line "class T { void F() { Debug.Log(1); } }");
       (txt "Scripts/UI/Hud.cs", line "class H { }") ],
     (1, 1)).
Proof. by vm_compute. Qed.

Lemma fix_file_finds_reference_witness :
  (fix_file ascii_only
     (txt "Show(" ++ txt "UIManager" ++ txt ".Instance" ++ txt ");")).2 <> None /\
  length (txt "Show(" ++ txt "UIManager" ++ txt ".Instance" ++ txt ");")
  < length (fix_file ascii_only
              (txt "Show(" ++ txt "UIManager" ++ txt ".Instance" ++ txt ");")).1.
Proof.
  apply (fix_file_finds_reference ascii_only (txt "UIManager") (txt "Show(")
           (txt ");")).
  - apply (bool_decide_unpack _). vm_compute. exact I.
  - vm_compute. reflexivity.
  - vm_compute. reflexivity.
Defined.

Example fix_instances_main_on_concrete_files :
  FixInstances.main ascii_only
    [ (txt "Hud.cs", line "UIManager.Instance.Show(Minimap.Instance);");
      (txt "Game.cs", line "GameManager.Instance.Run();") ]
  = ([ (txt "Hud.cs",
        line "FindObjectOfType<UIManager>().Show(FindObjectOfType<Minimap>());");
       (txt "Game.cs", line "GameManager.Instance.Run();") ],
     (1, 2)).
Proof. by vm_compute. Qed.

Lemma add_using_statement_without_imports_witness :
  add_using_statement ascii_only
    (line "// the game namespace" ++ txt "namespace Game {" ++ NL ++ line "}")
  = line "// the game namespace" ++ USING_STATEMENT ++ NL ++ NL ++
    txt "namespace Game {" ++ NL ++ line "}" /\
  add_using_statement ascii_only
    (line "// no namespace here" ++ line "class C { }")
  = USING_STATEMENT ++ NL ++ NL ++
    line "// no namespace here" ++ line "class C { }".
Proof.
  split.
  - apply (proj2 (add_using_statement_without_imports ascii_only
                    (line "// the game namespace" ++ txt "namespace Game {" ++
                     NL ++ line "}")
                    ltac:(vm_compute; reflexivity))
             (line "// the game namespace") (txt "namespace Game {")
             (NL ++ line "}")).
    + reflexivity.
    + exists (txt " "), (txt "Game"), (txt " ").
      repeat apply conj; (reflexivity || discriminate || idtac);
        repeat (apply Forall_cons; split); try (by apply Forall_nil);
        vm_compute; reflexivity.
    + apply (namespace_found_first ascii_only _ _
               (Cfg (Some (chr "{")) (NL ++ line "}") None)).
      vm_compute. reflexivity.
  - apply (proj1 (add_using_statement_without_imports ascii_only
                    (line "// no namespace here" ++ line "class C { }")
                    ltac:(vm_compute; reflexivity))).
    apply namespace_not_found. vm_compute. reflexivity.
Defined.

End Examples.
